(** * Seismos KPI editor and viewer: completion estimates, idle times and
      quality summaries

    A shallow embedding of the computations of [Seismos_KPI_v1.py] (the job
    editor) and [Seismos_Viewer_v1.py] (the viewer), and the properties their
    specification states about them.

    Conventions of the embedding.
    - A pandas [Timestamp] is its integer value: nanoseconds since the epoch,
      a [Z].  [NaT] is [None].
    - A Python or numpy float is a rational [Q]; a non-finite float ([NaN],
      [inf]) is [None].  Where a result depends on the rounding of binary64
      arithmetic (the printed SPP percentages, the sum of the percentages)
      each operation is followed by [round_binary64]; elsewhere the
      arithmetic is exact.  The microsecond resolution of
      [datetime.timedelta] is not represented.
    - A Python [str] is a [string] (its UTF-8 bytes: byte-wise order and
      byte-wise containment agree with code-point order and containment).
    - A Python [dict] is an association list in insertion order.
    - Code that can raise returns a [result]. *)

From Stdlib Require Import ZArith QArith Qabs Qround List String Ascii Bool Lia DecimalString.
From Stdlib Require Import Permutation Sorted OrdersEx RelationClasses Morphisms.
From Stdlib Require Import Lqa DecimalPos DecimalN DecimalZ Qpower.
Import ListNotations.

Open Scope string_scope.
Open Scope Z_scope.

(** ** The Python and pandas operations the two scripts rely on *)

Module Py.

(** Exceptions the modelled code can raise. *)
Inductive exn : Type :=
| KeyError (key : string)
| ValueError
| ZeroDivisionError.

Inductive result (A : Type) : Type :=
| Ok (a : A)
| Raise (e : exn).
Arguments Ok {A} a.
Arguments Raise {A} e.

Definition bind {A B} (r : result A) (k : A -> result B) : result B :=
  match r with
  | Ok a => k a
  | Raise e => Raise e
  end.

Notation "x <- r ;; k" := (bind r (fun x => k))
  (at level 61, r at next level, right associativity).

(** *** Strings *)

Definition str_leb (a b : string) : bool :=
  match String_as_OT.compare a b with Gt => false | _ => true end.

(** [needle in hay] *)
Fixpoint contains (needle hay : string) : bool :=
  String.prefix needle hay
  || match hay with
     | EmptyString => false
     | String _ hay' => contains needle hay'
     end.

(** A string given by its bytes. *)
Definition bytes (l : list nat) : string :=
  fold_right (fun n s => String (ascii_of_nat n) s) EmptyString l.

(** The characters [str.strip] removes, those for which [str.isspace] holds,
    in UTF-8: U+0009..U+000D, U+001C..U+0020, U+0085, U+00A0, U+1680,
    U+2000..U+200A, U+2028, U+2029, U+202F, U+205F and U+3000. *)
Definition whitespace : list string :=
  map bytes
    [ [9]; [10]; [11]; [12]; [13]; [28]; [29]; [30]; [31]; [32];
      [194; 133]; [194; 160]; [225; 154; 128];
      [226; 128; 128]; [226; 128; 129]; [226; 128; 130]; [226; 128; 131];
      [226; 128; 132]; [226; 128; 133]; [226; 128; 134]; [226; 128; 135];
      [226; 128; 136]; [226; 128; 137]; [226; 128; 138];
      [226; 128; 168]; [226; 128; 169]; [226; 128; 175];
      [226; 129; 159]; [227; 128; 128] ]%nat.

(** [s] without its prefix [p], when it starts with [p]. *)
Fixpoint drop_prefix (p s : string) : option string :=
  match p with
  | EmptyString => Some s
  | String c p' =>
      match s with
      | String d s' => if Ascii.eqb c d then drop_prefix p' s' else None
      | EmptyString => None
      end
  end.

(** [s] without the first character, when that is one of [chars]. *)
Fixpoint drop_one (chars : list string) (s : string) : option string :=
  match chars with
  | [] => None
  | c :: chars' =>
      match drop_prefix c s with
      | Some rest => Some rest
      | None => drop_one chars' s
      end
  end.

Fixpoint drop_leading (chars : list string) (fuel : nat) (s : string) : string :=
  match fuel with
  | O => s
  | S fuel' =>
      match drop_one chars s with
      | Some rest => drop_leading chars fuel' rest
      | None => s
      end
  end.

Fixpoint reverse (s : string) : string :=
  match s with
  | EmptyString => EmptyString
  | String c s' => reverse s' ++ String c EmptyString
  end.

Definition lstrip (s : string) : string :=
  drop_leading whitespace (String.length s) s.

Definition rstrip (s : string) : string :=
  reverse (drop_leading (map reverse whitespace) (String.length s) (reverse s)).

Definition strip (s : string) : string := rstrip (lstrip s).

(** *** Lists *)

Section Lists.
Context {A : Type}.

(** [sorted(l, key=...)]: a stable sort. *)
Fixpoint insert_by (leb : A -> A -> bool) (x : A) (l : list A) : list A :=
  match l with
  | [] => [x]
  | y :: l' => if leb x y then x :: l else y :: insert_by leb x l'
  end.

Fixpoint sorted_by (leb : A -> A -> bool) (l : list A) : list A :=
  match l with
  | [] => []
  | x :: l' => insert_by leb x (sorted_by leb l')
  end.

Variable eqb : A -> A -> bool.

Definition mem (x : A) (l : list A) : bool := existsb (eqb x) l.

(** Distinct elements in order of first appearance. *)
Fixpoint unique_from (seen l : list A) : list A :=
  match l with
  | [] => []
  | x :: l' =>
      if mem x seen then unique_from seen l'
      else x :: unique_from (x :: seen) l'
  end.

Definition unique (l : list A) : list A := unique_from [] l.

Definition count (x : A) (l : list A) : Z :=
  Z.of_nat (List.length (filter (eqb x) l)).
End Lists.

(** *** Dictionaries *)

Definition dict (V : Type) : Type := list (string * V).

Fixpoint get {V} (d : dict V) (k : string) : option V :=
  match d with
  | [] => None
  | (k', v) :: d' => if String.eqb k' k then Some v else get d' k
  end.

Definition get_default {V} (d : dict V) (k : string) (default : V) : V :=
  match get d k with
  | Some v => v
  | None => default
  end.

Definition keys {V} (d : dict V) : list string := map fst d.

(** *** Numbers *)

Definition Zsum (l : list Z) : Z := fold_right Z.add 0 l.
Definition Qsum (l : list Q) : Q := fold_right Qplus 0%Q l.

(** [Series.mean()]: [NaN] on an empty series. *)
Definition mean (l : list Q) : option Q :=
  match l with
  | [] => None
  | _ => Some (Qsum l / inject_Z (Z.of_nat (List.length l)))%Q
  end.

(** [Series.max()] of a datetime column: [NaT] on an empty series. *)
Definition series_max (l : list Z) : option Z :=
  match l with
  | [] => None
  | x :: l' => Some (fold_left Z.max l' x)
  end.

(** [item > max_val] on timestamps; every comparison with [NaT] is false. *)
Definition ts_gt (a b : option Q) : bool :=
  match a, b with
  | Some x, Some y => negb (Qle_bool x y)
  | _, _ => false
  end.

(** The builtin [max] of a list. *)
Definition py_max (l : list (option Q)) : result (option Q) :=
  match l with
  | [] => Raise ValueError
  | x :: l' => Ok (fold_left (fun cur y => if ts_gt y cur then y else cur) l' x)
  end.

End Py.

Import Py.

(** ** Timestamps *)

Module Time.

Definition ns_per_second : Z := 1000000000.
Definition seconds_per_hour : Z := 3600.

(** [Timedelta.total_seconds() / 3600] *)
Definition hours_of (delta_ns : Z) : Q :=
  (inject_Z delta_ns / inject_Z ns_per_second / inject_Z seconds_per_hour)%Q.

(** [timedelta(hours=h)], in nanoseconds. *)
Definition timedelta_hours (h : Q) : Q :=
  (h * inject_Z seconds_per_hour * inject_Z ns_per_second)%Q.

(** Days from 1970-01-01 to a date of the proleptic Gregorian calendar. *)
Definition days_from_civil (y m d : Z) : Z :=
  let y' := if m <=? 2 then y - 1 else y in
  let era := y' / 400 in
  let yoe := y' - era * 400 in
  let mp := (m + 9) mod 12 in
  let doy := (153 * mp + 2) / 5 + d - 1 in
  let doe := yoe * 365 + yoe / 4 - yoe / 100 + doy in
  era * 146097 + doe - 719468.

(** The timestamp [y-m-dThh:mm]. *)
Definition at_ (y m d hh mm : Z) : Z :=
  (((days_from_civil y m d * 24 + hh) * 60 + mm) * 60) * ns_per_second.

End Time.

(** ** Data frames *)

Module Frame.

(** A cell of a sheet or of a stored document. *)
Inductive value : Type :=
| VNull                (* a blank cell, [NaN], [NaT] or [None] *)
| VTime (t : Z)        (* a datetime *)
| VStr (s : string)
| VInt (n : Z).

(** Column labels and rows; a row carries its index label, which row
    selection keeps. *)
Record DataFrame : Type := mkFrame {
  columns : list string;
  rows : list (nat * list value)
}.

Definition is_null (v : value) : bool :=
  match v with VNull => true | _ => false end.

Definition cell (i : nat) (r : nat * list value) : value := nth i (snd r) VNull.

Fixpoint positions (label : string) (cols : list string) (i : nat) : list nat :=
  match cols with
  | [] => []
  | c :: cols' =>
      if String.eqb c label then i :: positions label cols' (S i)
      else positions label cols' (S i)
  end.

(** The position of the column [df[label]] selects.  A label that is absent
    is a [KeyError]; with a repeated label [df[label]] is a frame, which
    [pd.to_datetime] refuses with a [ValueError]. *)
Definition column_position (label : string) (cols : list string) : result nat :=
  match positions label cols 0 with
  | [] => Raise (KeyError label)
  | [i] => Ok i
  | _ => Raise ValueError
  end.

Definition get_column (df : DataFrame) (i : nat) : list value :=
  map (cell i) (rows df).

Fixpoint replace_nth (i : nat) (v : value) (l : list value) : list value :=
  match i, l with
  | O, _ :: l' => v :: l'
  | S i', x :: l' => x :: replace_nth i' v l'
  | _, [] => []
  end.

(** [df[label] = series] for an existing column. *)
Definition set_column (df : DataFrame) (i : nat) (series : list value) : DataFrame :=
  mkFrame (columns df)
          (map (fun rv => (fst (fst rv), replace_nth i (snd rv) (snd (fst rv))))
               (combine (rows df) series)).

(** [df.columns = df.columns.str.strip()] *)
Definition strip_columns (df : DataFrame) : DataFrame :=
  mkFrame (map strip (columns df)) (rows df).

(** [df.dropna(subset=[a, b])] with the two columns given by position. *)
Definition dropna (i j : nat) (df : DataFrame) : DataFrame :=
  mkFrame (columns df)
          (filter (fun r => negb (is_null (cell i r)) && negb (is_null (cell j r)))
                  (rows df)).

Section Parser.

(** What [pd.to_datetime(..., errors="coerce")] makes of a cell that is
    neither a datetime nor null.  The whole column is an argument: the
    format of a text column is inferred from the column. *)
Variable parse : list value -> value -> option Z.

Definition coerce (series : list value) (v : value) : value :=
  match v with
  | VTime t => VTime t
  | VNull => VNull
  | other =>
      match parse series other with
      | Some t => VTime t
      | None => VNull
      end
  end.

Definition to_datetime (series : list value) : list value :=
  map (coerce series) series.

(** The three statements both scripts run on the loaded frame:
<<
  df["Start time"] = pd.to_datetime(df["Start time"], errors="coerce")
  df["End time"] = pd.to_datetime(df["End time"], errors="coerce")
  df = df.dropna(subset=["Start time", "End time"])
>> *)
Definition coerce_times (df : DataFrame) : result DataFrame :=
  i <- column_position "Start time" (columns df) ;;
  let df1 := set_column df i (to_datetime (get_column df i)) in
  j <- column_position "End time" (columns df1) ;;
  let df2 := set_column df1 j (to_datetime (get_column df1 j)) in
  Ok (dropna i j df2).

(** The outcome of [coerce_times], stated row by row: whether the cell of row
    [r] in column [i] of [df] parses, the row with both times parsed, and the
    rows that are kept.  [coerce_times_rows] below shows that [coerce_times]
    computes [surviving_rows]. *)
Definition parses (df : DataFrame) (i : nat) (r : nat * list value) : bool :=
  negb (is_null (coerce (get_column df i) (cell i r))).

(** Row [r] of [df] with its cells in columns [i] and [j] parsed. *)
Definition with_times (df : DataFrame) (i j : nat) (r : nat * list value)
  : nat * list value :=
  (fst r,
   replace_nth j (coerce (get_column df j) (cell j r))
     (replace_nth i (coerce (get_column df i) (cell i r)) (snd r))).

(** The rows of [df] whose cells in columns [i] and [j] both parse, in the
    order of [df], with the parsed times in place. *)
Definition surviving_rows (df : DataFrame) (i j : nat) : list (nat * list value) :=
  map (with_times df i j) (filter (fun r => parses df i r && parses df j r) (rows df)).

End Parser.

End Frame.

Import Frame.

(** One stage of one well, as the aggregation reads it from the frame. *)
Record StageRecord : Type := mkStage {
  well_name : string;
  stage : value;
  start_time : Z;
  end_time : Z
}.

(** The rows of a frame as stage records.  Well names are text; a row whose
    well name is null belongs to no group of [groupby("Well Name")], and a row
    whose time is null has no duration. *)
Definition stage_record (w s a b : nat) (r : nat * list value) : option StageRecord :=
  match cell w r, cell a r, cell b r with
  | VStr name, VTime t0, VTime t1 => Some (mkStage name (cell s r) t0 t1)
  | _, _, _ => None
  end.

Fixpoint somes {A} (l : list (option A)) : list A :=
  match l with
  | [] => []
  | Some a :: l' => a :: somes l'
  | None :: l' => somes l'
  end.

Definition stage_records (df : DataFrame) : result (list StageRecord) :=
  w <- column_position "Well Name" (columns df) ;;
  s <- column_position "Stage" (columns df) ;;
  a <- column_position "Start time" (columns df) ;;
  b <- column_position "End time" (columns df) ;;
  Ok (somes (map (stage_record w s a b) (rows df))).

(** [kpi_df.groupby("Well Name")]: groups in ascending key order, the rows of
    a group in frame order. *)
Definition groupby (records : list StageRecord) : list (string * list StageRecord) :=
  map (fun w => (w, filter (fun r => String.eqb (well_name r) w) records))
      (sorted_by str_leb (unique String.eqb (map well_name records))).

(** [(df["End time"] - df["Start time"]).dt.total_seconds() / 3600] *)
Definition duration_hrs (r : StageRecord) : Q :=
  Time.hours_of (end_time r - start_time r).

(** ** [Seismos_KPI_v1.py]: the job editor *)

Module KPI.

Section Upload.
Variable parse : list value -> value -> option Z.

(** Lines 71-74: the sheet as the rest of the script sees it. *)
Definition normalize (sheet : DataFrame) : result DataFrame :=
  coerce_times parse (strip_columns sheet).
End Upload.

(** [job_data["wells"].get(well, 60)] *)
Definition total_stages (wells : dict Z) (well : string) : Z :=
  get_default wells well 60.

(** The body of the loop of lines 101-109 for one group.
    [timedelta(hours=nan)] raises [ValueError]; [NaT + timedelta] is [NaT]. *)
Definition est_end (wells : dict Z) (well : string) (group : list StageRecord)
  : result (option Q) :=
  let total_stages := total_stages wells well in
  let stages_done := Z.of_nat (List.length group) in
  let stages_remaining := total_stages - stages_done in
  let avg_duration := mean (map duration_hrs group) in
  let last_end := series_max (map end_time group) in
  match avg_duration with
  | None => Raise ValueError
  | Some avg =>
      Ok (match last_end with
          | None => None
          | Some last =>
              Some (inject_Z last
                    + Time.timedelta_hours (inject_Z stages_remaining * avg))%Q
          end)
  end.

(** The loop of lines 100-109: the estimate of every group, in group order. *)
Fixpoint well_estimates (wells : dict Z) (grouped : list (string * list StageRecord))
  : result (list (string * option Q)) :=
  match grouped with
  | [] => Ok []
  | (well, group) :: rest =>
      e <- est_end wells well group ;;
      es <- well_estimates wells rest ;;
      Ok ((well, e) :: es)
  end.

Definition pad_estimates (wells : dict Z) (records : list StageRecord)
  : result (list (option Q)) :=
  es <- well_estimates wells (groupby records) ;;
  Ok (map snd es).

(** Line 114: [pad_end = max(pad_estimates)] *)
Definition pad_end (wells : dict Z) (records : list StageRecord) : result (option Q) :=
  es <- pad_estimates wells records ;;
  py_max es.

(** [Series.diff()] *)
Fixpoint diff_from (prev : Z) (l : list Z) : list (option Z) :=
  match l with
  | [] => []
  | x :: l' => Some (x - prev) :: diff_from x l'
  end.

Definition diff (l : list Z) : list (option Z) :=
  match l with
  | [] => []
  | x :: l' => None :: diff_from x l'
  end.

(** [group.sort_values("Start time")].  Rows of equal start time stay in
    frame order here; pandas leaves their order open, and the column of start
    times, hence the idle column, is the same either way. *)
Definition sort_values (group : list StageRecord) : list StageRecord :=
  sorted_by (fun a b => start_time a <=? start_time b) group.

(** Lines 122-123: the sorted group and its new column [Idle (hrs)]. *)
Definition idle_hrs (group : list StageRecord) : list (option Q) :=
  map (option_map Time.hours_of) (diff (map start_time (sort_values group))).

Definition idle_view (group : list StageRecord) : list (StageRecord * option Q) :=
  combine (sort_values group) (idle_hrs group).

End KPI.

(** ** [Seismos_Viewer_v1.py]: the viewer *)

Module Viewer.

Section Load.
Variable parse : list value -> value -> option Z.

(** Lines 45-47, run when the frame of stored stages is not empty. *)
Definition normalize (stored : DataFrame) : result DataFrame :=
  coerce_times parse stored.
End Load.

(** [wells[saved_name]] *)
Definition index (wells : dict Z) (k : string) : result Z :=
  match get wells k with
  | Some v => Ok v
  | None => Raise (KeyError k)
  end.

(** The loop of lines 69-72 over the remaining keys. *)
Fixpoint fuzzy_match (wells : dict Z) (saved_names : list string) (well_name : string)
  : result (option Z) :=
  match saved_names with
  | [] => Ok None
  | saved_name :: rest =>
      if contains saved_name well_name || contains well_name saved_name
      then v <- index wells saved_name ;; Ok (Some v)
      else fuzzy_match wells rest well_name
  end.

(** Lines 65-75 *)
Definition total_stages (wells : dict Z) (well_name : string) : result Z :=
  let total_stages := get wells well_name in
  total_stages <-
    match total_stages with
    | None => fuzzy_match wells (keys wells) well_name
    | Some _ => Ok total_stages
    end ;;
  Ok (match total_stages with
      | None => 0
      | Some n => n
      end).

(** Lines 77-78 *)
Definition remaining (wells : dict Z) (well_name : string) (group : list StageRecord)
  : result Z :=
  total_stages <- total_stages wells well_name ;;
  let completed := Z.of_nat (List.length group) in
  Ok (total_stages - completed).

End Viewer.

(** ** The quality summary of the viewer (lines 88-125) *)

Module Quality.

(** A stored quality entry.  A category is [None] when the entry holds no
    value for it. *)
Record QualityRecord : Type := mkQuality {
  well : string;
  q_stage : Z;
  pre_sand : option string;
  post_sand : option string;
  spp : option string;
  comments : string
}.

(** [Series.value_counts().to_dict()]: nulls are left out, the most frequent
    value comes first, values of equal count in order of first appearance. *)
Definition value_counts (series : list (option string)) : dict Z :=
  let observed := somes series in
  sorted_by (fun a b => snd b <=? snd a)
            (map (fun v => (v, count String.eqb v observed))
                 (unique String.eqb observed)).

(** A numpy division: no exception, a non-finite result on a zero divisor. *)
Definition np_div (a b : Z) : option Q :=
  if b =? 0 then None else Some (inject_Z a / inject_Z b)%Q.

(** Rounding to the nearest integer, ties to even. *)
Definition round_half_even (x : Q) : Z :=
  let f := Qfloor x in
  match (x - inject_Z f ?= 1 # 2)%Q with
  | Lt => f
  | Gt => f + 1
  | Eq => if Z.even f then f else f + 1
  end.

(** The largest [e] with [2 ^ e <= x], for a positive [x]. *)
Definition ilog2 (x : Q) : Z :=
  let e := Z.log2 (Qnum x) - Z.log2 (Zpos (Qden x)) in
  if Qle_bool (2 ^ e) x then e else e - 1.

(** The binary64 number nearest to [x], ties to even: 53 significant bits.
    The exponent range of the format is not represented; the quotients and
    percentages below lie between 2^(-64) and 100. *)
Definition round_binary64 (x : Q) : Q :=
  if Qeq_bool x 0 then 0%Q
  else
    let ulp := (2 ^ (ilog2 (Qabs x) - 52))%Q in
    (inject_Z (round_half_even (x / ulp)) * ulp)%Q.

(** The unit roundoff of binary64, 2^(-53) *)
Definition binary64_unit : Q := 1 # 9007199254740992.

(** [count / total * 100] in binary64: the quotient of two integers is
    rounded once, and so is its product with 100. *)
Definition percent64 (count total : Z) : Q :=
  round_binary64 (round_binary64 (inject_Z count / inject_Z total) * 100).

(** A Python division of two integers: the quotient, rounded to binary64. *)
Definition py_div (a b : Z) : result Q :=
  if b =? 0 then Raise ZeroDivisionError
  else Ok (round_binary64 (inject_Z a / inject_Z b)).

(** A numpy division of two integers with its rounding. *)
Definition np_div64 (a b : Z) : option Q :=
  if b =? 0 then None else Some (round_binary64 (inject_Z a / inject_Z b)).

Definition digits (n : Z) : string :=
  DecimalString.NilZero.string_of_uint (N.to_uint (Z.to_N n)).

(** [f"{x:.2f}"] *)
Definition format_2f (x : Q) : string :=
  let n := round_half_even (x * 100) in
  let a := Z.abs n in
  (if n <? 0 then "-" else "")
    ++ digits (a / 100) ++ "." ++ (if a mod 100 <? 10 then "0" else "")
    ++ digits (a mod 100).

Record RateEntry : Type := mkEntry {
  Condition : string;
  Pre : Z;
  Post : Z;
  Total : Z
}.

(** A row of [rate_df] once [Percent Total] is added. *)
Record RateRow : Type := mkRate {
  entry : RateEntry;
  Percent_Total : option Q
}.

Record SppRow : Type := mkSpp {
  spp_Condition : string;
  Count : Z;
  spp_Percent_Total : string
}.

(** Lines 94-103 *)
Definition rate_table (quality_data : list QualityRecord) : list RateEntry :=
  let pre_counts := value_counts (map pre_sand quality_data) in
  let post_counts := value_counts (map post_sand quality_data) in
  let rate_conditions :=
    sorted_by str_leb (unique String.eqb (keys pre_counts ++ keys post_counts)) in
  map (fun cond =>
         let pre := get_default pre_counts cond 0 in
         let post := get_default post_counts cond 0 in
         let total := pre + post in
         mkEntry cond pre post total)
      rate_conditions.

(** Lines 104-107.  A frame built from no rows has no column [Total]. *)
Definition rate_df (quality_data : list QualityRecord) : result (list RateRow) :=
  let rate_table := rate_table quality_data in
  match rate_table with
  | [] => Raise (KeyError "Total")
  | _ =>
      let total_rate := Zsum (map Total rate_table) in
      Ok (map (fun e =>
                 mkRate e (option_map (fun x => x * 100)%Q (np_div (Total e) total_rate)))
              rate_table)
  end.

(** Lines 104-107 with the rounding of the division and of the product
    ([rate_df] computes them exactly). *)
Definition rate_df64 (quality_data : list QualityRecord) : result (list RateRow) :=
  let rate_table := rate_table quality_data in
  match rate_table with
  | [] => Raise (KeyError "Total")
  | _ =>
      let total_rate := Zsum (map Total rate_table) in
      Ok (map (fun e =>
                 mkRate e (option_map (fun x => round_binary64 (x * 100))
                                      (np_div64 (Total e) total_rate)))
              rate_table)
  end.

(** Lines 112-118.  The quotient and its product with 100 are rounded to
    binary64 before the two decimals are taken. *)
Fixpoint spp_rows (spp_total : Z) (items : dict Z) : result (list SppRow) :=
  match items with
  | [] => Ok []
  | (k, v) :: rest =>
      x <- py_div v spp_total ;;
      rows <- spp_rows spp_total rest ;;
      Ok (mkSpp k v (format_2f (round_binary64 (x * 100)) ++ "%") :: rows)
  end.

Definition spp_table (quality_data : list QualityRecord) : result (list SppRow) :=
  let spp_counts := value_counts (map spp quality_data) in
  let spp_total := Zsum (map snd spp_counts) in
  spp_rows spp_total spp_counts.

(** What the section shows. *)
Inductive view : Type :=
| NoData                                         (* the warning of line 125 *)
| Tables (rate : list RateRow) (spp : list SppRow).

(** Lines 93-125 for the entries of one well. *)
Definition summarize_rates (quality_data : list QualityRecord) : result view :=
  match quality_data with
  | [] => Ok NoData
  | _ =>
      rate <- rate_df quality_data ;;
      spp <- spp_table quality_data ;;
      Ok (Tables rate spp)
  end.

(** Lines 89-125 *)
Definition quality_summary (quality_docs : list QualityRecord) (selected_well : string)
  : result view :=
  summarize_rates (filter (fun d => String.eqb (well d) selected_well) quality_docs).



End Quality.

Import Quality.

(** ** The specification's formulas, in its own words *)

Module Spec.

Definition ns_per_hour : Z := 3600 * 1000000000.

(** The valid stage records of one well. *)
Definition records_of (w : string) (records : list StageRecord) : list StageRecord :=
  filter (fun r => String.eqb (well_name r) w) records.

Definition stages_completed (rs : list StageRecord) : Z := Z.of_nat (List.length rs).

(** [(end_time - start_time) / 3600], the difference taken in seconds. *)
Definition duration_hours (r : StageRecord) : Q :=
  (inject_Z (end_time r - start_time r) / inject_Z 1000000000 / inject_Z 3600)%Q.

(** The arithmetic mean of [duration_hours] over the records. *)
Definition average_duration_hours (rs : list StageRecord) : Q :=
  (Qsum (map duration_hours rs) / inject_Z (Z.of_nat (List.length rs)))%Q.

(** [t] is the maximum [end_time] of the records. *)
Definition is_last_end_time (t : Z) (rs : list StageRecord) : Prop :=
  In t (map end_time rs) /\ forall r, In r rs -> end_time r <= t.

(** [last_end_time + remaining_stages * average_duration_hours], the hours
    added to the timestamp as a duration. *)
Definition estimated_completion (target last_end_time : Z) (rs : list StageRecord) : Q :=
  (inject_Z last_end_time
   + inject_Z (target - stages_completed rs) * average_duration_hours rs
     * inject_Z ns_per_hour)%Q.

(** The text before the first point of [s] and the text after it *)
Fixpoint split_at_dot (s : string) : option (string * string) :=
  match s with
  | EmptyString => None
  | String c s' =>
      if Ascii.eqb c "." then Some (EmptyString, s')
      else match split_at_dot s' with
           | Some (a, b) => Some (String c a, b)
           | None => None
           end
  end.

(** The number a non-empty run of decimal digits denotes *)
Definition read_whole (s : string) : option Z :=
  option_map (fun d => Z.of_N (N.of_uint d)) (NilZero.uint_of_string s).

(** The hundredths that two digits and a percent sign denote *)
Definition read_fraction (s : string) : option Z :=
  match s with
  | String c1 (String c2 (String p EmptyString)) =>
      if Ascii.eqb p "%" then read_whole (String c1 (String c2 EmptyString)) else None
  | _ => None
  end.

(** The number that a text [d...d.dd%] shows *)
Definition read_percent (text : string) : option Q :=
  match split_at_dot text with
  | Some (whole, fraction) =>
      match read_whole whole, read_fraction fraction with
      | Some w, Some f => Some (inject_Z (w * 100 + f) / 100)%Q
      | _, _ => None
      end
  | None => None
  end.

(** [s] occurs in [t] as a contiguous run of characters. *)
Definition substring (s t : string) : Prop :=
  exists a b, t = a ++ s ++ b.

(** One of the two names is a substring of the other. *)
Definition names_match (saved observed : string) : Prop :=
  substring saved observed \/ substring observed saved.

(** The values observed in one category field of the records. *)
Definition observed (field : QualityRecord -> option string)
  (records : list QualityRecord) : list string :=
  somes (map field records).

(** How often [c] occurs among [values]. *)
Definition occurrences (c : string) (values : list string) : Z :=
  Z.of_nat (count_occ string_dec values c).

End Spec.

(** The declared wells of a job whose long names extend the short name A-1H. *)
Definition long_name_wells : dict Z :=
  [("B-2H", 40); ("A-1H (long name)", 55); ("A-1H (long name) ST", 70)].

(** The scenario of the specification: well A with target 3 and two stages,
    00:00-01:00 and 03:00-04:00 on 2024-01-01. *)
Definition scenario_wells : dict Z := [("A", 3)].

Definition scenario_records : list StageRecord :=
  [ mkStage "A" (VInt 1) (Time.at_ 2024 1 1 0 0) (Time.at_ 2024 1 1 1 0);
    mkStage "A" (VInt 2) (Time.at_ 2024 1 1 3 0) (Time.at_ 2024 1 1 4 0) ].

(** An uploaded sheet with padded column labels: a good row, a row whose start
    is text, a row whose end precedes its start, and a row with a blank end. *)
Definition upload_sheet : DataFrame :=
  mkFrame
    [" Well Name"; "Stage"; "Start time "; " End time"]
    [ (0%nat, [VStr "A"; VInt 1; VTime (Time.at_ 2024 1 1 0 0); VTime (Time.at_ 2024 1 1 1 0)]);
      (1%nat, [VStr "A"; VInt 2; VStr "pending"; VTime (Time.at_ 2024 1 1 4 0)]);
      (2%nat, [VStr "A"; VInt 3; VTime (Time.at_ 2024 1 1 4 0); VTime (Time.at_ 2024 1 1 1 0)]);
      (3%nat, [VStr "B"; VInt 1; VTime (Time.at_ 2024 1 1 2 0); VNull]) ].

(** What normalization leaves of [upload_sheet], and its stage records. *)
Definition normalized_upload : DataFrame :=
  mkFrame
    ["Well Name"; "Stage"; "Start time"; "End time"]
    [ (0%nat, [VStr "A"; VInt 1; VTime (Time.at_ 2024 1 1 0 0); VTime (Time.at_ 2024 1 1 1 0)]);
      (2%nat, [VStr "A"; VInt 3; VTime (Time.at_ 2024 1 1 4 0); VTime (Time.at_ 2024 1 1 1 0)]) ].

Definition late_start : StageRecord :=
  mkStage "A" (VInt 3) (Time.at_ 2024 1 1 4 0) (Time.at_ 2024 1 1 1 0).

Definition upload_records : list StageRecord :=
  [ mkStage "A" (VInt 1) (Time.at_ 2024 1 1 0 0) (Time.at_ 2024 1 1 1 0); late_start ].

(** A parser that recognises no text. *)
Definition no_text (series : list value) (v : value) : option Z := None.

(** The quality scenario of the specification: for well B the pre-sand values
    Good, Good, Bad and the single post-sand value Good. *)
Definition quality_scenario : list QualityRecord :=
  [ mkQuality "B" 1 (Some "Good") (Some "Good") (Some "Good") "";
    mkQuality "B" 2 (Some "Good") None (Some "Anomaly") "";
    mkQuality "B" 3 (Some "Bad") None (Some "Good") "" ].


(** The entries of 160 stages of well B: the SPP value is Good on the first 23
    stages and Anomaly on the other 137. *)
Definition spp_scenario : list QualityRecord :=
  map (fun n => mkQuality "B" (Z.of_nat n) (Some "Good") (Some "Good")
                  (Some (if (n <=? 23)%nat then "Good" else "Anomaly")) "")
      (seq 1 160).

(** ** Documents and their ids *)

Module Docs.

(** [d[k] = v]: the value of an existing key is replaced where it stands, a
    new key goes to the end.  [document(k).set(v)] on a collection is the
    same operation. *)
Fixpoint dict_set {V} (d : dict V) (k : string) (v : V) : dict V :=
  match d with
  | [] => [(k, v)]
  | (k', v') :: d' =>
      if String.eqb k' k then (k', v) :: d' else (k', v') :: dict_set d' k v
  end.

(** [document(k).delete()] *)
Definition dict_del {V} (d : dict V) (k : string) : dict V :=
  filter (fun kv => negb (String.eqb (fst kv) k)) d.

(** [str(n)] of an integer *)
Definition py_str_int (n : Z) : string :=
  DecimalString.NilZero.string_of_int (Z.to_int n).

(** [f"{well}_stage_{stage}"] *)
Definition doc_id (well : string) (stage : Z) : string :=
  well ++ "_stage_" ++ py_str_int stage.

(** Whether the character [c] occurs in [s] *)
Fixpoint has_char (c : ascii) (s : string) : bool :=
  match s with
  | EmptyString => false
  | String c' s' => Ascii.eqb c' c || has_char c s'
  end.

(** [range(a, b)] *)
Definition py_range (a b : Z) : list Z :=
  map (fun i => a + Z.of_nat i) (seq 0 (Z.to_nat (b - a))).

End Docs.

Import Docs.

(** ** The job form of the editor (lines 23-58) and job deletion (183-188) *)

Module JobForm.

Record Job : Type := mkJob {
  job_id : string;
  operator : string;
  pad : string;
  wells : dict Z;
  pattern_type : string;
  simul_group : list string;
  solo_wells : list string;
  created : Z
}.

(** What the user entered: one name and stage count per well row, and the
    wells picked for the simul group. *)
Record Form : Type := mkForm {
  f_job_id : string;
  f_operator : string;
  f_pad : string;
  f_entries : list (string * Z);
  f_pattern_type : string;
  f_simul_group : list string
}.

(** The loop of lines 31-36: [wells[well_name] = stages] for every row. *)
Definition form_wells (entries : list (string * Z)) : dict Z :=
  fold_left (fun wells e => dict_set wells (fst e) (snd e)) entries [].

(** Line 40: [[w for w in wells if w not in simul_group]] *)
Definition solo_of (wells : dict Z) (simul_group : list string) : list string :=
  filter (fun w => negb (mem String.eqb w simul_group)) (keys wells).

(** The truth value of a string *)
Definition truthy (s : string) : bool := negb (String.eqb s "").

Inductive outcome : Type :=
| Ignored      (* the condition of line 43 is false: nothing is done *)
| Rejected     (* the job number exists: [st.error] *)
| Saved.       (* [st.success] *)

(** Lines 42-58 *)
Definition submit (jobs : dict Job) (form : Form) (submitted : bool) (now : Z)
  : dict Job * outcome :=
  let wells := form_wells (f_entries form) in
  let solo_wells := solo_of wells (f_simul_group form) in
  if submitted && truthy (f_job_id form) && truthy (f_operator form)
     && truthy (f_pad form) && negb (Nat.eqb (List.length wells) 0)
  then
    match get jobs (f_job_id form) with
    | Some _ => (jobs, Rejected)
    | None =>
        (dict_set jobs (f_job_id form)
           (mkJob (f_job_id form) (f_operator form) (f_pad form) wells
                  (f_pattern_type form) (f_simul_group form) solo_wells now),
         Saved)
    end
  else (jobs, Ignored).

(** Line 187 *)
Definition delete_job (jobs : dict Job) (job_to_delete : string) : dict Job :=
  dict_del jobs job_to_delete.

(** A form with a repeated well name, and the job it saves at time 7. *)
Definition pad_form : Form :=
  mkForm "25-052" "Acme" "North"
         [("A-1H", 40); ("B-2H", 55); ("A-1H", 42); ("C-3H", 60)]
         "Hybrid" ["B-2H"].

End JobForm.

(** ** Storing the uploaded stages (editor, lines 76-87) *)

Module Upload.

Section Ids.
(** [int(x)] and [f"{x}"] for the cells that are not an integer, respectively
    not text. *)
Variable int_ : value -> result Z.
Variable str_ : value -> string.

(** Line 79, for one row: [f"{row['Well Name']}_stage_{int(row['Stage'])}"] *)
Definition row_id (well stage : value) : result string :=
  n <- match stage with
       | VInt n => Ok n
       | other => int_ other
       end ;;
  Ok (match well with
      | VStr s => s
      | other => str_ other
      end ++ "_stage_" ++ py_str_int n).
End Ids.

Section Rows.
(** The data of a row: [row.drop("_id").to_dict()] *)
Context {D : Type}.

(** Line 80: the rows whose id is not stored yet *)
Definition new_rows (existing_ids : list string) (kpi_rows : list (string * D))
  : list (string * D) :=
  filter (fun r => negb (mem String.eqb (fst r) existing_ids)) kpi_rows.

(** Lines 82-85 *)
Definition write_rows (stage_collection : dict D) (new_kpi : list (string * D))
  : dict D :=
  fold_left (fun c r => dict_set c (fst r) (snd r)) new_kpi stage_collection.

(** Lines 80-87 on the rows with their ids: the collection afterwards and the
    number the message reports.  The ids are those of line 79, [assign_ids]
    below, which raises on a sheet without rows. *)
Definition upload (stage_collection : dict D) (kpi_rows : list (string * D))
  : dict D * nat :=
  let existing_ids := keys stage_collection in
  let new_kpi := new_rows existing_ids kpi_rows in
  (write_rows stage_collection new_kpi, List.length new_kpi).
End Rows.

Section Script.
(** [int(x)] and [f"{x}"] for the cells that are not an integer, respectively
    not text; and for the series [row[label]] is when the label is repeated. *)
Variable int_ : value -> result Z.
Variable str_ : value -> string.
Variable int_cells : list value -> result Z.
Variable str_cells : list value -> string.

(** [row[label]]: the cell under the label, the cells under a repeated
    label, [KeyError] when no column has the label. *)
Definition row_cells (label : string) (cols : list string) (r : nat * list value)
  : result (list value) :=
  match positions label cols 0 with
  | [] => Raise (KeyError label)
  | ps => Ok (map (fun i => cell i r) ps)
  end.

(** [int(row['Stage'])] and the text of [row['Well Name']] *)
Definition int_of (stage : list value) : result Z :=
  match stage with
  | [VInt n] => Ok n
  | [other] => int_ other
  | several => int_cells several
  end.

Definition text_of (well : list value) : string :=
  match well with
  | [VStr name] => name
  | [other] => str_ other
  | several => str_cells several
  end.

(** The lambda of line 79 on one row of the frame. *)
Definition id_of_row (cols : list string) (r : nat * list value) : result string :=
  well <- row_cells "Well Name" cols r ;;
  stage <- row_cells "Stage" cols r ;;
  n <- int_of stage ;;
  Ok (text_of well ++ "_stage_" ++ py_str_int n).

Fixpoint row_ids (cols : list string) (kpi_rows : list (nat * list value))
  : result (list string) :=
  match kpi_rows with
  | [] => Ok []
  | r :: rest =>
      id <- id_of_row cols r ;;
      ids <- row_ids cols rest ;;
      Ok (id :: ids)
  end.

(** Line 79: the column [_id].  On a frame without rows [apply] returns an
    empty frame, not a series, and its assignment to the column [_id] raises
    [ValueError]. *)
Definition assign_ids (kpi_df : DataFrame) : result (list string) :=
  match rows kpi_df with
  | [] => Raise ValueError
  | kpi_rows => row_ids (columns kpi_df) kpi_rows
  end.

(** [row.drop("_id").to_dict()]: the cells of the row by label; under a
    repeated label the last cell. *)
Definition row_data (cols : list string) (r : nat * list value) : dict value :=
  fold_left (fun d lc => dict_set d (fst lc) (snd lc)) (combine cols (snd r)) [].

(** Lines 77-87 on the normalized sheet: the collection afterwards and the
    number the message reports. *)
Definition store_new (stage_collection : dict (dict value)) (kpi_df : DataFrame)
  : result (dict (dict value) * nat) :=
  ids <- assign_ids kpi_df ;;
  Ok (upload stage_collection
        (combine ids (map (row_data (columns kpi_df)) (rows kpi_df)))).
End Script.

(** [int] and the text of a cell, for sheets whose stage cells are integers
    and whose well cells are text: no other cell is converted. *)
Definition int_unused {A : Type} (x : A) : result Z := Raise ValueError.
Definition text_unused {A : Type} (x : A) : string := "".

(** A collection with the document of stage 1 of well A. *)
Definition stored_docs : dict (dict value) :=
  [("A_stage_1", [("Well Name", VStr "A"); ("Stage", VInt 1)])].

(** A collection with one stored stage, and the rows of a sheet with their
    ids: the stored stage again, and stage 2 twice. *)
Definition stored_stages : dict Z := [("A_stage_1", 10)].
Definition sheet_rows : list (string * Z) :=
  [("A_stage_1", 11); ("A_stage_2", 20); ("A_stage_2", 21)].

End Upload.

(** ** The editor on an uploaded sheet (lines 71-115) *)

Module Editor.

Section Script.
Variable parse : list value -> value -> option Z.
Variable int_ : value -> result Z.
Variable str_ : value -> string.
Variable int_cells : list value -> result Z.
Variable str_cells : list value -> string.

(** Lines 71-115 as far as they bear on the pad estimate: normalization, the
    ids of line 79, the groups and their estimates, and the maximum of line
    114.  What lines 80-87 store has no part in it. *)
Definition pad_completion (wells : dict Z) (sheet : DataFrame) : result (option Q) :=
  kpi_df <- KPI.normalize parse sheet ;;
  _ <- Upload.assign_ids int_ str_ int_cells str_cells kpi_df ;;
  records <- stage_records kpi_df ;;
  KPI.pad_end wells records.
End Script.

(** A pad of two wells: A with target 3 and the stages 00:00-01:00 and
    03:00-04:00, B with target 4 and the stage 01:00-03:00, on 2024-01-01. *)
Definition pad_wells : dict Z := [("A", 3); ("B", 4)].

Definition pad_sheet : DataFrame :=
  mkFrame
    ["Well Name"; "Stage"; "Start time"; "End time"]
    [ (0%nat, [VStr "A"; VInt 1; VTime (Time.at_ 2024 1 1 0 0); VTime (Time.at_ 2024 1 1 1 0)]);
      (1%nat, [VStr "B"; VInt 1; VTime (Time.at_ 2024 1 1 1 0); VTime (Time.at_ 2024 1 1 3 0)]);
      (2%nat, [VStr "A"; VInt 2; VTime (Time.at_ 2024 1 1 3 0); VTime (Time.at_ 2024 1 1 4 0)]) ].

Definition pad_records : list StageRecord :=
  [ mkStage "A" (VInt 1) (Time.at_ 2024 1 1 0 0) (Time.at_ 2024 1 1 1 0);
    mkStage "B" (VInt 1) (Time.at_ 2024 1 1 1 0) (Time.at_ 2024 1 1 3 0);
    mkStage "A" (VInt 2) (Time.at_ 2024 1 1 3 0) (Time.at_ 2024 1 1 4 0) ].

(** A sheet none of whose rows has both times: a start that is text, and a
    blank end. *)
Definition pending_sheet : DataFrame :=
  mkFrame
    ["Well Name"; "Stage"; "Start time"; "End time"]
    [ (0%nat, [VStr "A"; VInt 2; VStr "pending"; VTime (Time.at_ 2024 1 1 4 0)]);
      (1%nat, [VStr "B"; VInt 1; VTime (Time.at_ 2024 1 1 2 0); VNull]) ].

(** The normalized sheet without rows. *)
Definition empty_sheet : DataFrame :=
  mkFrame ["Well Name"; "Stage"; "Start time"; "End time"] [].

(** The stage documents after [pad_sheet] is stored on top of
    [Upload.stored_docs]. *)
Definition pad_docs : dict (dict value) :=
  [ ("A_stage_1", [("Well Name", VStr "A"); ("Stage", VInt 1)]);
    ("B_stage_1",
     [ ("Well Name", VStr "B"); ("Stage", VInt 1);
       ("Start time", VTime (Time.at_ 2024 1 1 1 0));
       ("End time", VTime (Time.at_ 2024 1 1 3 0)) ]);
    ("A_stage_2",
     [ ("Well Name", VStr "A"); ("Stage", VInt 2);
       ("Start time", VTime (Time.at_ 2024 1 1 3 0));
       ("End time", VTime (Time.at_ 2024 1 1 4 0)) ]) ].

(** A sheet whose labels are padded with a no-break space (U+00A0) and an em
    space (U+2003). *)
Definition nbsp_sheet : DataFrame :=
  mkFrame
    [ "Well Name"; "Stage";
      bytes [194; 160]%nat ++ "Start time" ++ bytes [226; 128; 131]%nat ]
    [].

End Editor.

(** ** The quality checklist of the editor (lines 146-171) *)

Module Checklist.

Record QualityDoc : Type := mkDoc {
  qd_entry : QualityRecord;
  qd_timestamp : Z
}.

Definition pre_options : list string :=
  ["Good"; "Medium"; "Bad"; "No Usable Drop"; "Drop not performed"].
Definition post_options : list string :=
  ["Good"; "Medium"; "Bad"; "No Usable Drop"; "No post sand"].
Definition spp_options : list string :=
  ["Good"; "Anomaly"; "No Post Sand"; "N/A"].

(** Line 151: [list(range(1, qc_doc["wells"][qc_well] + 1))] *)
Definition stage_options (wells : dict Z) (qc_well : string) : result (list Z) :=
  n <- Viewer.index wells qc_well ;;
  Ok (py_range 1 (n + 1)).

(** The values of the quality form when it is saved *)
Record Entry : Type := mkChecked {
  qc_well : string;
  qc_stage : Z;
  e_pre_sand : string;
  e_post_sand : string;
  e_spp : string;
  e_comments : string;
  e_now : Z
}.

(** The document of lines 162-170 *)
Definition entry_doc (e : Entry) : QualityDoc :=
  mkDoc (mkQuality (qc_well e) (qc_stage e) (Some (e_pre_sand e))
           (Some (e_post_sand e)) (Some (e_spp e)) (e_comments e))
        (e_now e).

(** Lines 160-170 *)
Definition save_entry (quality : dict QualityDoc) (e : Entry) : dict QualityDoc :=
  dict_set quality (doc_id (qc_well e) (qc_stage e)) (entry_doc e).

Definition save_entries (quality : dict QualityDoc) (es : list Entry) : dict QualityDoc :=
  fold_left save_entry es quality.

(** The last of the entries [es] saved for stage [s] of well [w] *)
Definition last_saved (w : string) (s : Z) (es : list Entry) : option Entry :=
  find (fun e => String.eqb (qc_well e) w && Z.eqb (qc_stage e) s) (rev es).

(** Every value the rate table can show, given the two option lists *)
Definition rate_options : list string :=
  ["Good"; "Medium"; "Bad"; "No Usable Drop"; "Drop not performed"; "No post sand"].

(** [[doc.to_dict() for doc in quality_docs]], the fields the summary reads *)
Definition stored_entries (quality : dict QualityDoc) : list QualityRecord :=
  map (fun kv => qd_entry (snd kv)) quality.

(** Three saved forms: stage 2 of well B checked twice, stage 1 of well A. *)
Definition entry_bad : Entry := mkChecked "B" 2 "Bad" "Bad" "Anomaly" "first pass" 100.
Definition entry_good : Entry := mkChecked "B" 2 "Good" "Good" "Good" "checked again" 200.
Definition entry_other : Entry := mkChecked "A" 1 "Medium" "No post sand" "N/A" "" 150.

End Checklist.

(** ** The timeline header of the viewer (lines 51-56) *)

Module Header.

(** [Series.min()] of a datetime column: [NaT] on an empty series. *)
Definition series_min (l : list Z) : option Z :=
  match l with
  | [] => None
  | x :: l' => Some (fold_left Z.min l' x)
  end.

(** The start, the end and the length in hours that the header shows.
    [NaT.strftime] raises [ValueError]. *)
Definition job_window (starts ends : list Z) : result (Z * Z * Q) :=
  let job_start := series_min starts in
  let job_end_estimate := series_max ends in
  match job_start, job_end_estimate with
  | Some s, Some e => Ok (s, e, Time.hours_of (e - s))
  | _, _ => Raise ValueError
  end.

End Header.

(** ** Facts about the runtime operations *)

Section SortedBy.
Context {A : Type} (leb : A -> A -> bool).

Lemma insert_by_perm (x : A) (l : list A) :
  Permutation (insert_by leb x l) (x :: l).
Proof.
  induction l as [|y l IH]; simpl.
  - reflexivity.
  - destruct (leb x y).
    + reflexivity.
    + rewrite IH. apply perm_swap.
Qed.

Lemma sorted_by_perm (l : list A) : Permutation (sorted_by leb l) l.
Proof.
  induction l as [|x l IH]; simpl.
  - constructor.
  - rewrite insert_by_perm. now constructor.
Qed.

Lemma sorted_by_In (l : list A) (x : A) : In x (sorted_by leb l) <-> In x l.
Proof.
  split; apply Permutation_in; [|symmetry]; apply sorted_by_perm.
Qed.

Hypothesis leb_total : forall a b, leb a b = true \/ leb b a = true.

Let le (a b : A) : Prop := leb a b = true.

Lemma insert_by_sorted (x : A) (l : list A) :
  Sorted le l -> Sorted le (insert_by leb x l).
Proof.
  induction 1 as [|y l Hs IH Hhd]; simpl.
  - repeat constructor.
  - destruct (leb x y) eqn:E.
    + constructor; [now constructor | now constructor].
    + constructor; [exact IH|].
      assert (Hyx : le y x) by (destruct (leb_total x y); [congruence | assumption]).
      destruct l as [|z l]; simpl.
      * now constructor.
      * destruct (leb x z); constructor; [assumption | now inversion Hhd].
Qed.

Lemma sorted_by_sorted (l : list A) : Sorted le (sorted_by leb l).
Proof.
  induction l as [|x l IH]; simpl.
  - constructor.
  - now apply insert_by_sorted.
Qed.
End SortedBy.

Section Unique.
Context {A : Type} (eqb : A -> A -> bool).
Hypothesis eqb_spec : forall a b, eqb a b = true <-> a = b.

Lemma mem_In (x : A) (l : list A) : mem eqb x l = true <-> In x l.
Proof.
  unfold mem. rewrite existsb_exists. split.
  - intros (y & Hy & E). apply eqb_spec in E. now subst.
  - intros H. exists x. split; [assumption | now apply eqb_spec].
Qed.

Lemma unique_from_In (seen l : list A) (x : A) :
  In x (unique_from eqb seen l) <-> In x l /\ ~ In x seen.
Proof.
  revert seen. induction l as [|y l IH]; intros seen; simpl.
  - tauto.
  - destruct (mem eqb y seen) eqn:E.
    + apply mem_In in E. rewrite IH. split.
      * tauto.
      * intros [[->|H] Hn]; tauto.
    + assert (Hy : ~ In y seen) by (rewrite <- mem_In; congruence).
      simpl. rewrite IH. simpl. split.
      * intros [->|[H Hn]]; [tauto|]. split; [tauto|]. intros Hs. apply Hn. now right.
      * intros [[->|H] Hn]; [now left|].
        destruct (mem eqb x [y]) eqn:Exy.
        -- apply mem_In in Exy. destruct Exy as [->|[]]. now left.
        -- right. split; [assumption|]. intros [->|Hs]; [|tauto].
           assert (mem eqb x [x] = true) by (apply mem_In; now left). congruence.
Qed.

Lemma unique_from_NoDup (seen l : list A) : NoDup (unique_from eqb seen l).
Proof.
  revert seen. induction l as [|y l IH]; intros seen; simpl.
  - constructor.
  - destruct (mem eqb y seen).
    + apply IH.
    + constructor; [|apply IH].
      rewrite unique_from_In. intros [_ Hn]. apply Hn. now left.
Qed.

Lemma unique_In (l : list A) (x : A) : In x (unique eqb l) <-> In x l.
Proof. unfold unique. rewrite unique_from_In. simpl. tauto. Qed.

Lemma unique_NoDup (l : list A) : NoDup (unique eqb l).
Proof. apply unique_from_NoDup. Qed.
End Unique.

Lemma str_leb_total (a b : string) : str_leb a b = true \/ str_leb b a = true.
Proof.
  unfold str_leb.
  destruct (String_as_OT.compare_spec a b) as [E|L|L]; auto.
  right. destruct (String_as_OT.compare_spec b a) as [E'|L'|L']; auto.
  exfalso. apply (StrictOrder_Irreflexive a).
  now transitivity b.
Qed.

Lemma fold_max_spec (l : list Z) (x : Z) :
  let m := fold_left Z.max l x in
  In m (x :: l) /\ forall y, In y (x :: l) -> y <= m.
Proof.
  revert x. induction l as [|z l IH]; intros x; simpl.
  - split; [now left|]. intros y [<-|[]]. lia.
  - specialize (IH (Z.max x z)). simpl in IH. destruct IH as [Hin Hle]. split.
    + destruct Hin as [E|Hin]; [|now right; right].
      rewrite <- E. destruct (Z.max_spec x z) as [[_ ->]|[_ ->]]; auto.
    + intros y [E|[E|Hy]].
      * specialize (Hle (Z.max x z) (or_introl eq_refl)). lia.
      * specialize (Hle (Z.max x z) (or_introl eq_refl)). lia.
      * apply Hle. now right.
Qed.

Lemma series_max_spec (l : list Z) :
  l <> [] -> exists m, series_max l = Some m /\ In m l /\ forall y, In y l -> y <= m.
Proof.
  destruct l as [|x l]; [congruence|]. intros _.
  exists (fold_left Z.max l x). split; [reflexivity|]. apply fold_max_spec.
Qed.

(** *** Grouping *)

Lemma groupby_keys (records : list StageRecord) :
  map fst (groupby records)
  = sorted_by str_leb (unique String.eqb (map well_name records)).
Proof.
  unfold groupby. rewrite map_map. simpl. apply map_id.
Qed.

Lemma groupby_keys_NoDup (records : list StageRecord) :
  NoDup (map fst (groupby records)).
Proof.
  rewrite groupby_keys.
  eapply Permutation_NoDup; [symmetry; apply sorted_by_perm|].
  apply unique_NoDup, String.eqb_eq.
Qed.

Lemma groupby_In (records : list StageRecord) (w : string) (g : list StageRecord) :
  In (w, g) (groupby records)
  <-> In w (map well_name records) /\ g = Spec.records_of w records.
Proof.
  unfold groupby. rewrite in_map_iff. split.
  - intros (k & E & Hk). inversion E; subst.
    rewrite sorted_by_In, unique_In in Hk by apply String.eqb_eq. now split.
  - intros [Hw ->]. exists w. split; [reflexivity|].
    rewrite sorted_by_In, unique_In by apply String.eqb_eq. assumption.
Qed.

Lemma records_of_nonempty (records : list StageRecord) (w : string) :
  In w (map well_name records) -> Spec.records_of w records <> [].
Proof.
  intros H. apply in_map_iff in H. destruct H as (r & <- & Hr).
  assert (In r (Spec.records_of (well_name r) records)) as Hin.
  { apply filter_In. split; [assumption | apply String.eqb_refl]. }
  intros E. rewrite E in Hin. destruct Hin.
Qed.

(** *** The completion estimate of the editor *)

Lemma est_end_nonempty (wells : dict Z) (w : string) (g : list StageRecord) :
  g <> [] ->
  exists last e,
    KPI.est_end wells w g = Ok (Some e)
    /\ Spec.is_last_end_time last g
    /\ (e == Spec.estimated_completion (KPI.total_stages wells w) last g)%Q.
Proof.
  intros Hg.
  destruct (series_max_spec (map end_time g)) as (last & Hmax & Hin & Hle).
  { destruct g; [congruence | discriminate]. }
  exists last. eexists. split; [|split].
  - unfold KPI.est_end. rewrite Hmax.
    destruct g as [|r g]; [congruence|]. reflexivity.
  - split; [assumption|]. intros r Hr. apply Hle. now apply in_map.
  - unfold Spec.estimated_completion, Spec.average_duration_hours,
      Spec.stages_completed, Time.timedelta_hours.
    rewrite length_map.
    change (map duration_hrs g) with (map Spec.duration_hours g).
    change (inject_Z Time.seconds_per_hour) with (3600 # 1)%Q.
    change (inject_Z Time.ns_per_second) with (1000000000 # 1)%Q.
    change (inject_Z Spec.ns_per_hour) with (3600000000000 # 1)%Q.
    ring.
Qed.

Lemma well_estimates_ok (wells : dict Z) (grouped : list (string * list StageRecord)) :
  (forall w g, In (w, g) grouped -> g <> []) ->
  exists es,
    KPI.well_estimates wells grouped = Ok es
    /\ Forall2 (fun wg we => fst we = fst wg
                             /\ exists e, snd we = Some e
                                          /\ KPI.est_end wells (fst wg) (snd wg) = Ok (Some e))
               grouped es.
Proof.
  induction grouped as [|[w g] rest IH]; intros Hne; simpl.
  - exists []. split; [reflexivity | constructor].
  - destruct (est_end_nonempty wells w g) as (last & e & He & _).
    { apply (Hne w). now left. }
    destruct IH as (es & Hes & Hall).
    { intros w' g' H. apply (Hne w'). now right. }
    exists ((w, Some e) :: es). rewrite He, Hes. simpl. split; [reflexivity|].
    constructor; [|assumption]. simpl. split; [reflexivity|]. now exists e.
Qed.

Lemma Forall2_map_fst {A B C : Type} (R : A * B -> A * C -> Prop)
  (l : list (A * B)) (l' : list (A * C)) :
  Forall2 R l l' -> (forall x y, R x y -> fst y = fst x) -> map fst l' = map fst l.
Proof.
  induction 1 as [|x y l l' Hxy _ IH]; intros HR; simpl.
  - reflexivity.
  - rewrite (HR _ _ Hxy), IH by assumption. reflexivity.
Qed.

Lemma NoDup_keys_functional {A B : Type} (l : list (A * B)) (k : A) (v v' : B) :
  NoDup (map fst l) -> In (k, v) l -> In (k, v') l -> v = v'.
Proof.
  induction l as [|[k0 v0] l IH]; simpl; intros Hnd Hv Hv'.
  - destruct Hv.
  - inversion Hnd as [|? ? Hnotin Hnd']; subst.
    destruct Hv as [E|Hv], Hv' as [E'|Hv'].
    + congruence.
    + inversion E; subst. exfalso. apply Hnotin.
      change k with (fst (k, v')). now apply in_map.
    + inversion E'; subst. exfalso. apply Hnotin.
      change k with (fst (k, v)). now apply in_map.
    + now apply IH.
Qed.

Lemma groupby_estimates (wells : dict Z) (records : list StageRecord) :
  exists es,
    KPI.well_estimates wells (groupby records) = Ok es
    /\ map fst es = map fst (groupby records)
    /\ (forall w, In w (map well_name records) ->
        exists e, In (w, Some e) es
                  /\ KPI.est_end wells w (Spec.records_of w records) = Ok (Some e))
    /\ (forall w x, In (w, x) es ->
        In w (map well_name records)
        /\ KPI.est_end wells w (Spec.records_of w records) = Ok x
        /\ exists e, x = Some e).
Proof.
  destruct (well_estimates_ok wells (groupby records)) as (es & Hes & Hall).
  { intros w g H. apply groupby_In in H. destruct H as [Hw ->].
    now apply records_of_nonempty. }
  exists es. split; [assumption|]. split; [|split].
  - eapply Forall2_map_fst; [exact Hall|]. intros x y [E _]. exact E.
  - intros w Hw.
    assert (In (w, Spec.records_of w records) (groupby records)) as Hin
        by (apply groupby_In; now split).
    clear Hes. induction Hall as [|[w0 g0] [w1 x1] l l' (E & e & Ex & He) _ IH].
    + destruct Hin.
    + simpl in *. subst. destruct Hin as [Eq|Hin].
      * inversion Eq; subst. exists e. split; [now left | assumption].
      * destruct (IH Hin) as (e' & Hin' & He'). exists e'. split; [now right | assumption].
  - intros w x Hin.
    assert (exists g, In (w, g) (groupby records)
                      /\ KPI.est_end wells w g = Ok x /\ exists e, x = Some e)
      as (g & Hg & He & Hx).
    { clear Hes. induction Hall as [|[w0 g0] [w1 x1] l l' (E & e & Ex & He) _ IH].
      - destruct Hin.
      - simpl in *. subst. destruct Hin as [Eq|Hin].
        + inversion Eq; subst. exists g0. split; [now left|]. split; [assumption | now exists e].
        + destruct (IH Hin) as (g & Hg & He' & Hx). exists g. split; [now right | now split]. }
    apply groupby_In in Hg. destruct Hg as [Hw ->]. now repeat split.
Qed.

(** C1.  For every well with at least one stage record, the editor's loop
    yields exactly one estimate for the well, and it is
    [last_end_time + remaining_stages * average_duration_hours], where
    [remaining_stages] is the target the editor uses for the well (its declared
    stage count when it has one) minus the number of its records,
    [average_duration_hours] the mean of the records' durations in hours and
    [last_end_time] the greatest of their end times.  For the well with target
    3 and the stages 00:00-01:00 and 03:00-04:00 of 2024-01-01 the estimate is
    2024-01-01T05:00. *)
Theorem well_completion_estimate :
  (forall (wells : dict Z) (records : list StageRecord) (w : string),
      In w (map well_name records) ->
      exists es last e,
        KPI.well_estimates wells (groupby records) = Ok es
        /\ In (w, Some e) es
        /\ (forall x, In (w, x) es -> x = Some e)
        /\ (forall target, get wells w = Some target -> KPI.total_stages wells w = target)
        /\ Spec.is_last_end_time last (Spec.records_of w records)
        /\ (e == Spec.estimated_completion
                   (KPI.total_stages wells w) last (Spec.records_of w records))%Q)
  /\ (exists e,
         KPI.well_estimates scenario_wells (groupby scenario_records) = Ok [("A", Some e)]
         /\ get scenario_wells "A" = Some 3
         /\ (e == inject_Z (Time.at_ 2024 1 1 5 0))%Q).
Proof.
  split.
  - intros wells records w Hw.
    destruct (groupby_estimates wells records) as (es & Hes & Hkeys & Hall & Hinv).
    destruct (Hall w Hw) as (e & Hin & He).
    destruct (est_end_nonempty wells w (Spec.records_of w records))
      as (last & e' & He' & Hlast & Heq).
    { now apply records_of_nonempty. }
    assert (e' = e) by congruence. subst e'.
    exists es, last, e. repeat split; try assumption.
    + intros x Hx. eapply NoDup_keys_functional; [|exact Hx|exact Hin].
      rewrite Hkeys. apply groupby_keys_NoDup.
    + intros target Ht. unfold KPI.total_stages, get_default. now rewrite Ht.
    + apply Hlast.
    + apply Hlast.
  - eexists. split; [vm_compute; reflexivity|]. split; reflexivity.
Qed.

Lemma well_completion_estimate_witness :
  In "A" (map well_name scenario_records)
  /\ exists es last e,
      KPI.well_estimates scenario_wells (groupby scenario_records) = Ok es
      /\ In ("A", Some e) es
      /\ (forall x, In ("A", x) es -> x = Some e)
      /\ (forall target, get scenario_wells "A" = Some target ->
                         KPI.total_stages scenario_wells "A" = target)
      /\ Spec.is_last_end_time last (Spec.records_of "A" scenario_records)
      /\ (e == Spec.estimated_completion
                 (KPI.total_stages scenario_wells "A") last
                 (Spec.records_of "A" scenario_records))%Q.
Proof.
  split.
  - simpl. auto.
  - apply (proj1 well_completion_estimate scenario_wells scenario_records "A").
    simpl. auto.
Defined.

(** *** The pad estimate *)

Lemma fold_py_max (qs : list Q) (x : Q) :
  exists m,
    fold_left (fun cur y => if ts_gt y cur then y else cur) (map Some qs) (Some x) = Some m
    /\ In m (x :: qs)
    /\ forall q, In q (x :: qs) -> (q <= m)%Q.
Proof.
  revert x. induction qs as [|y qs IH]; intros x; simpl.
  - exists x. split; [reflexivity|]. split; [now left|].
    intros q [<-|[]]. apply Qle_refl.
  - destruct (Qle_bool y x) eqn:E; simpl.
    + destruct (IH x) as (m & Hm & Hin & Hle). exists m. split; [assumption|]. split.
      * destruct Hin as [<-|Hin]; [now left | now right; right].
      * intros q [<-|[<-|Hq]].
        -- apply Hle. now left.
        -- apply Qle_trans with x; [now apply Qle_bool_iff | apply Hle; now left].
        -- apply Hle. now right.
    + destruct (IH y) as (m & Hm & Hin & Hle). exists m. split; [assumption|]. split.
      * now right.
      * intros q [<-|Hq]; [|now apply Hle].
        apply Qle_trans with y; [|apply Hle; now left].
        apply Qlt_le_weak, Qnot_le_lt. rewrite <- Qle_bool_iff. congruence.
Qed.

Lemma py_max_somes (qs : list Q) :
  qs <> [] ->
  exists m, py_max (map Some qs) = Ok (Some m)
            /\ In m qs /\ forall q, In q qs -> (q <= m)%Q.
Proof.
  destruct qs as [|x qs]; [congruence|]. intros _.
  destruct (fold_py_max qs x) as (m & Hm & H). exists m. simpl. now rewrite Hm.
Qed.

Lemma all_some_map {A : Type} (l : list (option A)) :
  (forall x, In x l -> exists a, x = Some a) -> l = map Some (somes l).
Proof.
  induction l as [|x l IH]; intros H; simpl.
  - reflexivity.
  - destruct (H x (or_introl eq_refl)) as (a & ->). simpl.
    f_equal. apply IH. intros y Hy. apply H. now right.
Qed.

Lemma somes_In {A : Type} (l : list (option A)) (a : A) :
  In a (somes l) <-> In (Some a) l.
Proof.
  induction l as [|[b|] l IH]; simpl.
  - tauto.
  - rewrite IH. split; intros [E|H]; auto; left; congruence.
  - rewrite IH. split; [auto | intros [E|H]; [discriminate | assumption]].
Qed.

(** The maximum of line 114: the estimate of some well, exceeded by none, when
    there is a record; [max] of the empty list raises when there is none. *)
Lemma pad_end_cases (wells : dict Z) (records : list StageRecord) :
  (records = [] ->
   KPI.well_estimates wells (groupby records) = Ok []
   /\ KPI.pad_end wells records = Raise ValueError)
  /\ (records <> [] ->
      exists es m w,
        KPI.well_estimates wells (groupby records) = Ok es
        /\ KPI.pad_end wells records = Ok (Some m)
        /\ In (w, Some m) es
        /\ (forall w' e, In (w', Some e) es -> (e <= m)%Q)
        /\ (forall w', In w' (map well_name records) <-> exists e, In (w', Some e) es)).
Proof.
  split.
  - intros ->. split; reflexivity.
  - intros Hne.
    destruct (groupby_estimates wells records) as (es & Hes & Hkeys & Hall & Hinv).
    assert (map snd es = map Some (somes (map snd es))) as Hsome.
    { apply all_some_map. intros x Hx. apply in_map_iff in Hx.
      destruct Hx as ([w y] & <- & Hin). now destruct (Hinv w y Hin) as (_ & _ & H). }
    destruct (py_max_somes (somes (map snd es))) as (m & Hm & Hin & Hle).
    { destruct records as [|r records]; [congruence|].
      destruct (Hall (well_name r)) as (e & He & _); [now left|].
      intros E. assert (In e (somes (map snd es))) as H.
      { apply somes_In. change (Some e) with (snd (well_name r, Some e)). now apply in_map. }
      rewrite E in H. destruct H. }
    apply somes_In, in_map_iff in Hin. destruct Hin as ([w x] & Hx & Hin).
    simpl in Hx. subst x.
    exists es, m, w. split; [assumption|]. split; [|split; [assumption|split]].
    + unfold KPI.pad_end, KPI.pad_estimates. rewrite Hes. simpl.
      rewrite Hsome. exact Hm.
    + intros w' e Hin'. apply Hle, somes_In.
      change (Some e) with (snd (w', Some e)). now apply in_map.
    + intros w'. split.
      * intros Hw. destruct (Hall w' Hw) as (e & He & _). now exists e.
      * intros (e & He). now destruct (Hinv w' (Some e) He).
Qed.

Lemma stage_records_rows (df : DataFrame) (records : list StageRecord) :
  stage_records df = Ok records -> rows df = [] -> records = [].
Proof.
  unfold stage_records. intros Hrun Hrows.
  destruct (column_position "Well Name" (columns df)); [|discriminate].
  destruct (column_position "Stage" (columns df)); [|discriminate].
  destruct (column_position "Start time" (columns df)); [|discriminate].
  destruct (column_position "End time" (columns df)); [|discriminate].
  cbn [bind] in Hrun. rewrite Hrows in Hrun. now inversion Hrun.
Qed.

(** C5.  On a sheet that normalization accepts, the editor's pad estimate is
    never an undefined value.  When normalization leaves no row, line 79
    raises [ValueError] before any estimate.  When line 79 succeeds, the pad
    estimate is [max] of the wells' estimates: with at least one valid record
    it is the estimate of some well and no well's estimate exceeds it, the
    wells with an estimate being those with at least one record; with none
    (rows without a well name) [max] is applied to the empty list and
    raises. *)
Theorem pad_estimate_is_max
  (parse : list value -> value -> option Z)
  (int_ : value -> result Z) (str_ : value -> string)
  (int_cells : list value -> result Z) (str_cells : list value -> string)
  (wells : dict Z) (sheet kpi_df : DataFrame) (records : list StageRecord) :
  KPI.normalize parse sheet = Ok kpi_df ->
  stage_records kpi_df = Ok records ->
  let run := Editor.pad_completion parse int_ str_ int_cells str_cells wells sheet in
  run <> Ok None
  /\ (rows kpi_df = [] -> records = [] /\ run = Raise ValueError)
  /\ (forall ids,
         Upload.assign_ids int_ str_ int_cells str_cells kpi_df = Ok ids ->
         run = KPI.pad_end wells records
         /\ (records = [] -> run = Raise ValueError)
         /\ (records <> [] ->
             exists es m w,
               KPI.well_estimates wells (groupby records) = Ok es
               /\ run = Ok (Some m)
               /\ In (w, Some m) es
               /\ (forall w' e, In (w', Some e) es -> (e <= m)%Q)
               /\ (forall w', In w' (map well_name records)
                              <-> exists e, In (w', Some e) es))).
Proof.
  intros Hnorm Hrec run.
  assert (run = bind (Upload.assign_ids int_ str_ int_cells str_cells kpi_df)
                  (fun _ => KPI.pad_end wells records)) as Hrun.
  { unfold run, Editor.pad_completion. rewrite Hnorm. cbn [bind].
    destruct (Upload.assign_ids int_ str_ int_cells str_cells kpi_df);
      cbn [bind]; [now rewrite Hrec | reflexivity]. }
  destruct (pad_end_cases wells records) as [Hnone Hsome].
  split; [|split].
  - rewrite Hrun.
    destruct (Upload.assign_ids int_ str_ int_cells str_cells kpi_df);
      cbn [bind]; [|discriminate].
    destruct records as [|r records'].
    + destruct Hnone as [_ ->]; [reflexivity | discriminate].
    + destruct Hsome as (es & m & w & _ & -> & _); discriminate.
  - intros Hrows. split; [now apply (stage_records_rows kpi_df)|].
    rewrite Hrun. unfold Upload.assign_ids. now rewrite Hrows.
  - intros ids Hids. rewrite Hrun, Hids. cbn [bind].
    split; [reflexivity|]. split.
    + intros E. now apply Hnone.
    + exact Hsome.
Qed.

Lemma pad_estimate_is_max_witness :
  (KPI.normalize no_text Editor.pad_sheet = Ok Editor.pad_sheet
   /\ stage_records Editor.pad_sheet = Ok Editor.pad_records
   /\ Upload.assign_ids Upload.int_unused Upload.text_unused
        Upload.int_unused Upload.text_unused Editor.pad_sheet
      = Ok ["A_stage_1"; "B_stage_1"; "A_stage_2"]
   /\ (exists a b,
          KPI.well_estimates Editor.pad_wells (groupby Editor.pad_records)
          = Ok [("A", Some a); ("B", Some b)]
          /\ (a == inject_Z (Time.at_ 2024 1 1 5 0))%Q
          /\ (b == inject_Z (Time.at_ 2024 1 1 9 0))%Q
          /\ Editor.pad_completion no_text Upload.int_unused Upload.text_unused
               Upload.int_unused Upload.text_unused
               Editor.pad_wells Editor.pad_sheet = Ok (Some b))
   /\ exists es m w,
       KPI.well_estimates Editor.pad_wells (groupby Editor.pad_records) = Ok es
       /\ Editor.pad_completion no_text Upload.int_unused Upload.text_unused
            Upload.int_unused Upload.text_unused
            Editor.pad_wells Editor.pad_sheet = Ok (Some m)
       /\ In (w, Some m) es
       /\ (forall w' e, In (w', Some e) es -> (e <= m)%Q)
       /\ (forall w', In w' (map well_name Editor.pad_records)
                      <-> exists e, In (w', Some e) es))
  /\ (KPI.normalize no_text Editor.pending_sheet = Ok Editor.empty_sheet
      /\ stage_records Editor.empty_sheet = Ok []
      /\ rows Editor.empty_sheet = []
      /\ Editor.pad_completion no_text Upload.int_unused Upload.text_unused
           Upload.int_unused Upload.text_unused
           Editor.pad_wells Editor.pending_sheet = Raise ValueError).
Proof.
  split.
  - assert (KPI.normalize no_text Editor.pad_sheet = Ok Editor.pad_sheet) as Hnorm
        by reflexivity.
    assert (stage_records Editor.pad_sheet = Ok Editor.pad_records) as Hrec
        by reflexivity.
    assert (Upload.assign_ids Upload.int_unused Upload.text_unused
              Upload.int_unused Upload.text_unused
              Editor.pad_sheet = Ok ["A_stage_1"; "B_stage_1"; "A_stage_2"]) as Hids
        by reflexivity.
    split; [exact Hnorm|]. split; [exact Hrec|]. split; [exact Hids|].
    split.
    { eexists. eexists. split; [cbv; reflexivity|].
      split; [vm_compute; reflexivity|]. split; [vm_compute; reflexivity|].
      vm_compute. reflexivity. }
    destruct (pad_estimate_is_max no_text Upload.int_unused Upload.text_unused
                Upload.int_unused Upload.text_unused
                Editor.pad_wells Editor.pad_sheet Editor.pad_sheet Editor.pad_records
                Hnorm Hrec) as (_ & _ & Hmax).
    destruct (Hmax _ Hids) as (_ & _ & Hsome). apply Hsome. discriminate.
  - assert (KPI.normalize no_text Editor.pending_sheet = Ok Editor.empty_sheet) as Hnorm
        by reflexivity.
    assert (stage_records Editor.empty_sheet = Ok []) as Hrec by reflexivity.
    split; [exact Hnorm|]. split; [exact Hrec|]. split; [reflexivity|].
    destruct (pad_estimate_is_max no_text Upload.int_unused Upload.text_unused
                Upload.int_unused Upload.text_unused
                Editor.pad_wells Editor.pending_sheet Editor.empty_sheet []
                Hnorm Hrec) as (_ & Hempty & _).
    now apply Hempty.
Defined.

(** *** Frames *)

Lemma positions_nth (label : string) (cols : list string) (k i : nat) :
  In i (positions label cols k) ->
  (k <= i)%nat /\ nth_error cols (i - k) = Some label.
Proof.
  revert k. induction cols as [|c cols IH]; intros k; simpl.
  - intros [].
  - destruct (String.eqb_spec c label) as [->|Hne]; simpl.
    + intros [<-|H].
      * rewrite Nat.sub_diag. split; [lia | reflexivity].
      * destruct (IH _ H) as [Hle Hnth]. split; [lia|].
        replace (i - k)%nat with (S (i - S k)) by lia. exact Hnth.
    + intros H. destruct (IH _ H) as [Hle Hnth]. split; [lia|].
      replace (i - k)%nat with (S (i - S k)) by lia. exact Hnth.
Qed.

Lemma column_position_nth (label : string) (cols : list string) (i : nat) :
  column_position label cols = Ok i -> nth_error cols i = Some label.
Proof.
  unfold column_position.
  destruct (positions label cols 0) as [|i0 [|i1 l]] eqn:E; try discriminate.
  intros H. inversion H; subst.
  destruct (positions_nth label cols 0 i) as [_ Hn].
  - rewrite E. now left.
  - now rewrite Nat.sub_0_r in Hn.
Qed.

Lemma nth_replace_nth_same (i : nat) (v : value) (l : list value) :
  nth i (replace_nth i v l) VNull = if (i <? List.length l)%nat then v else VNull.
Proof.
  revert l. induction i as [|i IH]; intros [|x l]; simpl; try reflexivity.
  rewrite IH. reflexivity.
Qed.

Lemma nth_replace_nth_other (i j : nat) (v : value) (l : list value) :
  i <> j -> nth j (replace_nth i v l) VNull = nth j l VNull.
Proof.
  revert j l. induction i as [|i IH]; intros [|j] [|x l] Hne; simpl;
    try reflexivity; try congruence.
  apply IH. congruence.
Qed.

Lemma length_replace_nth (i : nat) (v : value) (l : list value) :
  List.length (replace_nth i v l) = List.length l.
Proof.
  revert l. induction i as [|i IH]; intros [|x l]; simpl; try reflexivity.
  now rewrite IH.
Qed.

Lemma set_column_map (df : DataFrame) (i : nat) (f : nat * list value -> value) :
  rows (set_column df i (map f (rows df)))
  = map (fun r => (fst r, replace_nth i (f r) (snd r))) (rows df).
Proof.
  unfold set_column. simpl.
  induction (rows df) as [|r l IH]; simpl; [reflexivity|]. now rewrite IH.
Qed.

Lemma filter_map_comm {A B : Type} (p : B -> bool) (f : A -> B) (l : list A) :
  filter p (map f l) = map f (filter (fun a => p (f a)) l).
Proof.
  induction l as [|a l IH]; simpl; [reflexivity|].
  rewrite IH. now destruct (p (f a)).
Qed.

Section CoerceTimes.
Variable parse : list value -> value -> option Z.

Lemma cell_short (i : nat) (r : nat * list value) :
  cell i r = VNull \/ (i < List.length (snd r))%nat.
Proof.
  unfold cell. destruct (Nat.ltb_spec i (List.length (snd r))); [now right|].
  left. now apply nth_overflow.
Qed.

(** The three statements on a frame with both columns present once. *)
Lemma coerce_times_rows (df : DataFrame) (i j : nat) :
  column_position "Start time" (columns df) = Ok i ->
  column_position "End time" (columns df) = Ok j ->
  coerce_times parse df = Ok (mkFrame (columns df) (surviving_rows parse df i j)).
Proof.
  intros Hi Hj.
  assert (i <> j) as Hij.
  { apply column_position_nth in Hi, Hj. intros ->. rewrite Hi in Hj. discriminate. }
  unfold coerce_times. rewrite Hi. cbn [bind].
  set (df1 := set_column df i (to_datetime parse (get_column df i))).
  change (columns df1) with (columns df). rewrite Hj. cbn [bind].
  set (df2 := set_column df1 j (to_datetime parse (get_column df1 j))).
  unfold dropna. change (columns df2) with (columns df). do 2 f_equal.
  assert (rows df1
          = map (fun r => (fst r, replace_nth i (coerce parse (get_column df i) (cell i r))
                                    (snd r))) (rows df)) as Hrows1.
  { unfold df1, to_datetime. unfold get_column at 2. rewrite map_map. apply set_column_map. }
  assert (get_column df1 j = get_column df j) as Hcol.
  { unfold get_column. rewrite Hrows1, map_map.
    apply map_ext. intros r. unfold cell. simpl. now apply nth_replace_nth_other. }
  assert (rows df2 = map (with_times parse df i j) (rows df)) as Hrows2.
  { unfold df2, to_datetime. rewrite Hcol at 1. unfold get_column at 2.
    rewrite map_map, set_column_map, Hrows1, map_map. apply map_ext. intros r.
    unfold with_times. simpl. do 3 f_equal.
    unfold cell. simpl. now apply nth_replace_nth_other. }
  rewrite Hrows2. unfold surviving_rows. rewrite filter_map_comm. f_equal.
  apply filter_ext. intros r. unfold parses, with_times, cell. simpl.
  rewrite nth_replace_nth_other by congruence.
  rewrite nth_replace_nth_same, nth_replace_nth_same, length_replace_nth.
  f_equal.
  - destruct (cell_short i r) as [E|L].
    + unfold cell in E. rewrite E. simpl. now destruct (_ <? _)%nat.
    + apply Nat.ltb_lt in L. now rewrite L.
  - destruct (cell_short j r) as [E|L].
    + unfold cell in E. rewrite E. simpl. now destruct (_ <? _)%nat.
    + apply Nat.ltb_lt in L. now rewrite L.
Qed.

End CoerceTimes.

(** C2.  On a sheet whose stripped labels hold [Start time] and [End time]
    once each, normalization raises nothing, whatever the rows hold.  Its rows
    are the rows of the sheet whose two time cells parse, in the order of the
    sheet: no more rows than the sheet has, none with the index of a row whose
    start or end is blank or fails to parse, each one a row of the sheet with
    its times parsed.  The viewer runs the same statements without stripping labels. *)
Theorem normalize_excludes_unparsed
  (parse : list value -> value -> option Z) (sheet : DataFrame) (i j : nat) :
  column_position "Start time" (map strip (columns sheet)) = Ok i ->
  column_position "End time" (map strip (columns sheet)) = Ok j ->
  NoDup (map fst (rows sheet)) ->
  let df := strip_columns sheet in
  let keep r := parses parse df i r && parses parse df j r in
  exists out,
    KPI.normalize parse sheet = Ok out
    /\ Viewer.normalize parse df = Ok out
    /\ rows out = map (with_times parse df i j) (filter keep (rows sheet))
    /\ map fst (rows out) = map fst (filter keep (rows sheet))
    /\ (List.length (rows out) <= List.length (rows sheet))%nat
    /\ (forall r, cell i r = VNull \/ cell j r = VNull -> keep r = false)
    /\ (forall r, In r (rows sheet) ->
                  parses parse df i r = false \/ parses parse df j r = false ->
                  ~ In (fst r) (map fst (rows out)))
    /\ (forall r', In r' (rows out) ->
                   exists r, In r (rows sheet) /\ r' = with_times parse df i j r
                             /\ parses parse df i r = true
                             /\ parses parse df j r = true).
Proof.
  intros Hi Hj Hnd df keep.
  exists (mkFrame (columns df) (surviving_rows parse df i j)).
  assert (coerce_times parse df
          = Ok (mkFrame (columns df) (surviving_rows parse df i j))) as Hrun
      by now apply coerce_times_rows.
  split; [exact Hrun|]. split; [exact Hrun|]. simpl.
  assert (map fst (surviving_rows parse df i j) = map fst (filter keep (rows sheet)))
    as Hidx.
  { unfold surviving_rows. rewrite map_map. reflexivity. }
  split; [reflexivity|]. split; [exact Hidx|]. split; [|split; [|split]].
  - unfold surviving_rows. rewrite length_map. apply filter_length_le.
  - intros r [E|E]; unfold keep, parses; rewrite E; simpl;
      [reflexivity | apply andb_false_r].
  - intros r Hr Hfail Hin. rewrite Hidx in Hin.
    apply in_map_iff in Hin. destruct Hin as (r0 & E & Hr0).
    apply filter_In in Hr0. destruct Hr0 as [Hr0 Hkeep].
    assert (r0 = r) as ->.
    { destruct r0 as [n0 c0], r as [n c]. simpl in E. subst n0.
      f_equal. eapply NoDup_keys_functional; eauto. }
    unfold keep in Hkeep. apply andb_true_iff in Hkeep.
    destruct Hkeep, Hfail; congruence.
  - intros r' Hr'. unfold surviving_rows in Hr'. apply in_map_iff in Hr'.
    destruct Hr' as (r & <- & Hr). apply filter_In in Hr. destruct Hr as [Hr Hkeep].
    apply andb_true_iff in Hkeep. exists r. tauto.
Qed.

Lemma normalize_excludes_unparsed_witness :
  exists out,
    KPI.normalize no_text upload_sheet = Ok out
    /\ map fst (rows out) = [0%nat; 2%nat]
    /\ ~ In 1%nat (map fst (rows out)).
Proof.
  destruct (normalize_excludes_unparsed no_text upload_sheet 2 3)
    as (out & Hrun & _ & _ & Hidx & _ & _ & Hexcl & _).
  - reflexivity.
  - reflexivity.
  - simpl. repeat constructor; simpl; intuition discriminate.
  - exists out. split; [exact Hrun|]. split; [exact Hidx|].
    apply (Hexcl (1%nat, [VStr "A"; VInt 2; VStr "pending"; VTime (Time.at_ 2024 1 1 4 0)])).
    + simpl. auto.
    + left. reflexivity.
Defined.

(** *** Durations *)

Lemma hours_of_nonneg (d : Z) : (0 <= Time.hours_of d)%Q <-> 0 <= d.
Proof.
  unfold Time.hours_of, Qdiv.
  change (/ inject_Z Time.ns_per_second)%Q with (1 # 1000000000)%Q.
  change (/ inject_Z Time.seconds_per_hour)%Q with (1 # 3600)%Q.
  unfold Qle, Qmult, inject_Z. simpl. lia.
Qed.

Lemma hours_of_neg (d : Z) : (Time.hours_of d < 0)%Q <-> d < 0.
Proof.
  split.
  - intros H. apply Qlt_not_le in H. rewrite hours_of_nonneg in H. lia.
  - intros H. apply Qnot_le_lt. rewrite hours_of_nonneg. lia.
Qed.

Lemma replace_nth_id (i : nat) (l : list value) :
  replace_nth i (nth i l VNull) l = l.
Proof.
  revert l. induction i as [|i IH]; intros [|x l]; simpl; try reflexivity.
  now rewrite IH.
Qed.

Lemma with_times_datetimes
  (parse : list value -> value -> option Z) (df : DataFrame) (i j : nat)
  (r : nat * list value) (a b : Z) :
  cell i r = VTime a -> cell j r = VTime b ->
  with_times parse df i j r = r
  /\ parses parse df i r = true /\ parses parse df j r = true.
Proof.
  intros Ha Hb. unfold with_times, parses. rewrite Ha, Hb. simpl.
  split; [|split; reflexivity].
  destruct r as [n c]. unfold cell in Ha, Hb. simpl in *.
  rewrite <- Ha, replace_nth_id, <- Hb, replace_nth_id. reflexivity.
Qed.

(** C10, as the code has it.  Normalization compares no times: every row of
    the sheet whose two time cells hold datetimes is kept as it is, whichever
    of the two is the later; and a record that reaches the aggregation has a
    duration of [end_time - start_time] in hours, which is non-negative exactly
    when [end_time >= start_time] and negative otherwise. *)
Theorem duration_sign_follows_times
  (parse : list value -> value -> option Z) (sheet out : DataFrame) (i j : nat) :
  column_position "Start time" (map strip (columns sheet)) = Ok i ->
  column_position "End time" (map strip (columns sheet)) = Ok j ->
  KPI.normalize parse sheet = Ok out ->
  (forall r a b,
      In r (rows sheet) -> cell i r = VTime a -> cell j r = VTime b ->
      In r (rows out))
  /\ (forall records r,
         stage_records out = Ok records -> In r records ->
         (duration_hrs r == Spec.duration_hours r)%Q
         /\ ((0 <= duration_hrs r)%Q <-> start_time r <= end_time r)
         /\ ((duration_hrs r < 0)%Q <-> end_time r < start_time r)).
Proof.
  intros Hi Hj Hrun. split.
  - intros r a b Hr Ha Hb.
    unfold KPI.normalize in Hrun.
    rewrite (coerce_times_rows parse (strip_columns sheet) i j Hi Hj) in Hrun.
    inversion Hrun; subst out. simpl. unfold surviving_rows.
    destruct (with_times_datetimes parse (strip_columns sheet) i j r a b Ha Hb)
      as (Hsame & Hpi & Hpj).
    rewrite <- Hsame at 1. apply in_map, filter_In.
    split; [exact Hr | now rewrite Hpi, Hpj].
  - intros records r _ _. split; [reflexivity|]. unfold duration_hrs.
    rewrite hours_of_nonneg, hours_of_neg. lia.
Qed.

Lemma upload_normalized :
  KPI.normalize no_text upload_sheet = Ok normalized_upload
  /\ stage_records normalized_upload = Ok upload_records.
Proof. split; vm_compute; reflexivity. Qed.

Lemma duration_sign_follows_times_witness :
  In (2%nat, [VStr "A"; VInt 3; VTime (Time.at_ 2024 1 1 4 0); VTime (Time.at_ 2024 1 1 1 0)])
     (rows normalized_upload)
  /\ ((duration_hrs late_start < 0)%Q <-> end_time late_start < start_time late_start).
Proof.
  assert (KPI.normalize no_text upload_sheet = Ok normalized_upload) as Hrun
      by (vm_compute; reflexivity).
  assert (stage_records normalized_upload = Ok upload_records) as Hrec
      by (vm_compute; reflexivity).
  assert (In late_start upload_records) as Hin by (right; left; reflexivity).
  destruct (duration_sign_follows_times no_text upload_sheet normalized_upload 2 3
              eq_refl eq_refl Hrun) as [Hkept Hsign].
  split.
  - apply (Hkept _ (Time.at_ 2024 1 1 4 0) (Time.at_ 2024 1 1 1 0)).
    + right. right. left. reflexivity.
    + reflexivity.
    + reflexivity.
  - apply (Hsign upload_records late_start Hrec Hin).
Defined.

(** C10 fails as stated: the third row of [upload_sheet] ends three hours
    before it starts, survives normalization and has a duration of -3 hours. *)
Lemma negative_duration_survives :
  ~ (forall out records r,
        KPI.normalize no_text upload_sheet = Ok out ->
        stage_records out = Ok records ->
        In r records ->
        start_time r <= end_time r /\ (0 <= duration_hrs r)%Q).
Proof.
  intros H.
  destruct (H normalized_upload upload_records late_start) as [Hle _].
  - apply upload_normalized.
  - apply upload_normalized.
  - right. left. reflexivity.
  - vm_compute in Hle. apply Hle. reflexivity.
Qed.

Lemma late_start_duration : (duration_hrs late_start == - (3))%Q.
Proof. vm_compute. reflexivity. Qed.

(** *** Substrings *)

Lemma prefix_spec (s t : string) :
  String.prefix s t = true <-> exists b, t = s ++ b.
Proof.
  revert s. induction t as [|c' t IH]; intros [|c s]; simpl.
  - split; [intros _; now exists "" | reflexivity].
  - split; [discriminate | intros (b & E); discriminate].
  - split; [intros _; now exists (String c' t) | reflexivity].
  - destruct (ascii_dec c c') as [->|Hne].
    + rewrite IH. split; intros (b & E); exists b; congruence.
    + split; [discriminate | intros (b & E); congruence].
Qed.

Lemma contains_unfold (s t : string) :
  contains s t
  = String.prefix s t
    || match t with
       | EmptyString => false
       | String _ t' => contains s t'
       end.
Proof. destruct t; reflexivity. Qed.

Lemma contains_spec (s t : string) :
  contains s t = true <-> Spec.substring s t.
Proof.
  unfold Spec.substring. induction t as [|c t IH]; rewrite contains_unfold.
  - rewrite orb_false_r, prefix_spec. split.
    + intros (b & E). now exists "", b.
    + intros ([|c a] & b & E); [now exists b | discriminate].
  - rewrite orb_true_iff, prefix_spec, IH. split.
    + intros [(b & E)|(a & b & E)].
      * now exists "", b.
      * exists (String c a), b. simpl. congruence.
    + intros ([|c' a] & b & E).
      * left. now exists b.
      * right. exists a, b. simpl in E. congruence.
Qed.

Lemma names_match_spec (saved observed : string) :
  contains saved observed || contains observed saved = true
  <-> Spec.names_match saved observed.
Proof.
  unfold Spec.names_match. now rewrite orb_true_iff, !contains_spec.
Qed.

(** *** Dictionaries *)

Lemma get_None {V : Type} (d : dict V) (k : string) :
  get d k = None <-> ~ In k (keys d).
Proof.
  induction d as [|[k' v] d IH]; simpl.
  - tauto.
  - destruct (String.eqb_spec k' k) as [->|Hne].
    + split; [discriminate | tauto].
    + rewrite IH. tauto.
Qed.

Lemma get_app_notin {V : Type} (l d : dict V) (k : string) :
  ~ In k (keys l) -> get (l ++ d)%list k = get d k.
Proof.
  induction l as [|[k' v] l IH]; simpl; intros Hn.
  - reflexivity.
  - destruct (String.eqb_spec k' k) as [->|Hne]; [tauto|].
    apply IH. tauto.
Qed.

Lemma get_head {V : Type} (d : dict V) (k : string) (v : V) :
  get ((k, v) :: d) k = Some v.
Proof. simpl. now rewrite String.eqb_refl. Qed.

(** *** Target resolution of the viewer *)

Lemma fuzzy_match_scan (wells : dict Z) (well_name : string) (rest l1 : dict Z) :
  wells = (l1 ++ rest)%list ->
  (forall k, In k (keys l1) -> ~ Spec.names_match k well_name) ->
  ((forall k, In k (keys rest) -> ~ Spec.names_match k well_name)
   /\ Viewer.fuzzy_match wells (keys rest) well_name = Ok None)
  \/ exists l2 k v l3,
      rest = (l2 ++ (k, v) :: l3)%list
      /\ Spec.names_match k well_name
      /\ (forall k', In k' (keys l2) -> ~ Spec.names_match k' well_name)
      /\ Viewer.fuzzy_match wells (keys rest) well_name = Ok (Some v).
Proof.
  revert l1. induction rest as [|[k v] rest IH]; intros l1 Hw Hl1; simpl.
  - left. split; [intros k [] | reflexivity].
  - destruct (contains k well_name || contains well_name k) eqn:E.
    + right. exists [], k, v, rest. apply names_match_spec in E.
      split; [reflexivity|]. split; [assumption|]. split; [intros k' []|].
      unfold Viewer.index. subst wells.
      rewrite get_app_notin, get_head; [reflexivity|].
      intros Hin. now apply (Hl1 k).
    + assert (~ Spec.names_match k well_name) as Hk
          by (rewrite <- names_match_spec; congruence).
      destruct (IH (l1 ++ [(k, v)])%list) as [[Hnone Hrun]|(l2 & k2 & v2 & l3 & Hr & Hm & Hfirst & Hrun)].
      * now rewrite <- app_assoc.
      * intros k' Hin. unfold keys in Hin. rewrite map_app in Hin.
        apply in_app_or in Hin. destruct Hin as [Hin|[<-|[]]]; [now apply Hl1 | assumption].
      * left. split; [|assumption]. intros k' [<-|Hin]; [assumption | now apply Hnone].
      * right. exists ((k, v) :: l2), k2, v2, l3. subst rest.
        split; [reflexivity|]. split; [assumption|]. split; [|assumption].
        intros k' [<-|Hin]; [assumption | now apply Hfirst].
Qed.

Lemma total_stages_unmatched (wells : dict Z) (well_name : string) :
  get wells well_name = None ->
  Viewer.total_stages wells well_name
  = bind (Viewer.fuzzy_match wells (keys wells) well_name)
         (fun t => Ok (match t with None => 0 | Some n => n end)).
Proof. unfold Viewer.total_stages. now intros ->. Qed.

(** C3, as the code has it.  For a well name with no exact match among the
    declared wells, the editor's estimate takes 60 as the target, whatever the
    other names are; the viewer's summary takes 0 when no declared name is a
    substring of the observed name or has it as a substring.  Neither raises. *)
Theorem unknown_target_defaults (wells : dict Z) (well_name : string) :
  get wells well_name = None ->
  KPI.total_stages wells well_name = 60
  /\ ((forall k, In k (keys wells) -> ~ Spec.names_match k well_name) ->
      Viewer.total_stages wells well_name = Ok 0).
Proof.
  intros Hget. split.
  - unfold KPI.total_stages, get_default. now rewrite Hget.
  - intros Hnone. rewrite total_stages_unmatched by assumption.
    destruct (fuzzy_match_scan wells well_name wells [])
      as [[_ ->]|(l2 & k & v & l3 & -> & Hm & _)].
    + reflexivity.
    + intros k [].
    + reflexivity.
    + exfalso. apply (Hnone k); [|assumption].
      unfold keys. rewrite map_app. apply in_or_app. right. now left.
Qed.

Lemma unknown_target_defaults_witness :
  get scenario_wells "Z-9" = None
  /\ KPI.total_stages scenario_wells "Z-9" = 60
  /\ Viewer.total_stages scenario_wells "Z-9" = Ok 0.
Proof.
  assert (get scenario_wells "Z-9" = None) as Hget by reflexivity.
  destruct (unknown_target_defaults scenario_wells "Z-9" Hget) as [Hkpi Hview].
  split; [exact Hget|]. split; [exact Hkpi|]. apply Hview.
  intros k Hk. rewrite <- names_match_spec.
  destruct Hk as [<-|[]]. vm_compute. discriminate.
Defined.

(** C3 fails as stated on the editor: well Z-9 matches no declared well of
    the scenario, exactly or by substring, and its target there is 60. *)
Lemma editor_target_not_zero :
  get scenario_wells "Z-9" = None
  /\ (forall k, In k (keys scenario_wells) -> ~ Spec.names_match k "Z-9")
  /\ KPI.total_stages scenario_wells "Z-9" <> 0.
Proof.
  split; [reflexivity|]. split.
  - intros k Hk. rewrite <- names_match_spec.
    destruct Hk as [<-|[]]. vm_compute. discriminate.
  - vm_compute. discriminate.
Qed.

(** C4.  In the viewer, for an observed well name with no exact match and
    some declared name that is a substring of it or has it as a substring, the
    target is the declared stage count of the first such name in the order of
    the job's well declarations. *)
Theorem fuzzy_target_first_match (wells : dict Z) (well_name : string) :
  get wells well_name = None ->
  (exists k, In k (keys wells) /\ Spec.names_match k well_name) ->
  exists l1 k v l2,
    wells = (l1 ++ (k, v) :: l2)%list
    /\ Spec.names_match k well_name
    /\ (forall k', In k' (keys l1) -> ~ Spec.names_match k' well_name)
    /\ get wells k = Some v
    /\ Viewer.total_stages wells well_name = Ok v.
Proof.
  intros Hget (k0 & Hk0 & Hm0).
  rewrite total_stages_unmatched by assumption.
  destruct (fuzzy_match_scan wells well_name wells [])
    as [[Hnone _]|(l1 & k & v & l2 & Hw & Hm & Hfirst & Hrun)].
  - reflexivity.
  - intros k [].
  - exfalso. now apply (Hnone k0).
  - exists l1, k, v, l2. rewrite Hrun. repeat split; try assumption.
    rewrite Hw at 1. rewrite get_app_notin, get_head; [reflexivity|].
    intros Hin. now apply (Hfirst k).
Qed.

Lemma fuzzy_target_first_match_witness :
  get long_name_wells "A-1H" = None
  /\ exists l1 k v l2,
      long_name_wells = (l1 ++ (k, v) :: l2)%list
      /\ Spec.names_match k "A-1H"
      /\ (forall k', In k' (keys l1) -> ~ Spec.names_match k' "A-1H")
      /\ get long_name_wells k = Some v
      /\ Viewer.total_stages long_name_wells "A-1H" = Ok v.
Proof.
  split; [reflexivity|].
  apply (fuzzy_target_first_match long_name_wells "A-1H").
  - reflexivity.
  - exists "A-1H (long name)". split.
    + simpl. auto.
    + right. exists "", " (long name)". reflexivity.
Defined.

Lemma long_name_target : Viewer.total_stages long_name_wells "A-1H" = Ok 55.
Proof. reflexivity. Qed.

(** *** Idle times *)

Lemma Sorted_weaken {A : Type} (R R' : A -> A -> Prop) (l : list A) :
  (forall a b, R a b -> R' a b) -> Sorted R l -> Sorted R' l.
Proof.
  intros HR. induction 1 as [|x l _ IH Hhd]; constructor.
  - exact IH.
  - destruct Hhd; constructor. now apply HR.
Qed.

Lemma map_fst_combine {A B : Type} (l : list A) (l' : list B) :
  List.length l' = List.length l -> map fst (combine l l') = l.
Proof.
  revert l'. induction l as [|a l IH]; intros [|b l'] H; simpl in *;
    try reflexivity; try discriminate.
  f_equal. apply IH. congruence.
Qed.

Lemma map_snd_combine {A B : Type} (l : list A) (l' : list B) :
  List.length l' = List.length l -> map snd (combine l l') = l'.
Proof.
  revert l'. induction l as [|a l IH]; intros [|b l'] H; simpl in *;
    try reflexivity; try discriminate.
  f_equal. apply IH. congruence.
Qed.

Lemma diff_from_nth (l : list Z) (prev : Z) (i : nat) (a b : Z) :
  nth_error (prev :: l) i = Some a ->
  nth_error l i = Some b ->
  nth_error (KPI.diff_from prev l) i = Some (Some (b - a)).
Proof.
  revert prev i. induction l as [|x l IH]; intros prev [|i]; simpl; try discriminate.
  - congruence.
  - intros Ha Hb. now apply IH.
Qed.

Lemma diff_length (l : list Z) : List.length (KPI.diff l) = List.length l.
Proof.
  destruct l as [|x l]; simpl; [reflexivity|]. f_equal.
  revert x. induction l as [|y l IH]; intros x; simpl; [reflexivity|]. now rewrite IH.
Qed.

(** C9.  The idle view of a group is the group sorted by start time with one
    idle value per row: none for the first row, and for every later row the
    hours from the start of the row before it to its own start. *)
Theorem idle_hours_between_starts (group : list StageRecord) :
  let sorted := KPI.sort_values group in
  let idle := KPI.idle_hrs group in
  Permutation sorted group
  /\ Sorted (fun a b => start_time a <= start_time b) sorted
  /\ map fst (KPI.idle_view group) = sorted
  /\ map snd (KPI.idle_view group) = idle
  /\ (forall first, nth_error sorted 0 = Some first -> nth_error idle 0 = Some None)
  /\ (forall i before this,
         nth_error sorted i = Some before ->
         nth_error sorted (S i) = Some this ->
         exists h,
           nth_error idle (S i) = Some (Some h)
           /\ (h == inject_Z (start_time this - start_time before)
                    / inject_Z Spec.ns_per_hour)%Q).
Proof.
  intros sorted idle.
  assert (List.length idle = List.length sorted) as Hlen.
  { unfold idle, KPI.idle_hrs. now rewrite length_map, diff_length, length_map. }
  split; [apply sorted_by_perm|]. split; [|split; [|split; [|split]]].
  - eapply Sorted_weaken; [|apply sorted_by_sorted].
    + intros a b H. now apply Z.leb_le.
    + intros a b. destruct (Z.leb_spec (start_time a) (start_time b)); [now left|].
      right. apply Z.leb_le. lia.
  - unfold KPI.idle_view. now apply map_fst_combine.
  - unfold KPI.idle_view. now apply map_snd_combine.
  - intros first Hfirst. unfold idle, KPI.idle_hrs. fold sorted.
    destruct sorted as [|r l]; [discriminate | reflexivity].
  - intros i before this Hb Ht.
    exists (Time.hours_of (start_time this - start_time before)). split.
    + unfold idle, KPI.idle_hrs. fold sorted.
      rewrite nth_error_map.
      destruct sorted as [|r l]; [destruct i; discriminate|].
      simpl in Ht. simpl.
      rewrite (diff_from_nth _ _ _ (start_time before) (start_time this)).
      * reflexivity.
      * change (start_time r :: map start_time l) with (map start_time (r :: l)).
        rewrite nth_error_map, Hb. reflexivity.
      * rewrite nth_error_map, Ht. reflexivity.
    + unfold Time.hours_of.
      change (inject_Z Time.seconds_per_hour) with (3600 # 1)%Q.
      change (inject_Z Time.ns_per_second) with (1000000000 # 1)%Q.
      change (inject_Z Spec.ns_per_hour) with (3600000000000 # 1)%Q.
      field.
Qed.

Lemma idle_hours_between_starts_witness :
  exists h,
    nth_error (KPI.idle_hrs (rev scenario_records)) 1 = Some (Some h) /\ (h == 3)%Q.
Proof.
  destruct (idle_hours_between_starts (rev scenario_records))
    as (_ & _ & _ & _ & _ & Hnext).
  destruct (Hnext 0%nat
              (mkStage "A" (VInt 1) (Time.at_ 2024 1 1 0 0) (Time.at_ 2024 1 1 1 0))
              (mkStage "A" (VInt 2) (Time.at_ 2024 1 1 3 0) (Time.at_ 2024 1 1 4 0))
              eq_refl eq_refl) as (h & Hh & Heq).
  exists h. split; [exact Hh|]. rewrite Heq. vm_compute. reflexivity.
Defined.

(** *** Counting values *)

Lemma get_Some_In {V : Type} (d : dict V) (k : string) (v : V) :
  get d k = Some v -> In (k, v) d.
Proof.
  induction d as [|[k' v'] d IH]; simpl; [discriminate|].
  destruct (String.eqb_spec k' k) as [->|Hne].
  - intros E. left. congruence.
  - intros E. right. now apply IH.
Qed.

Lemma count_count_occ (c : string) (l : list string) :
  count String.eqb c l = Z.of_nat (count_occ string_dec l c).
Proof.
  unfold count. f_equal. induction l as [|x l IH]; simpl; [reflexivity|].
  destruct (String.eqb_spec c x) as [E|Hne]; destruct (string_dec x c) as [E'|Hne'];
    simpl; congruence.
Qed.

Section ValueCounts.
Variable series : list (option string).
Let observed : list string := somes series.

Lemma value_counts_In (k : string) (v : Z) :
  In (k, v) (value_counts series)
  <-> In k observed /\ v = Z.of_nat (count_occ string_dec observed k).
Proof.
  unfold value_counts. fold observed.
  rewrite sorted_by_In, in_map_iff. split.
  - intros (c & E & Hc). inversion E; subst.
    rewrite unique_In in Hc by apply String.eqb_eq.
    split; [assumption | apply count_count_occ].
  - intros [Hk ->]. exists k. rewrite count_count_occ. split; [reflexivity|].
    now rewrite unique_In by apply String.eqb_eq.
Qed.

Lemma value_counts_keys_perm :
  Permutation (keys (value_counts series)) (unique String.eqb observed).
Proof.
  unfold value_counts, keys. fold observed.
  rewrite sorted_by_perm, map_map. simpl. now rewrite map_id.
Qed.

Lemma value_counts_NoDup : NoDup (keys (value_counts series)).
Proof.
  eapply Permutation_NoDup; [symmetry; apply value_counts_keys_perm|].
  apply unique_NoDup, String.eqb_eq.
Qed.

Lemma value_counts_keys_In (k : string) :
  In k (keys (value_counts series)) <-> In k observed.
Proof.
  split; intros H.
  - eapply Permutation_in in H; [|apply value_counts_keys_perm].
    now rewrite unique_In in H by apply String.eqb_eq.
  - eapply Permutation_in; [symmetry; apply value_counts_keys_perm|].
    now rewrite unique_In by apply String.eqb_eq.
Qed.

Lemma value_counts_get (k : string) :
  get_default (value_counts series) k 0 = Z.of_nat (count_occ string_dec observed k).
Proof.
  unfold get_default. destruct (get (value_counts series) k) as [v|] eqn:E.
  - apply get_Some_In, value_counts_In in E. tauto.
  - apply get_None in E. rewrite value_counts_keys_In in E.
    apply (count_occ_not_In string_dec) in E. now rewrite E.
Qed.

End ValueCounts.

(** *** The rate table *)

Lemma str_leb_neq_lt (a b : string) :
  str_leb a b = true -> a <> b -> String_as_OT.lt a b.
Proof.
  unfold str_leb, String_as_OT.lt.
  destruct (String_as_OT.compare_spec a b); congruence.
Qed.

Lemma Sorted_NoDup_strict (l : list string) :
  Sorted (fun a b => str_leb a b = true) l -> NoDup l -> Sorted String_as_OT.lt l.
Proof.
  induction 1 as [|x l Hs IH Hhd]; intros Hnd; constructor.
  - apply IH. now inversion Hnd.
  - destruct Hhd as [|y l Hxy]; constructor.
    apply str_leb_neq_lt; [assumption|].
    intros ->. inversion Hnd; subst. simpl in *. tauto.
Qed.

Lemma Zsum_map_add {A : Type} (f g : A -> Z) (l : list A) :
  Zsum (map (fun a => f a + g a) l) = Zsum (map f l) + Zsum (map g l).
Proof. induction l as [|a l IH]; simpl; [reflexivity | rewrite IH; lia]. Qed.

Lemma Zsum_indicator (x : string) (cs : list string) :
  NoDup cs ->
  Zsum (map (fun c => if string_dec x c then 1 else 0) cs)
  = if in_dec string_dec x cs then 1 else 0.
Proof.
  induction 1 as [|c cs Hnotin Hnd IH]; simpl; [reflexivity|].
  rewrite IH. destruct (string_dec x c) as [->|Hne].
  - destruct (in_dec string_dec c cs); [tauto|].
    destruct (string_dec c c); [reflexivity | congruence].
  - destruct (string_dec c x); [congruence|].
    destruct (in_dec string_dec x cs); reflexivity.
Qed.

(** Over distinct categories that cover the values, the occurrence counts add
    up to the number of values. *)
Lemma Zsum_occurrences (values cs : list string) :
  NoDup cs ->
  (forall x, In x values -> In x cs) ->
  Zsum (map (fun c => Spec.occurrences c values) cs) = Z.of_nat (List.length values).
Proof.
  intros Hnd. unfold Spec.occurrences.
  induction values as [|x values IH]; intros Hcover.
  - simpl. clear. induction cs; simpl; [reflexivity | assumption].
  - rewrite (map_ext _ (fun c => (if string_dec x c then 1 else 0)
                                 + Z.of_nat (count_occ string_dec values c))).
    + rewrite Zsum_map_add, Zsum_indicator, IH by auto with datatypes.
      destruct (in_dec string_dec x cs) as [_|Hn].
      * simpl List.length. lia.
      * exfalso. apply Hn, Hcover. now left.
    + intros c. simpl. destruct (string_dec x c); lia.
Qed.

Section RateTable.
Variable quality_data : list QualityRecord.
Let pre : list string := Spec.observed pre_sand quality_data.
Let post : list string := Spec.observed post_sand quality_data.

Lemma rate_conditions :
  map Condition (rate_table quality_data)
  = sorted_by str_leb
      (unique String.eqb (keys (value_counts (map pre_sand quality_data))
                          ++ keys (value_counts (map post_sand quality_data)))%list).
Proof. unfold rate_table. rewrite map_map. simpl. apply map_id. Qed.

Lemma rate_conditions_In (c : string) :
  In c (map Condition (rate_table quality_data)) <-> In c pre \/ In c post.
Proof.
  rewrite rate_conditions, sorted_by_In, unique_In by apply String.eqb_eq.
  rewrite in_app_iff, !value_counts_keys_In. reflexivity.
Qed.

Lemma rate_conditions_NoDup : NoDup (map Condition (rate_table quality_data)).
Proof.
  rewrite rate_conditions.
  eapply Permutation_NoDup; [symmetry; apply sorted_by_perm|].
  apply unique_NoDup, String.eqb_eq.
Qed.

Lemma rate_conditions_sorted :
  Sorted String_as_OT.lt (map Condition (rate_table quality_data)).
Proof.
  apply Sorted_NoDup_strict; [|apply rate_conditions_NoDup].
  rewrite rate_conditions. apply sorted_by_sorted, str_leb_total.
Qed.

Lemma rate_entry_counts (e : RateEntry) :
  In e (rate_table quality_data) ->
  Pre e = Spec.occurrences (Condition e) pre
  /\ Post e = Spec.occurrences (Condition e) post
  /\ Total e = Pre e + Post e.
Proof.
  unfold rate_table. rewrite in_map_iff. intros (c & <- & _). simpl.
  rewrite !value_counts_get. repeat split.
Qed.

Lemma rate_table_as_map :
  rate_table quality_data
  = map (fun c => mkEntry c (Spec.occurrences c pre) (Spec.occurrences c post)
                    (Spec.occurrences c pre + Spec.occurrences c post))
        (map Condition (rate_table quality_data)).
Proof.
  rewrite rate_conditions. unfold rate_table. apply map_ext. intros c.
  now rewrite !value_counts_get.
Qed.

Lemma rate_grand_total :
  Zsum (map Total (rate_table quality_data))
  = Z.of_nat (List.length pre + List.length post).
Proof.
  rewrite rate_table_as_map, map_map. simpl.
  rewrite Zsum_map_add, !Zsum_occurrences.
  - lia.
  - apply rate_conditions_NoDup.
  - intros x Hx. apply rate_conditions_In. now right.
  - apply rate_conditions_NoDup.
  - intros x Hx. apply rate_conditions_In. now left.
Qed.

Lemma rate_table_nonempty :
  (pre ++ post)%list <> [] <-> rate_table quality_data <> [].
Proof.
  split.
  - intros Hne Hnil.
    destruct (pre ++ post)%list as [|x l] eqn:E; [congruence|].
    assert (In x (map Condition (rate_table quality_data))) as Hin.
    { apply rate_conditions_In, in_app_or. rewrite E. now left. }
    rewrite Hnil in Hin. destruct Hin.
  - intros Hne Hnil. apply app_eq_nil in Hnil. destruct Hnil as [Hpre Hpost].
    destruct (rate_table quality_data) as [|e l] eqn:E; [congruence|].
    assert (In (Condition e) (map Condition (rate_table quality_data))) as Hin
        by (rewrite E; now left).
    apply rate_conditions_In in Hin. rewrite Hpre, Hpost in Hin. simpl in Hin. tauto.
Qed.

End RateTable.

(** *** Binary64 rounding *)

Lemma round_half_even_error (x : Q) :
  (Qabs (inject_Z (round_half_even x) - x) <= 1 # 2)%Q.
Proof.
  apply Qabs_Qle_condition. unfold round_half_even.
  pose proof (Qfloor_le x) as Hlo. pose proof (Qlt_floor x) as Hhi.
  rewrite inject_Z_plus in Hhi. change (inject_Z 1) with 1%Q in Hhi.
  destruct (Qcompare_spec (x - inject_Z (Qfloor x)) (1 # 2)) as [E|L|G].
  - destruct (Z.even (Qfloor x)).
    + split; lra.
    + rewrite inject_Z_plus. change (inject_Z 1) with 1%Q. split; lra.
  - split; lra.
  - rewrite inject_Z_plus. change (inject_Z 1) with 1%Q. split; lra.
Qed.

Lemma ilog2_le (x : Q) : (0 < x)%Q -> (2 ^ ilog2 x <= x)%Q.
Proof.
  intros Hx. unfold ilog2.
  set (ln := Z.log2 (Qnum x)). set (ld := Z.log2 (Zpos (Qden x))).
  destruct (Qle_bool (2 ^ (ln - ld)) x) eqn:E; [now apply Qle_bool_iff|].
  assert (0 < Qnum x) as Hn.
  { unfold Qlt in Hx. simpl in Hx. lia. }
  destruct (Z.log2_spec (Qnum x) Hn) as [Hnlo _]. fold ln in Hnlo.
  destruct (Z.log2_spec (Zpos (Qden x))) as [_ Hdhi]; [lia|]. fold ld in Hdhi.
  assert (0 <= ln) as Hln by apply Z.log2_nonneg.
  assert (0 <= ld) as Hld by apply Z.log2_nonneg.
  replace (ln - ld - 1) with (ln - Z.succ ld) by lia.
  rewrite Qpower_minus by discriminate.
  change 2%Q with (inject_Z 2).
  rewrite <- !Zpower_Qpower by lia.
  apply Qle_shift_div_r.
  - change 0%Q with (inject_Z 0). rewrite <- Zlt_Qlt. lia.
  - destruct x as [n d]. unfold Qle. simpl in *. nia.
Qed.

Lemma round_binary64_error (x : Q) :
  (Qabs (round_binary64 x - x) <= Qabs x * binary64_unit)%Q.
Proof.
  unfold round_binary64. destruct (Qeq_bool x 0) eqn:E.
  - apply Qeq_bool_iff in E. rewrite E. vm_compute. discriminate.
  - assert (~ x == 0)%Q as Hx by (intros H; apply Qeq_bool_iff in H; congruence).
    assert (0 < Qabs x)%Q as Habs.
    { destruct (Qlt_le_dec 0 (Qabs x)) as [H|H]; [assumption|].
      exfalso. apply Hx. pose proof (Qabs_nonneg x) as Hnn.
      assert (Qabs x == 0)%Q as Hz by lra.
      revert Hz. apply Qabs_case; intros; lra. }
    set (e := ilog2 (Qabs x)).
    pose proof (ilog2_le (Qabs x) Habs) as He. fold e in He.
    set (ulp := (2 ^ (e - 52))%Q).
    assert (0 < ulp)%Q as Hulp by (apply Qpower_0_lt; reflexivity).
    assert (ulp == 2 ^ e * (1 # 4503599627370496))%Q as Hsplit.
    { unfold ulp. rewrite Qpower_minus by discriminate.
      assert ((2 ^ 52)%Q = (4503599627370496 # 1)%Q) as -> by (vm_compute; reflexivity).
      unfold Qdiv. reflexivity. }
    assert (inject_Z (round_half_even (x / ulp)) * ulp - x
            == (inject_Z (round_half_even (x / ulp)) - x / ulp) * ulp)%Q as ->
        by (field; lra).
    rewrite Qabs_Qmult, (Qabs_pos ulp) by lra.
    pose proof (round_half_even_error (x / ulp)) as Hr.
    apply Qle_trans with ((1 # 2) * ulp)%Q.
    + apply Qmult_le_compat_r; [assumption | lra].
    + rewrite Hsplit. unfold binary64_unit.
      assert ((1 # 2) * (2 ^ e * (1 # 4503599627370496))
              == 2 ^ e * (1 # 9007199254740992))%Q as -> by ring.
      apply Qmult_le_compat_r; [assumption | discriminate].
Qed.

Lemma ratio_nonneg (count total : Z) :
  0 <= count -> 0 < total -> (0 <= inject_Z count / inject_Z total)%Q.
Proof.
  intros Hc Ht. apply Qle_shift_div_l.
  - change 0%Q with (inject_Z 0). now rewrite <- Zlt_Qlt.
  - rewrite Qmult_0_l. change 0%Q with (inject_Z 0). now rewrite <- Zle_Qle.
Qed.

(** Two roundings: a relative error of at most [2u + u^2]. *)
Lemma percent64_error (count total : Z) :
  0 <= count -> 0 < total ->
  (Qabs (percent64 count total - inject_Z count / inject_Z total * 100)
   <= inject_Z count / inject_Z total * 100
      * (2 * binary64_unit + binary64_unit * binary64_unit))%Q.
Proof.
  intros Hc Ht. unfold percent64.
  pose proof (ratio_nonneg count total Hc Ht) as Hx.
  set (x := (inject_Z count / inject_Z total)%Q) in *.
  pose proof (round_binary64_error x) as Ha.
  rewrite (Qabs_pos x) in Ha by assumption.
  set (a := round_binary64 x) in *.
  apply Qabs_Qle_condition in Ha. unfold binary64_unit in Ha.
  assert (0 <= a)%Q as Hapos by lra.
  pose proof (round_binary64_error (a * 100)) as Hp.
  rewrite (Qabs_pos (a * 100)) in Hp by lra.
  set (p := round_binary64 (a * 100)) in *.
  apply Qabs_Qle_condition in Hp. unfold binary64_unit in Hp.
  apply Qabs_Qle_condition. unfold binary64_unit. split; lra.
Qed.

Lemma Qsum_error {A : Type} (p q : A -> Q) (l : list A) :
  (forall a, In a l ->
             (Qabs (p a - q a)
              <= q a * (2 * binary64_unit + binary64_unit * binary64_unit))%Q) ->
  (Qabs (Qsum (map p l) - Qsum (map q l))
   <= Qsum (map q l) * (2 * binary64_unit + binary64_unit * binary64_unit))%Q.
Proof.
  unfold binary64_unit.
  induction l as [|a l IH]; intros H.
  - vm_compute. discriminate.
  - change (Qsum (map p (a :: l))) with (p a + Qsum (map p l))%Q.
    change (Qsum (map q (a :: l))) with (q a + Qsum (map q l))%Q.
    pose proof (H a (or_introl eq_refl)) as Ha.
    assert (forall b, In b l ->
              (Qabs (p b - q b)
               <= q b * (2 * (1 # 9007199254740992)
                         + (1 # 9007199254740992) * (1 # 9007199254740992)))%Q) as Hl
        by (intros b Hb; apply H; now right).
    specialize (IH Hl).
    apply Qabs_Qle_condition in Ha, IH. apply Qabs_Qle_condition. split; lra.
Qed.

(** *** Percentages *)

Lemma Qsum_scaled {A : Type} (f : A -> Z) (t : Q) (l : list A) :
  (Qsum (map (fun a => inject_Z (f a) / t * 100) l)
   == inject_Z (Zsum (map f l)) / t * 100)%Q.
Proof.
  induction l as [|a l IH]; simpl.
  - unfold Qdiv. ring.
  - rewrite IH, inject_Z_plus. unfold Qdiv. ring.
Qed.

Lemma somes_map_Some {A B : Type} (f : A -> B) (l : list A) :
  somes (map (fun a => Some (f a)) l) = map f l.
Proof. induction l as [|a l IH]; simpl; [reflexivity | now rewrite IH]. Qed.

Lemma rate_df_rows (quality_data : list QualityRecord) :
  rate_table quality_data <> [] ->
  let total_rate := Zsum (map Total (rate_table quality_data)) in
  0 < total_rate
  /\ rate_df quality_data
     = Ok (map (fun e => mkRate e (Some (inject_Z (Total e) / inject_Z total_rate * 100)%Q))
               (rate_table quality_data)).
Proof.
  intros Hne total_rate.
  assert (0 < total_rate) as Hpos.
  { unfold total_rate. rewrite rate_grand_total.
    apply rate_table_nonempty in Hne.
    destruct (Spec.observed pre_sand quality_data ++ Spec.observed post_sand quality_data)%list
      as [|x l] eqn:E; [congruence|].
    apply (f_equal (@List.length string)) in E. rewrite length_app in E. simpl in E. lia. }
  split; [assumption|]. unfold rate_df.
  destruct (rate_table quality_data) as [|e l] eqn:E; [congruence|].
  fold total_rate. f_equal. apply map_ext. intros e'. unfold np_div.
  destruct (Z.eqb_spec total_rate 0); [lia | reflexivity].
Qed.

Lemma rate_df_raises (quality_data : list QualityRecord) :
  rate_table quality_data = [] -> rate_df quality_data = Raise (KeyError "Total").
Proof. unfold rate_df. now intros ->. Qed.

Lemma Zsum_perm (l l' : list Z) : Permutation l l' -> Zsum l = Zsum l'.
Proof. induction 1; simpl; lia. Qed.

Lemma spp_total_length (quality_data : list QualityRecord) :
  Zsum (map snd (value_counts (map spp quality_data)))
  = Z.of_nat (List.length (Spec.observed spp quality_data)).
Proof.
  unfold value_counts. fold (Spec.observed spp quality_data).
  rewrite (Zsum_perm _ _ (Permutation_map snd (sorted_by_perm _ _))).
  rewrite map_map. simpl.
  rewrite (map_ext _ (fun c => Spec.occurrences c (Spec.observed spp quality_data)))
    by (intros c; apply count_count_occ).
  apply Zsum_occurrences.
  - apply unique_NoDup, String.eqb_eq.
  - intros x Hx. now rewrite unique_In by apply String.eqb_eq.
Qed.

Lemma spp_rows_ok (spp_total : Z) (items : dict Z) :
  spp_total <> 0 \/ items = [] ->
  spp_rows spp_total items
  = Ok (map (fun kv => mkSpp (fst kv) (snd kv)
                         (format_2f (percent64 (snd kv) spp_total) ++ "%"))
            items).
Proof.
  intros H. induction items as [|[k v] items IH]; simpl; [reflexivity|].
  destruct H as [H|H]; [|discriminate].
  unfold py_div. destruct (Z.eqb_spec spp_total 0); [contradiction|]. cbn [bind].
  rewrite IH by now left. reflexivity.
Qed.

Lemma spp_table_rows (quality_data : list QualityRecord) :
  let spp_counts := value_counts (map spp quality_data) in
  let spp_total := Z.of_nat (List.length (Spec.observed spp quality_data)) in
  spp_table quality_data
  = Ok (map (fun kv => mkSpp (fst kv) (snd kv)
                         (format_2f (percent64 (snd kv) spp_total) ++ "%"))
            spp_counts).
Proof.
  intros spp_counts spp_total. unfold spp_table.
  rewrite spp_total_length. fold spp_counts spp_total.
  apply spp_rows_ok.
  destruct spp_counts as [|[k v] l] eqn:E; [now right | left].
  assert (In k (keys (value_counts (map spp quality_data)))) as Hin
      by (fold spp_counts; rewrite E; now left).
  apply value_counts_keys_In in Hin. unfold spp_total, Spec.observed.
  destruct (somes (map spp quality_data)); [destruct Hin | discriminate].
Qed.

Lemma summarize_rates_cases (quality_data : list QualityRecord) :
  (quality_data = [] /\ summarize_rates quality_data = Ok NoData)
  \/ (quality_data <> [] /\ rate_table quality_data = []
      /\ summarize_rates quality_data = Raise (KeyError "Total"))
  \/ (quality_data <> [] /\ rate_table quality_data <> []
      /\ exists rate spp,
          rate_df quality_data = Ok rate
          /\ spp_table quality_data = Ok spp
          /\ summarize_rates quality_data = Ok (Tables rate spp)).
Proof.
  destruct quality_data as [|q data] eqn:E; [now left | right].
  rewrite <- E. assert (quality_data <> []) as Hne by (subst; discriminate).
  assert (summarize_rates quality_data
          = bind (rate_df quality_data)
              (fun rate => bind (spp_table quality_data)
                             (fun spp => Ok (Tables rate spp)))) as Hrun
      by (subst; reflexivity).
  destruct (rate_table quality_data) as [|e l] eqn:Et.
  - left. split; [assumption|]. split; [reflexivity|].
    rewrite Hrun, rate_df_raises by assumption. reflexivity.
  - right. split; [assumption|]. split; [discriminate|].
    destruct (rate_df_rows quality_data) as [_ Hrate]; [rewrite Et; discriminate|].
    rewrite Et in Hrate.
    eexists. eexists. split; [exact Hrate|]. split; [apply spp_table_rows|].
    rewrite Hrun, Hrate, spp_table_rows. reflexivity.
Qed.

(** C6, as the code has it.  The rate table has one row per value observed
    as a pre-sand or post-sand value, in strictly increasing lexicographic
    order; a row counts the occurrences of its value on each side (0 when it
    is absent from a side) and their sum; the totals add up to the number of
    observed values.  When a value is observed, every row's percentage is its
    total over that grand total, times 100.  For the pre-sand values Good,
    Good, Bad and the post-sand value Good the rows are Bad (1, 0, 1, 25%) and
    Good (2, 1, 3, 75%). *)
Theorem rate_table_rows (quality_data : list QualityRecord) :
  let pre := Spec.observed pre_sand quality_data in
  let post := Spec.observed post_sand quality_data in
  let table := rate_table quality_data in
  let grand := Z.of_nat (List.length pre + List.length post) in
  (forall c, In c (map Condition table) <-> In c pre \/ In c post)
  /\ Sorted String_as_OT.lt (map Condition table)
  /\ (forall e, In e table ->
                Pre e = Spec.occurrences (Condition e) pre
                /\ Post e = Spec.occurrences (Condition e) post
                /\ Total e = Pre e + Post e)
  /\ Zsum (map Total table) = grand
  /\ ((pre ++ post)%list <> [] ->
      exists rows,
        rate_df quality_data = Ok rows
        /\ map entry rows = table
        /\ forall row, In row rows ->
             exists p, Percent_Total row = Some p
                       /\ (p == inject_Z (Total (entry row)) / inject_Z grand * 100)%Q)
  /\ (pre = ["Good"; "Good"; "Bad"] -> post = ["Good"] ->
      exists p_bad p_good,
        rate_df quality_data
        = Ok [ mkRate (mkEntry "Bad" 1 0 1) (Some p_bad);
               mkRate (mkEntry "Good" 2 1 3) (Some p_good) ]
        /\ (p_bad == 25)%Q /\ (p_good == 75)%Q
        /\ format_2f p_bad = "25.00" /\ format_2f p_good = "75.00").
Proof.
  intros pre post table grand.
  split; [apply rate_conditions_In|]. split; [apply rate_conditions_sorted|].
  split; [apply rate_entry_counts|]. split; [apply rate_grand_total|]. split.
  - intros Hne. apply rate_table_nonempty in Hne.
    destruct (rate_df_rows quality_data Hne) as [_ Hrun].
    rewrite rate_grand_total in Hrun. fold pre post grand table in Hrun.
    eexists. split; [exact Hrun|]. split.
    + rewrite map_map. simpl. apply map_id.
    + intros row Hrow. apply in_map_iff in Hrow. destruct Hrow as (e & <- & _).
      simpl. eexists. split; reflexivity.
  - intros Hpre Hpost. exists (100 # 4)%Q, (300 # 4)%Q.
    split; [|repeat split].
    unfold rate_df, rate_table, value_counts.
    unfold pre, post, Spec.observed in Hpre, Hpost. rewrite Hpre, Hpost.
    vm_compute. reflexivity.
Qed.

Lemma rate_table_rows_witness :
  (Spec.observed pre_sand quality_scenario
   ++ Spec.observed post_sand quality_scenario)%list <> []
  /\ exists p_bad p_good,
      rate_df quality_scenario
      = Ok [ mkRate (mkEntry "Bad" 1 0 1) (Some p_bad);
             mkRate (mkEntry "Good" 2 1 3) (Some p_good) ]
      /\ (p_bad == 25)%Q /\ (p_good == 75)%Q
      /\ format_2f p_bad = "25.00" /\ format_2f p_good = "75.00".
Proof.
  split; [discriminate|].
  destruct (rate_table_rows quality_scenario) as (_ & _ & _ & _ & _ & Hscenario).
  apply Hscenario; reflexivity.
Defined.

(** C6 fails as stated: in the scenario the row of Good holds 75 percent, a
    value that neither rounds to 66.67 nor lies within a hundredth of it. *)
Lemma scenario_good_is_not_two_thirds :
  ~ (exists rows good p,
        rate_df quality_scenario = Ok rows
        /\ In good rows
        /\ entry good = mkEntry "Good" 2 1 3
        /\ Percent_Total good = Some p
        /\ (format_2f p = "66.67" \/ (Qabs (p - (6667 # 100)) <= 1 # 100)%Q)).
Proof.
  intros (rows & good & p & Hrun & Hin & Hentry & Hp & Hclose).
  vm_compute in Hrun. inversion Hrun; subst rows. clear Hrun.
  destruct Hin as [<-|[<-|[]]]; simpl in Hentry, Hp; [discriminate|].
  inversion Hp; subst p.
  destruct Hclose as [H|H]; vm_compute in H; [discriminate | now apply H].
Qed.

(** *** Printed percentages *)

Lemma round_half_even_nonneg (x : Q) : (0 <= x)%Q -> 0 <= round_half_even x.
Proof.
  intros Hx. unfold round_half_even.
  assert (0 <= Qfloor x) as Hf.
  { change 0 with (Qfloor 0). now apply Qfloor_resp_le. }
  destruct (x - inject_Z (Qfloor x) ?= 1 # 2)%Q; [destruct (Z.even _)| |]; lia.
Qed.

Lemma percent64_nonneg (count total : Z) :
  0 <= count -> 0 < total -> (0 <= percent64 count total)%Q.
Proof.
  intros Hc Ht. pose proof (percent64_error count total Hc Ht) as H.
  pose proof (ratio_nonneg count total Hc Ht) as Hx.
  apply Qabs_Qle_condition in H. unfold binary64_unit in H.
  set (x := (inject_Z count / inject_Z total)%Q) in *.
  set (p := percent64 count total) in *. lra.
Qed.

Lemma string_of_uint_no_dot (d : Decimal.uint) :
  has_char "." (NilEmpty.string_of_uint d) = false.
Proof. induction d; simpl; auto. Qed.

Lemma digits_no_dot (n : Z) : has_char "." (digits n) = false.
Proof.
  unfold digits, NilZero.string_of_uint.
  destruct (N.to_uint (Z.to_N n)); try reflexivity; apply string_of_uint_no_dot.
Qed.

Lemma split_at_dot_app (a b : string) :
  has_char "." a = false -> Spec.split_at_dot (a ++ String "." b) = Some (a, b).
Proof.
  induction a as [|c a IH]; simpl; intros H; [reflexivity|].
  apply orb_false_iff in H. destruct H as [Hc Ha]. now rewrite Hc, (IH Ha).
Qed.

Lemma read_whole_digits (w : Z) : 0 <= w -> Spec.read_whole (digits w) = Some w.
Proof.
  intros Hw. unfold Spec.read_whole, digits. rewrite NilZero.usu.
  - simpl. rewrite DecimalN.Unsigned.of_to. f_equal. now apply Z2N.id.
  - destruct (Z.to_N w); simpl; [discriminate | apply DecimalPos.Unsigned.to_uint_nonnil].
Qed.

Lemma read_fraction_digits (f : Z) :
  0 <= f < 100 ->
  Spec.read_fraction ((if f <? 10 then "0" else "") ++ digits f ++ "%") = Some f.
Proof.
  intros Hf.
  assert (forallb (fun g => match Spec.read_fraction
                                    ((if g <? 10 then "0" else "") ++ digits g ++ "%")
                            with
                            | Some h => h =? g
                            | None => false
                            end)
                  (map Z.of_nat (seq 0 100)) = true) as Hall
      by (vm_compute; reflexivity).
  rewrite forallb_forall in Hall. specialize (Hall f).
  destruct (Spec.read_fraction ((if f <? 10 then "0" else "") ++ digits f ++ "%"))
    as [h|].
  - f_equal. apply Z.eqb_eq, Hall. apply in_map_iff. exists (Z.to_nat f).
    split; [lia | apply in_seq; lia].
  - assert (false = true) as E; [|discriminate].
    apply Hall. apply in_map_iff. exists (Z.to_nat f).
    split; [lia | apply in_seq; lia].
Qed.

Lemma string_app_assoc (a b c : string) : ((a ++ b) ++ c = a ++ (b ++ c))%string.
Proof. induction a as [|x a IH]; simpl; [reflexivity | now rewrite IH]. Qed.

(** Reading a printed percentage back gives the hundredths it was rounded to. *)
Lemma read_percent_format (x : Q) :
  (0 <= x)%Q ->
  Spec.read_percent (format_2f x ++ "%")
  = Some (inject_Z (round_half_even (x * 100)) / 100)%Q.
Proof.
  intros Hx. unfold format_2f.
  assert (0 <= round_half_even (x * 100)) as Hn
      by (apply round_half_even_nonneg; lra).
  set (n := round_half_even (x * 100)) in *.
  destruct (Z.ltb_spec n 0) as [Hlt|_]; [lia|].
  rewrite (Z.abs_eq n) by assumption.
  change ("" ++ ?s)%string with s.
  rewrite string_app_assoc.
  change ("." ++ ?s)%string with (String "." s).
  change (String "." ?s ++ "%")%string with (String "." (s ++ "%")).
  rewrite string_app_assoc.
  unfold Spec.read_percent.
  rewrite split_at_dot_app by apply digits_no_dot.
  rewrite read_whole_digits by (apply Z.div_pos; lia).
  rewrite read_fraction_digits by (apply Z.mod_pos_bound; lia).
  replace (n / 100 * 100 + n mod 100) with n
    by (pose proof (Z.div_mod n 100); lia).
  reflexivity.
Qed.

(** The printed percentage is within half a hundredth of the value printed. *)
Lemma read_percent_close (x : Q) :
  (0 <= x)%Q ->
  exists shown,
    Spec.read_percent (format_2f x ++ "%") = Some shown
    /\ (Qabs (shown - x) <= 1 # 200)%Q.
Proof.
  intros Hx. eexists. split; [now apply read_percent_format|].
  pose proof (round_half_even_error (x * 100)) as H.
  apply Qabs_Qle_condition in H. apply Qabs_Qle_condition.
  set (n := inject_Z (round_half_even (x * 100))) in *.
  assert (n / 100 == n * (1 # 100))%Q as -> by (unfold Qdiv; reflexivity).
  split; lra.
Qed.

Lemma occurrences_bounds (c : string) (values : list string) :
  0 <= Spec.occurrences c values <= Z.of_nat (List.length values).
Proof.
  unfold Spec.occurrences. pose proof (count_occ_bound string_dec c values). lia.
Qed.

Lemma rate_df64_rows (quality_data : list QualityRecord) :
  rate_table quality_data <> [] ->
  let total_rate := Zsum (map Total (rate_table quality_data)) in
  rate_df64 quality_data
  = Ok (map (fun e => mkRate e (Some (percent64 (Total e) total_rate)))
            (rate_table quality_data)).
Proof.
  intros Hne total_rate.
  destruct (rate_df_rows quality_data Hne) as [Hpos _]. fold total_rate in Hpos.
  unfold rate_df64.
  destruct (rate_table quality_data) as [|e l] eqn:E; [congruence|].
  fold total_rate. f_equal. apply map_ext. intros e'. unfold np_div64.
  destruct (Z.eqb_spec total_rate 0); [lia | reflexivity].
Qed.

(** The percentages of the rate table, rounded as the code computes them,
    add up to 100 with a relative error of at most [2u + u^2]. *)
Lemma rate_percent64_sum (quality_data : list QualityRecord) :
  rate_table quality_data <> [] ->
  let total_rate := Zsum (map Total (rate_table quality_data)) in
  (Qabs (Qsum (map (fun e => percent64 (Total e) total_rate) (rate_table quality_data))
         - 100)
   <= 100 * (2 * binary64_unit + binary64_unit * binary64_unit))%Q.
Proof.
  intros Hne total_rate.
  destruct (rate_df_rows quality_data Hne) as [Hpos _]. fold total_rate in Hpos.
  assert (Qsum (map (fun e => inject_Z (Total e) / inject_Z total_rate * 100)
                    (rate_table quality_data)) == 100)%Q as Hexact.
  { rewrite Qsum_scaled. fold total_rate. field.
    intros H. apply (proj1 (inject_Z_injective _ 0)) in H. lia. }
  pose proof (Qsum_error (fun e => percent64 (Total e) total_rate)
                (fun e => inject_Z (Total e) / inject_Z total_rate * 100)%Q
                (rate_table quality_data)) as Hsum.
  rewrite Hexact in Hsum. apply Hsum.
  intros e He. apply percent64_error; [|assumption].
  destruct (rate_entry_counts quality_data e He) as (Hpre & Hpost & ->).
  rewrite Hpre, Hpost.
  pose proof (occurrences_bounds (Condition e) (Spec.observed pre_sand quality_data)).
  pose proof (occurrences_bounds (Condition e) (Spec.observed post_sand quality_data)).
  lia.
Qed.

(** C7.  When the rate table has a row, every row has a percentage and the
    percentages add up to 100: exactly when the quotient and the product are
    exact, and within 100 (2u + u^2), which is less than 1e-6, when each is
    rounded to binary64 as the code computes it (u = 2^-53).  The SPP table
    has one row per observed SPP value, with its number of occurrences; the
    row's percentage is the binary64 value of count / total * 100, the total
    being the sum of all counts, printed with two decimals and a percent
    sign, and the number printed is within 0.005 + 1e-12 of the count over
    the sum of all counts, times 100. *)
Theorem percent_sum_law (quality_data : list QualityRecord) :
  (rate_table quality_data <> [] ->
   (exists rows,
       rate_df quality_data = Ok rows
       /\ map Percent_Total rows = map Some (somes (map Percent_Total rows))
       /\ (Qsum (somes (map Percent_Total rows)) == 100)%Q)
   /\ exists rows,
       rate_df64 quality_data = Ok rows
       /\ map entry rows = rate_table quality_data
       /\ map Percent_Total rows = map Some (somes (map Percent_Total rows))
       /\ (Qabs (Qsum (somes (map Percent_Total rows)) - 100)
           <= 100 * (2 * binary64_unit + binary64_unit * binary64_unit))%Q
       /\ (Qabs (Qsum (somes (map Percent_Total rows)) - 100) <= 1 # 1000000)%Q)
  /\ exists spp_rows,
      spp_table quality_data = Ok spp_rows
      /\ let spp_total := Zsum (map Count spp_rows) in
         spp_total = Z.of_nat (List.length (Spec.observed spp quality_data))
         /\ NoDup (map spp_Condition spp_rows)
         /\ (forall c, In c (map spp_Condition spp_rows)
                       <-> In c (Spec.observed spp quality_data))
         /\ forall row, In row spp_rows ->
              Count row = Spec.occurrences (spp_Condition row)
                            (Spec.observed spp quality_data)
              /\ spp_Percent_Total row
                 = format_2f (percent64 (Count row) spp_total) ++ "%"
              /\ exists shown,
                  Spec.read_percent (spp_Percent_Total row) = Some shown
                  /\ (Qabs (shown - inject_Z (Count row) / inject_Z spp_total * 100)
                      <= (1 # 200) + (1 # 1000000000000))%Q.
Proof.
  split.
  - intros Hne. destruct (rate_df_rows quality_data Hne) as [Hpos Hrun]. split.
    + eexists. split; [exact Hrun|].
      rewrite map_map. simpl.
      rewrite (somes_map_Some
                 (fun e => (inject_Z (Total e)
                            / inject_Z (Zsum (map Total (rate_table quality_data)))
                            * 100)%Q)).
      split; [now rewrite map_map|].
      rewrite Qsum_scaled. field.
      intros H. apply (proj1 (inject_Z_injective _ 0)) in H. lia.
    + eexists. split; [now apply rate_df64_rows|].
      rewrite !map_map. simpl.
      rewrite (somes_map_Some
                 (fun e => percent64 (Total e)
                             (Zsum (map Total (rate_table quality_data))))).
      split; [apply map_id|]. split; [now rewrite map_map|].
      pose proof (rate_percent64_sum quality_data Hne) as Hsum. cbv zeta in Hsum.
      split; [exact Hsum|].
      eapply Qle_trans; [exact Hsum|]. vm_compute. discriminate.
  - eexists. split; [apply spp_table_rows|]. cbv zeta.
    rewrite !map_map. cbn [Count spp_Condition spp_Percent_Total].
    change (map (fun x : string * Z => snd x)) with (map (@snd string Z)).
    change (map (fun x : string * Z => fst x) ?l) with (keys l).
    rewrite spp_total_length.
    split; [reflexivity|]. split; [apply value_counts_NoDup|].
    split; [apply value_counts_keys_In|].
    intros row Hrow. apply in_map_iff in Hrow. destruct Hrow as ([k v] & <- & Hin).
    cbn [Count spp_Condition spp_Percent_Total fst snd].
    apply value_counts_In in Hin. destruct Hin as [Hk ->].
    split; [reflexivity|]. split; [reflexivity|].
    fold (Spec.observed spp quality_data) in *.
    fold (Spec.occurrences k (Spec.observed spp quality_data)).
    pose proof (occurrences_bounds k (Spec.observed spp quality_data)) as [Hlo Hhi].
    set (count := Spec.occurrences k (Spec.observed spp quality_data)) in *.
    set (total := Z.of_nat (List.length (Spec.observed spp quality_data))) in *.
    assert (0 < total) as Hpos.
    { unfold total. destruct (Spec.observed spp quality_data); [destruct Hk|].
      simpl List.length. lia. }
    destruct (read_percent_close (percent64 count total)) as (shown & Hread & Hclose);
      [now apply percent64_nonneg|].
    exists shown. split; [exact Hread|].
    pose proof (percent64_error count total Hlo Hpos) as Herr.
    pose proof (ratio_nonneg count total Hlo Hpos) as Hx.
    assert (inject_Z count / inject_Z total <= 1)%Q as Hx1.
    { apply Qle_shift_div_r.
      - change 0%Q with (inject_Z 0). now rewrite <- Zlt_Qlt.
      - rewrite Qmult_1_l. now rewrite <- Zle_Qle. }
    set (x := (inject_Z count / inject_Z total)%Q) in *.
    set (p := percent64 count total) in *.
    unfold binary64_unit in Herr.
    apply Qabs_Qle_condition in Herr, Hclose. apply Qabs_Qle_condition.
    split; lra.
Qed.

Lemma percent_sum_law_witness :
  rate_table spp_scenario <> []
  /\ (exists rows,
         rate_df64 spp_scenario = Ok rows
         /\ (Qabs (Qsum (somes (map Percent_Total rows)) - 100) <= 1 # 1000000)%Q)
  /\ spp_table spp_scenario
     = Ok [ mkSpp "Anomaly" 137 "85.62%"; mkSpp "Good" 23 "14.37%" ]
  /\ exists shown,
      Spec.read_percent "14.37%" = Some shown
      /\ (Qabs (shown - inject_Z 23 / inject_Z 160 * 100)
          <= (1 # 200) + (1 # 1000000000000))%Q.
Proof.
  assert (rate_table spp_scenario <> []) as Hne by (vm_compute; discriminate).
  assert (spp_table spp_scenario
          = Ok [ mkSpp "Anomaly" 137 "85.62%"; mkSpp "Good" 23 "14.37%" ]) as Hspp
      by (vm_compute; reflexivity).
  destruct (percent_sum_law spp_scenario) as [Hrate (rows & Hrun & _ & _ & _ & Hrows)].
  split; [exact Hne|]. split.
  - destruct (Hrate Hne) as (_ & rows64 & Hrun64 & _ & _ & _ & Hsum).
    exists rows64. split; [exact Hrun64 | exact Hsum].
  - split; [exact Hspp|].
    rewrite Hspp in Hrun. inversion Hrun as [Erows].
    destruct (Hrows (mkSpp "Good" 23 "14.37%")) as (_ & _ & Hshown).
    + rewrite <- Erows. right. left. reflexivity.
    + rewrite <- Erows in Hshown. exact Hshown.
Defined.



(** ** Facts about the scripts beyond the estimation and summary formulas *)

(** *** Dictionary assignment *)

Section DictSet.
Context {V : Type}.

Lemma get_set_same (d : dict V) (k : string) (v : V) :
  get (dict_set d k v) k = Some v.
Proof.
  induction d as [|[k' v'] d IH]; simpl.
  - now rewrite String.eqb_refl.
  - destruct (String.eqb_spec k' k) as [->|Hne]; simpl.
    + now rewrite String.eqb_refl.
    + destruct (String.eqb_spec k' k); [contradiction | exact IH].
Qed.

Lemma get_set_other (d : dict V) (k k' : string) (v : V) :
  k' <> k -> get (dict_set d k v) k' = get d k'.
Proof.
  intros Hne. induction d as [|[k0 v0] d IH]; simpl.
  - destruct (String.eqb_spec k k'); [congruence | reflexivity].
  - destruct (String.eqb_spec k0 k) as [->|Hk]; simpl.
    + destruct (String.eqb_spec k k'); [congruence | reflexivity].
    + now rewrite IH.
Qed.

Lemma keys_set_in (d : dict V) (k : string) (v : V) :
  In k (keys d) -> keys (dict_set d k v) = keys d.
Proof.
  induction d as [|[k0 v0] d IH]; simpl; [intros []|].
  destruct (String.eqb_spec k0 k) as [->|Hk]; simpl; [reflexivity|].
  intros [E|Hin]; [contradiction|]. f_equal. now apply IH.
Qed.

Lemma keys_set_notin (d : dict V) (k : string) (v : V) :
  ~ In k (keys d) -> keys (dict_set d k v) = (keys d ++ [k])%list.
Proof.
  induction d as [|[k0 v0] d IH]; simpl; [reflexivity|].
  intros Hn. destruct (String.eqb_spec k0 k) as [->|Hk]; simpl; [tauto|].
  f_equal. apply IH. tauto.
Qed.

Lemma keys_set_In (d : dict V) (k k' : string) (v : V) :
  In k' (keys (dict_set d k v)) <-> k' = k \/ In k' (keys d).
Proof.
  destruct (in_dec string_dec k (keys d)) as [Hin|Hn].
  - rewrite keys_set_in by assumption. split; [tauto|]. intros [->|H]; assumption.
  - rewrite keys_set_notin by assumption. rewrite in_app_iff. simpl.
    split; [intros [H|[<-|[]]]; auto | intros [->|H]; auto].
Qed.

Lemma keys_set_NoDup (d : dict V) (k : string) (v : V) :
  NoDup (keys d) -> NoDup (keys (dict_set d k v)).
Proof.
  intros Hnd. destruct (in_dec string_dec k (keys d)) as [Hin|Hn].
  - now rewrite keys_set_in.
  - rewrite keys_set_notin by assumption.
    apply NoDup_app; [assumption | repeat constructor; intros [] |].
    intros x Hx [<-|[]]. contradiction.
Qed.

Lemma get_del_same (d : dict V) (k : string) : get (dict_del d k) k = None.
Proof.
  apply get_None. unfold dict_del, keys. intros Hin.
  apply in_map_iff in Hin. destruct Hin as ([k0 v0] & E & Hin).
  apply filter_In in Hin. simpl in *. subst k0.
  rewrite String.eqb_refl in Hin. destruct Hin; discriminate.
Qed.

Lemma get_del_other (d : dict V) (k k' : string) :
  k' <> k -> get (dict_del d k) k' = get d k'.
Proof.
  intros Hne. induction d as [|[k0 v0] d IH]; simpl; [reflexivity|].
  destruct (String.eqb_spec k0 k) as [->|Hk]; simpl.
  - destruct (String.eqb_spec k k'); [congruence | exact IH].
  - now rewrite IH.
Qed.

End DictSet.

(** *** Document ids *)

Lemma has_char_app (c : ascii) (a b : string) :
  has_char c (a ++ b) = has_char c a || has_char c b.
Proof.
  induction a as [|x a IH]; simpl; [reflexivity|].
  now rewrite IH, orb_assoc.
Qed.

(** A string splits in one way only at the last occurrence of a character. *)
Lemma split_at_last (c : ascii) (a1 a2 d1 d2 : string) :
  has_char c d1 = false -> has_char c d2 = false ->
  a1 ++ String c d1 = a2 ++ String c d2 -> a1 = a2 /\ d1 = d2.
Proof.
  intros H1 H2. revert a2.
  induction a1 as [|x a1 IH]; intros [|y a2]; simpl; intros E.
  - inversion E. now split.
  - inversion E; subst. rewrite has_char_app in H1. simpl in H1.
    rewrite Ascii.eqb_refl, orb_true_r in H1. discriminate.
  - inversion E; subst. rewrite has_char_app in H2. simpl in H2.
    rewrite Ascii.eqb_refl, orb_true_r in H2. discriminate.
  - inversion E; subst. destruct (IH a2) as [-> ->]; [assumption | now split].
Qed.

Lemma append_assoc (a b c : string) : (a ++ b) ++ c = a ++ b ++ c.
Proof. induction a as [|x a IH]; simpl; [reflexivity | now rewrite IH]. Qed.

Lemma append_length (a b : string) :
  String.length (a ++ b) = (String.length a + String.length b)%nat.
Proof. induction a as [|x a IH]; simpl; [reflexivity | now rewrite IH]. Qed.

Lemma append_cancel_r (a1 a2 b : string) : a1 ++ b = a2 ++ b -> a1 = a2.
Proof.
  revert a2. induction a1 as [|x a1 IH]; intros [|y a2]; simpl; intros E.
  - reflexivity.
  - apply (f_equal String.length) in E. simpl in E. rewrite append_length in E. lia.
  - apply (f_equal String.length) in E. simpl in E. rewrite append_length in E. lia.
  - inversion E; subst. f_equal. now apply IH.
Qed.

Lemma uint_no_underscore (d : Decimal.uint) :
  has_char "_" (DecimalString.NilEmpty.string_of_uint d) = false.
Proof. induction d; simpl; auto. Qed.

Lemma py_str_int_no_underscore (n : Z) : has_char "_" (py_str_int n) = false.
Proof.
  unfold py_str_int, DecimalString.NilZero.string_of_int,
    DecimalString.NilZero.string_of_uint.
  destruct (Z.to_int n) as [d|d]; destruct d; simpl;
    try reflexivity; apply uint_no_underscore.
Qed.

Lemma py_str_int_inj (n m : Z) : py_str_int n = py_str_int m -> n = m.
Proof.
  unfold py_str_int. intros E.
  assert (forall z, Z.to_int z <> Decimal.Pos Decimal.Nil
                    /\ Z.to_int z <> Decimal.Neg Decimal.Nil) as Hnn.
  { intros [|p|p]; simpl; split; try discriminate;
      intros H; inversion H as [H']; now apply DecimalPos.Unsigned.to_uint_nonnil in H'. }
  apply (f_equal DecimalString.NilZero.int_of_string) in E.
  rewrite !DecimalString.NilZero.isi in E by apply Hnn.
  inversion E as [E']. apply (f_equal Z.of_int) in E'.
  now rewrite !DecimalZ.of_to in E'.
Qed.

Lemma doc_id_inj (well well' : string) (stage stage' : Z) :
  doc_id well stage = doc_id well' stage' <-> well = well' /\ stage = stage'.
Proof.
  split; [|now intros [-> ->]].
  assert (forall w n, doc_id w n = (w ++ "_stage") ++ String "_" (py_str_int n)) as Hid
      by (intros w n; unfold doc_id; now rewrite append_assoc).
  rewrite !Hid. intros E.
  apply split_at_last in E; try apply py_str_int_no_underscore.
  destruct E as [Ew Es]. split.
  - now apply append_cancel_r in Ew.
  - now apply py_str_int_inj.
Qed.

(** X1.  The document id [f"{well}_stage_{stage}"] determines the well name
    and the stage number: two ids are equal only for the same well and the
    same stage, whatever characters the well names hold.  It is the id of a
    quality entry, and the id of an uploaded row whose well name is text and
    whose stage is an integer. *)
Theorem stage_ids_distinct (well well' : string) (stage stage' : Z) :
  (doc_id well stage = doc_id well' stage' <-> well = well' /\ stage = stage')
  /\ (forall int_ str_,
         Upload.row_id int_ str_ (VStr well) (VInt stage) = Ok (doc_id well stage))
  /\ (forall quality e,
         Checklist.qc_well e = well -> Checklist.qc_stage e = stage ->
         In (doc_id well stage) (keys (Checklist.save_entry quality e))).
Proof.
  split; [apply doc_id_inj|]. split; [reflexivity|].
  intros quality e <- <-. unfold Checklist.save_entry. apply keys_set_In. now left.
Qed.

Lemma stage_ids_distinct_witness :
  doc_id "A_stage_1" 2 <> doc_id "A" 12
  /\ In (doc_id "B" 2) (keys (Checklist.save_entry [] Checklist.entry_good)).
Proof.
  destruct (stage_ids_distinct "A_stage_1" "A" 2 12) as (Hinj & _ & _).
  destruct (stage_ids_distinct "B" "B" 2 2) as (_ & _ & Hkey).
  split.
  - intros E. apply Hinj in E. destruct E; discriminate.
  - apply Hkey; reflexivity.
Defined.

(** *** The quality checklist *)

Lemma save_entries_snoc (quality : dict Checklist.QualityDoc)
  (es : list Checklist.Entry) (e : Checklist.Entry) :
  Checklist.save_entries quality (es ++ [e])%list
  = Checklist.save_entry (Checklist.save_entries quality es) e.
Proof. unfold Checklist.save_entries. now rewrite fold_left_app. Qed.


Lemma save_entries_get (quality : dict Checklist.QualityDoc)
  (es : list Checklist.Entry) (w : string) (s : Z) :
  get (Checklist.save_entries quality es) (doc_id w s)
  = match Checklist.last_saved w s es with
    | Some e => Some (Checklist.entry_doc e)
    | None => get quality (doc_id w s)
    end.
Proof.
  induction es as [|e es IH] using rev_ind; [reflexivity|].
  rewrite save_entries_snoc. unfold Checklist.last_saved.
  rewrite rev_app_distr. simpl.
  destruct (String.eqb_spec (Checklist.qc_well e) w) as [Ew|Ew]; simpl.
  - destruct (Z.eqb_spec (Checklist.qc_stage e) s) as [Es|Es].
    + unfold Checklist.save_entry. rewrite Ew, Es. apply get_set_same.
    + unfold Checklist.save_entry. rewrite get_set_other; [exact IH|].
      intros E. apply doc_id_inj in E. destruct E; congruence.
  - unfold Checklist.save_entry. rewrite get_set_other; [exact IH|].
    intros E. apply doc_id_inj in E. destruct E; congruence.
Qed.

(** X2.  Saving quality entries is an upsert keyed by well and stage: after
    any sequence of saves the document of a (well, stage) pair is the one of
    the last entry saved for that pair, or the document that was there before
    when no entry was saved for it; and distinct document ids stay distinct. *)
Theorem quality_last_write_wins (quality : dict Checklist.QualityDoc)
  (es : list Checklist.Entry) (w : string) (s : Z) :
  get (Checklist.save_entries quality es) (doc_id w s)
  = match Checklist.last_saved w s es with
    | Some e => Some (Checklist.entry_doc e)
    | None => get quality (doc_id w s)
    end
  /\ (NoDup (keys quality) -> NoDup (keys (Checklist.save_entries quality es))).
Proof.
  split; [apply save_entries_get|]. intros Hnd.
  induction es as [|e es IH] using rev_ind; [exact Hnd|].
  rewrite save_entries_snoc. now apply keys_set_NoDup.
Qed.

Lemma quality_last_write_wins_witness :
  get (Checklist.save_entries []
         [Checklist.entry_bad; Checklist.entry_other; Checklist.entry_good])
      (doc_id "B" 2)
  = Some (Checklist.entry_doc Checklist.entry_good)
  /\ NoDup (keys (Checklist.save_entries []
                    [Checklist.entry_bad; Checklist.entry_other; Checklist.entry_good])).
Proof.
  destruct (quality_last_write_wins []
              [Checklist.entry_bad; Checklist.entry_other; Checklist.entry_good] "B" 2)
    as [Hget Hnd].
  split; [|apply Hnd; constructor].
  rewrite Hget. reflexivity.
Defined.

Lemma In_dict_set {V : Type} (d : dict V) (k k' : string) (v v' : V) :
  In (k', v') (dict_set d k v) -> (k' = k /\ v' = v) \/ In (k', v') d.
Proof.
  induction d as [|[k0 v0] d IH]; simpl.
  - intros [E|[]]. left. now inversion E.
  - destruct (String.eqb_spec k0 k) as [->|Hk]; simpl.
    + intros [E|H]; [left; now inversion E | now right; right].
    + intros [E|H]; [now right; left|]. destruct (IH H); [now left | now right; right].
Qed.

Lemma save_entries_docs (es : list Checklist.Entry) (k : string)
  (d : Checklist.QualityDoc) :
  In (k, d) (Checklist.save_entries [] es) ->
  exists e, In e es /\ d = Checklist.entry_doc e.
Proof.
  induction es as [|e es IH] using rev_ind; [intros []|].
  rewrite save_entries_snoc. unfold Checklist.save_entry. intros H.
  apply In_dict_set in H. destruct H as [[_ ->]|H].
  - exists e. split; [apply in_or_app; right; now left | reflexivity].
  - destruct (IH H) as (e' & He' & ->). exists e'.
    split; [apply in_or_app; now left | reflexivity].
Qed.

Lemma last_saved_Some (w : string) (s : Z) (es : list Checklist.Entry) (e : Checklist.Entry) :
  In e es -> Checklist.qc_well e = w -> Checklist.qc_stage e = s ->
  exists e', Checklist.last_saved w s es = Some e' /\ Checklist.qc_well e' = w.
Proof.
  intros Hin Hw Hs. unfold Checklist.last_saved.
  destruct (find _ (rev es)) as [e'|] eqn:E.
  - exists e'. split; [reflexivity|]. apply find_some in E. destruct E as [_ E].
    apply andb_true_iff in E. destruct E as [E _]. now apply String.eqb_eq.
  - exfalso. apply in_rev in Hin. pose proof (find_none _ _ E e Hin) as H.
    simpl in H. rewrite Hw, Hs, String.eqb_refl, Z.eqb_refl in H. discriminate.
Qed.

(** X3.  Whatever entries were saved through the checklist form, the
    viewer's quality summary of any well raises nothing: it shows the warning
    exactly when no entry was saved for the well, and both tables otherwise. *)
Theorem saved_entries_summarize (es : list Checklist.Entry) (selected_well : string) :
  let stored := Checklist.stored_entries (Checklist.save_entries [] es) in
  ((forall e, In e es -> Checklist.qc_well e <> selected_well) ->
   quality_summary stored selected_well = Ok NoData)
  /\ ((exists e, In e es /\ Checklist.qc_well e = selected_well) ->
      exists rate spp,
        quality_summary stored selected_well = Ok (Tables rate spp)
        /\ rate <> []).
Proof.
  intros stored. split.
  - intros Hnone. unfold quality_summary.
    destruct (filter (fun d => String.eqb (well d) selected_well) stored)
      as [|q l] eqn:E; [reflexivity|]. exfalso.
    assert (In q (filter (fun d => String.eqb (well d) selected_well) stored)) as Hq
        by (rewrite E; now left).
    apply filter_In in Hq. destruct Hq as [Hq Hw].
    unfold stored, Checklist.stored_entries in Hq. apply in_map_iff in Hq.
    destruct Hq as ([k d] & <- & Hin). apply save_entries_docs in Hin.
    destruct Hin as (e & He & ->). simpl in Hw. apply String.eqb_eq in Hw.
    now apply (Hnone e).
  - intros (e & He & Hw). unfold quality_summary.
    set (data := filter (fun d => String.eqb (well d) selected_well) stored).
    destruct (last_saved_Some selected_well (Checklist.qc_stage e) es e He Hw eq_refl)
      as (e' & Hlast & Hw').
    assert (In (Checklist.qd_entry (Checklist.entry_doc e')) data) as Hin.
    { unfold data. apply filter_In. split.
      - unfold stored, Checklist.stored_entries.
        apply in_map_iff.
        exists (doc_id selected_well (Checklist.qc_stage e), Checklist.entry_doc e').
        split; [reflexivity|]. apply get_Some_In.
        rewrite (save_entries_get [] es selected_well (Checklist.qc_stage e)).
        now rewrite Hlast.
      - simpl. rewrite Hw'. apply String.eqb_refl. }
    destruct (summarize_rates_cases data)
      as [[Hnil _]|[(_ & Htab & _)|(_ & Htab & rate & spp & Hrate & _ & Hrun)]].
    + rewrite Hnil in Hin. destruct Hin.
    + exfalso. apply (proj1 (rate_table_nonempty data)) in Htab; [assumption|].
      unfold Spec.observed. intros Happ. apply app_eq_nil in Happ. destruct Happ as [Hpre _].
      assert (In (Checklist.e_pre_sand e') (somes (map pre_sand data))) as Hobs.
      { apply somes_In. change (Some (Checklist.e_pre_sand e'))
          with (pre_sand (Checklist.qd_entry (Checklist.entry_doc e'))). now apply in_map. }
      rewrite Hpre in Hobs. destruct Hobs.
    + exists rate, spp. split; [exact Hrun|].
      destruct (rate_df_rows data Htab) as [_ Hrows]. rewrite Hrows in Hrate.
      inversion Hrate. intros Hnil. apply map_eq_nil in Hnil. contradiction.
Qed.

Lemma saved_entries_summarize_witness :
  quality_summary
    (Checklist.stored_entries
       (Checklist.save_entries []
          [Checklist.entry_bad; Checklist.entry_other; Checklist.entry_good])) "C"
  = Ok NoData
  /\ exists rate spp,
      quality_summary
        (Checklist.stored_entries
           (Checklist.save_entries []
              [Checklist.entry_bad; Checklist.entry_other; Checklist.entry_good])) "B"
      = Ok (Tables rate spp)
      /\ rate <> [].
Proof.
  split.
  - apply (proj1 (saved_entries_summarize
                    [Checklist.entry_bad; Checklist.entry_other; Checklist.entry_good] "C")).
    intros e [<-|[<-|[<-|[]]]]; discriminate.
  - apply (proj2 (saved_entries_summarize
                    [Checklist.entry_bad; Checklist.entry_other; Checklist.entry_good] "B")).
    exists Checklist.entry_good. split; [simpl; auto | reflexivity].
Defined.

(** X4.  When the saved entries hold values of the form's option lists, the
    rate table of a well has at most six rows, each for one of the six
    pre-sand and post-sand options, and the SPP table at most four rows, each
    for one of the four SPP options. *)
Theorem summary_rows_bounded (es : list Checklist.Entry) (selected_well : string)
  (rate : list RateRow) (spp : list SppRow) :
  (forall e, In e es ->
             In (Checklist.e_pre_sand e) Checklist.pre_options
             /\ In (Checklist.e_post_sand e) Checklist.post_options
             /\ In (Checklist.e_spp e) Checklist.spp_options) ->
  quality_summary (Checklist.stored_entries (Checklist.save_entries [] es)) selected_well
  = Ok (Tables rate spp) ->
  (List.length rate <= 6)%nat
  /\ (forall row, In row rate -> In (Condition (entry row)) Checklist.rate_options)
  /\ (List.length spp <= 4)%nat
  /\ (forall row, In row spp -> In (spp_Condition row) Checklist.spp_options).
Proof.
  intros Hopt Hrun. unfold quality_summary in Hrun.
  set (data := filter (fun d => String.eqb (well d) selected_well)
                 (Checklist.stored_entries (Checklist.save_entries [] es))) in Hrun.
  assert (forall q, In q data ->
                    exists e, In e es /\ q = Checklist.qd_entry (Checklist.entry_doc e))
    as Hdata.
  { intros q Hq. apply filter_In in Hq. destruct Hq as [Hq _].
    unfold Checklist.stored_entries in Hq. apply in_map_iff in Hq.
    destruct Hq as ([k d] & <- & Hin). apply save_entries_docs in Hin.
    destruct Hin as (e & He & ->). now exists e. }
  assert (forall (field : QualityRecord -> option string) (opts : list string),
             (forall e, In e es ->
                        exists v, field (Checklist.qd_entry (Checklist.entry_doc e)) = Some v
                                  /\ In v opts) ->
             forall c, In c (Spec.observed field data) -> In c opts) as Hobs.
  { intros field opts Hf c Hc. unfold Spec.observed in Hc.
    apply somes_In, in_map_iff in Hc. destruct Hc as (q & Eq & Hq).
    destruct (Hdata q Hq) as (e & He & ->). destruct (Hf e He) as (v & Ev & Hv).
    congruence. }
  destruct (summarize_rates_cases data)
    as [[_ E]|[(_ & _ & E)|(_ & Htab & rate' & spp' & Hrate & Hspp & E)]];
    rewrite E in Hrun; try discriminate.
  inversion Hrun; subst rate' spp'. clear Hrun E.
  destruct (rate_df_rows data Htab) as [_ Hrows]. rewrite Hrows in Hrate.
  inversion Hrate as [Hr]. rewrite spp_table_rows in Hspp. inversion Hspp as [Hs].
  assert (incl (map Condition (rate_table data)) Checklist.rate_options) as Hincl.
  { intros c Hc. apply rate_conditions_In in Hc. destruct Hc as [Hc|Hc].
    - apply (Hobs pre_sand Checklist.pre_options) in Hc.
      + simpl in Hc. simpl. tauto.
      + intros e He. eexists. split; [reflexivity | apply Hopt, He].
    - apply (Hobs post_sand Checklist.post_options) in Hc.
      + simpl in Hc. simpl. tauto.
      + intros e He. eexists. split; [reflexivity | apply Hopt, He]. }
  assert (incl (keys (value_counts (map Quality.spp data))) Checklist.spp_options) as Hincl'.
  { intros c Hc. apply value_counts_keys_In in Hc.
    apply (Hobs Quality.spp Checklist.spp_options) in Hc; [assumption|].
    intros e He. eexists. split; [reflexivity | apply Hopt, He]. }
  split; [|split; [|split]].
  - rewrite length_map, <- (length_map Condition).
    apply (NoDup_incl_length (rate_conditions_NoDup data) Hincl).
  - intros row Hrow. apply in_map_iff in Hrow. destruct Hrow as (e & <- & He).
    simpl. apply Hincl. now apply in_map.
  - rewrite length_map, <- (length_map fst).
    apply (NoDup_incl_length (value_counts_NoDup _) Hincl').
  - intros row Hrow. apply in_map_iff in Hrow. destruct Hrow as ([k v] & <- & Hkv).
    simpl. apply Hincl'. change k with (fst (k, v)). now apply in_map.
Qed.

Lemma summary_rows_bounded_witness :
  exists rate spp,
    quality_summary
      (Checklist.stored_entries
         (Checklist.save_entries []
            [Checklist.entry_bad; Checklist.entry_other; Checklist.entry_good])) "B"
    = Ok (Tables rate spp)
    /\ (List.length rate <= 6)%nat /\ (List.length spp <= 4)%nat.
Proof.
  destruct (quality_summary
              (Checklist.stored_entries
                 (Checklist.save_entries []
                    [Checklist.entry_bad; Checklist.entry_other; Checklist.entry_good]))
              "B") as [[|rate spp]|x] eqn:E.
  - vm_compute in E. discriminate.
  - exists rate, spp. split; [reflexivity|].
    destruct (summary_rows_bounded
                [Checklist.entry_bad; Checklist.entry_other; Checklist.entry_good]
                "B" rate spp) as (Hr & _ & Hs & _).
    + intros e [<-|[<-|[<-|[]]]]; simpl; tauto.
    + exact E.
    + now split.
  - vm_compute in E. discriminate.
Defined.

(** *** Stage numbers offered by the checklist *)

Lemma py_range_In (a b s : Z) : In s (py_range a b) <-> a <= s < b.
Proof.
  unfold py_range. rewrite in_map_iff. split.
  - intros (i & <- & Hi). apply in_seq in Hi. lia.
  - intros H. exists (Z.to_nat (s - a)). split; [lia|]. apply in_seq. lia.
Qed.

Lemma py_range_NoDup (a b : Z) : NoDup (py_range a b).
Proof.
  unfold py_range. apply Finite.Injective_map_NoDup; [|apply seq_NoDup].
  intros i j. lia.
Qed.

(** X5.  For a declared well the checklist offers exactly the stage numbers
    from 1 to the declared stage count, each once: as many as the count, none
    when the count is not positive.  A well that is not declared is a
    [KeyError]. *)
Theorem stage_options_range (wells : dict Z) (qc_well : string) :
  (forall n, get wells qc_well = Some n ->
             exists options,
               Checklist.stage_options wells qc_well = Ok options
               /\ (forall s, In s options <-> 1 <= s <= n)
               /\ NoDup options
               /\ List.length options = Z.to_nat n)
  /\ (get wells qc_well = None ->
      Checklist.stage_options wells qc_well = Raise (KeyError qc_well)).
Proof.
  unfold Checklist.stage_options, Viewer.index. split.
  - intros n ->. simpl. eexists. split; [reflexivity|]. split; [|split].
    + intros s. rewrite py_range_In. lia.
    + apply py_range_NoDup.
    + unfold py_range. rewrite length_map, length_seq. lia.
  - now intros ->.
Qed.

Lemma stage_options_range_witness :
  exists options,
    Checklist.stage_options scenario_wells "A" = Ok options
    /\ (forall s, In s options <-> 1 <= s <= 3)
    /\ NoDup options
    /\ List.length options = 3%nat.
Proof.
  apply (proj1 (stage_options_range scenario_wells "A") 3). reflexivity.
Defined.

(** *** The job form *)

Lemma dict_set_notin {V : Type} (d : dict V) (k : string) (v : V) :
  ~ In k (keys d) -> dict_set d k v = (d ++ [(k, v)])%list.
Proof.
  induction d as [|[k0 v0] d IH]; simpl; [reflexivity|].
  intros Hn. destruct (String.eqb_spec k0 k) as [->|Hk]; [tauto|].
  f_equal. apply IH. tauto.
Qed.

Lemma form_wells_snoc (entries : list (string * Z)) (e : string * Z) :
  JobForm.form_wells (entries ++ [e])%list
  = dict_set (JobForm.form_wells entries) (fst e) (snd e).
Proof. unfold JobForm.form_wells. now rewrite fold_left_app. Qed.

Lemma unique_from_snoc (seen l : list string) (x : string) :
  unique_from String.eqb seen (l ++ [x])%list
  = (unique_from String.eqb seen l
     ++ if mem String.eqb x seen || mem String.eqb x l then [] else [x])%list.
Proof.
  revert seen. induction l as [|y l IH]; intros seen; simpl.
  - rewrite orb_false_r. destruct (mem String.eqb x seen); reflexivity.
  - destruct (mem String.eqb y seen) eqn:Ey.
    + rewrite IH. f_equal.
      destruct (String.eqb_spec x y) as [->|Hne]; simpl; [|reflexivity].
      now rewrite Ey.
    + simpl. rewrite IH. do 2 f_equal. simpl.
      destruct (String.eqb x y), (mem String.eqb x seen); reflexivity.
Qed.

Lemma form_wells_keys (entries : list (string * Z)) :
  keys (JobForm.form_wells entries) = unique String.eqb (map fst entries).
Proof.
  induction entries as [|e entries IH] using rev_ind; [reflexivity|].
  rewrite form_wells_snoc, map_app. simpl. unfold unique.
  rewrite unique_from_snoc. fold (unique String.eqb (map fst entries)). simpl.
  destruct (mem String.eqb (fst e) (map fst entries)) eqn:E.
  - rewrite app_nil_r, keys_set_in; [exact IH|].
    rewrite IH, unique_In by apply String.eqb_eq.
    now apply (mem_In String.eqb String.eqb_eq).
  - rewrite keys_set_notin; [now rewrite IH|].
    rewrite IH, unique_In by apply String.eqb_eq.
    rewrite <- (mem_In String.eqb String.eqb_eq). congruence.
Qed.

(** X6.  The declared wells of a saved job have distinct names, in the order
    in which the names first appear in the form; a name entered in several
    rows keeps the stage count of the last of them, so the job can hold fewer
    wells than the form has rows.  With distinct names the declared wells are
    the rows of the form. *)
Theorem form_wells_last_count (entries : list (string * Z)) :
  NoDup (keys (JobForm.form_wells entries))
  /\ keys (JobForm.form_wells entries) = unique String.eqb (map fst entries)
  /\ (forall name, get (JobForm.form_wells entries) name = get (rev entries) name)
  /\ (List.length (JobForm.form_wells entries) <= List.length entries)%nat
  /\ (NoDup (map fst entries) -> JobForm.form_wells entries = entries).
Proof.
  split; [|split; [|split; [|split]]].
  - rewrite form_wells_keys. apply unique_NoDup, String.eqb_eq.
  - apply form_wells_keys.
  - intros name. induction entries as [|[k v] entries IH] using rev_ind; [reflexivity|].
    rewrite form_wells_snoc, rev_app_distr. simpl.
    destruct (String.eqb_spec k name) as [->|Hne].
    + apply get_set_same.
    + rewrite get_set_other by congruence. exact IH.
  - induction entries as [|e entries IH] using rev_ind; [simpl; lia|].
    rewrite form_wells_snoc, length_app. simpl.
    rewrite <- (length_map fst (dict_set _ _ _)). fold (keys (dict_set (JobForm.form_wells entries) (fst e) (snd e))).
    destruct (in_dec string_dec (fst e) (keys (JobForm.form_wells entries))) as [Hin|Hn].
    + rewrite keys_set_in by assumption. unfold keys. rewrite length_map. lia.
    + rewrite keys_set_notin by assumption. rewrite length_app. unfold keys.
      rewrite length_map. simpl. lia.
  - induction entries as [|[k v] entries IH] using rev_ind; [reflexivity|].
    intros Hnd. rewrite map_app in Hnd. simpl in Hnd.
    apply NoDup_remove in Hnd. rewrite app_nil_r in Hnd. destruct Hnd as [Hnd Hnotin].
    rewrite form_wells_snoc, IH by assumption. simpl.
    now apply dict_set_notin.
Qed.

Lemma form_wells_last_count_witness :
  JobForm.form_wells [("A-1H", 40); ("B-2H", 55); ("C-3H", 60)]
  = [("A-1H", 40); ("B-2H", 55); ("C-3H", 60)]
  /\ JobForm.form_wells (JobForm.f_entries JobForm.pad_form)
     = [("A-1H", 42); ("B-2H", 55); ("C-3H", 60)].
Proof.
  split; [|reflexivity].
  apply (form_wells_last_count [("A-1H", 40); ("B-2H", 55); ("C-3H", 60)]).
  simpl. repeat constructor; simpl; intuition discriminate.
Defined.

(** X7.  The solo wells are the declared wells that are not in the simul
    group, in declaration order; when the simul group is picked among the
    declared wells, each at most once, every declared well is in exactly one
    of the two lists. *)
Theorem solo_wells_partition (wells : dict Z) (simul_group : list string) :
  NoDup (keys wells) -> NoDup simul_group -> incl simul_group (keys wells) ->
  (forall w, In w (JobForm.solo_of wells simul_group)
             <-> In w (keys wells) /\ ~ In w simul_group)
  /\ Permutation (simul_group ++ JobForm.solo_of wells simul_group) (keys wells)
  /\ (List.length simul_group + List.length (JobForm.solo_of wells simul_group)
      = List.length wells)%nat.
Proof.
  intros Hk Hs Hincl.
  assert (forall w, In w (JobForm.solo_of wells simul_group)
                    <-> In w (keys wells) /\ ~ In w simul_group) as Hsolo.
  { intros w. unfold JobForm.solo_of. rewrite filter_In, negb_true_iff.
    pose proof (mem_In String.eqb String.eqb_eq w simul_group) as Hmem.
    destruct (mem String.eqb w simul_group); split; intros [H E];
      split; try assumption; try reflexivity.
    - discriminate.
    - exfalso. apply E, Hmem. reflexivity.
    - intros Hin. apply Hmem in Hin. discriminate. }
  assert (Permutation (simul_group ++ JobForm.solo_of wells simul_group) (keys wells))
    as Hperm.
  { apply NoDup_Permutation; [|assumption|].
    - apply NoDup_app; [assumption | now apply NoDup_filter |].
      intros w Hw Hw'. apply Hsolo in Hw'. tauto.
    - intros w. rewrite in_app_iff, Hsolo. split.
      + intros [H|[H _]]; [now apply Hincl | assumption].
      + intros H. destruct (in_dec string_dec w simul_group); tauto. }
  split; [exact Hsolo|]. split; [exact Hperm|].
  rewrite <- length_app, (Permutation_length Hperm). unfold keys. apply length_map.
Qed.

Lemma solo_wells_partition_witness :
  Permutation
    (["B-2H"] ++ JobForm.solo_of (JobForm.form_wells (JobForm.f_entries JobForm.pad_form))
                   ["B-2H"])
    ["A-1H"; "B-2H"; "C-3H"].
Proof.
  apply (solo_wells_partition
           (JobForm.form_wells (JobForm.f_entries JobForm.pad_form)) ["B-2H"]).
  - simpl. repeat constructor; simpl; intuition discriminate.
  - repeat constructor. intros [].
  - intros w [<-|[]]. simpl. auto.
Defined.

Lemma truthy_spec (s : string) : JobForm.truthy s = true <-> s <> "".
Proof.
  unfold JobForm.truthy. destruct (String.eqb_spec s ""); simpl; split;
    congruence.
Qed.

(** X8.  Submitting the job form never changes or removes a stored job.  A
    job is saved exactly when the form was submitted with a job number, an
    operator and a pad that are not blank, at least one well, and a job number
    that is not stored yet; the stored job then holds the entered values.  A
    stored job number is rejected and the store left as it was. *)
Theorem submit_keeps_stored_jobs
  (jobs : dict JobForm.Job) (form : JobForm.Form) (submitted : bool) (now : Z) :
  let after := fst (JobForm.submit jobs form submitted now) in
  let result := snd (JobForm.submit jobs form submitted now) in
  (forall id job, get jobs id = Some job -> get after id = Some job)
  /\ (result = JobForm.Saved
      <-> submitted = true /\ JobForm.f_job_id form <> "" /\ JobForm.f_operator form <> ""
          /\ JobForm.f_pad form <> "" /\ JobForm.f_entries form <> []
          /\ get jobs (JobForm.f_job_id form) = None)
  /\ (result = JobForm.Saved ->
      exists job,
        get after (JobForm.f_job_id form) = Some job
        /\ JobForm.job_id job = JobForm.f_job_id form
        /\ JobForm.wells job = JobForm.form_wells (JobForm.f_entries form)
        /\ JobForm.solo_wells job
           = JobForm.solo_of (JobForm.wells job) (JobForm.f_simul_group form)
        /\ JobForm.created job = now)
  /\ (result <> JobForm.Saved -> after = jobs).
Proof.
  unfold JobForm.submit.
  assert (negb (Nat.eqb (List.length (JobForm.form_wells (JobForm.f_entries form))) 0)
          = true <-> JobForm.f_entries form <> []) as Hwells.
  { destruct (JobForm.f_entries form) as [|e l] eqn:E; simpl.
    - split; [discriminate | congruence].
    - split; [discriminate|]. intros _.
      destruct (JobForm.form_wells (e :: l)) as [|x d] eqn:F; [|reflexivity].
      exfalso. assert (In (fst e) (keys (JobForm.form_wells (e :: l)))) as Hin.
      { rewrite form_wells_keys, unique_In by apply String.eqb_eq. now left. }
      rewrite F in Hin. destruct Hin. }
  destruct (submitted && JobForm.truthy (JobForm.f_job_id form)
            && JobForm.truthy (JobForm.f_operator form)
            && JobForm.truthy (JobForm.f_pad form)
            && negb (Nat.eqb (List.length (JobForm.form_wells (JobForm.f_entries form))) 0))
    eqn:G.
  - rewrite !andb_true_iff, !truthy_spec, Hwells in G.
    destruct G as [[[[Gs Gi] Go] Gp] Gw].
    destruct (get jobs (JobForm.f_job_id form)) as [old|] eqn:Eget; simpl.
    + split; [auto|]. split; [|split].
      * split; [discriminate | intros (_ & _ & _ & _ & _ & H); discriminate].
      * discriminate.
      * reflexivity.
    + split; [|split; [|split]].
      * intros id job Hid. rewrite get_set_other; [assumption | congruence].
      * split; [intros _; tauto | reflexivity].
      * intros _. eexists. split; [apply get_set_same|]. simpl. tauto.
      * congruence.
  - simpl. split; [auto|]. split; [|split].
    + split; [discriminate|]. intros (Gs & Gi & Go & Gp & Gw & _).
      exfalso. apply truthy_spec in Gi, Go, Gp. apply Hwells in Gw.
      rewrite Gs, Gi, Go, Gp, Gw in G. discriminate.
    + discriminate.
    + reflexivity.
Qed.

Lemma submit_keeps_stored_jobs_witness :
  exists job,
    get (fst (JobForm.submit [] JobForm.pad_form true 7)) "25-052" = Some job
    /\ JobForm.wells job = [("A-1H", 42); ("B-2H", 55); ("C-3H", 60)]
    /\ JobForm.solo_wells job = ["A-1H"; "C-3H"].
Proof.
  destruct (submit_keeps_stored_jobs [] JobForm.pad_form true 7)
    as (_ & Hiff & Hsaved & _).
  destruct Hsaved as (job & Hget & _ & Hwells & Hsolo & _).
  - apply Hiff. repeat split; discriminate.
  - exists job. split; [exact Hget|]. split.
    + rewrite Hwells. reflexivity.
    + rewrite Hsolo, Hwells. reflexivity.
Defined.

Lemma submit_saved (jobs : dict JobForm.Job) (form : JobForm.Form) (now : Z) :
  JobForm.f_job_id form <> "" -> JobForm.f_operator form <> "" ->
  JobForm.f_pad form <> "" -> JobForm.f_entries form <> [] ->
  get jobs (JobForm.f_job_id form) = None ->
  snd (JobForm.submit jobs form true now) = JobForm.Saved.
Proof.
  intros Hi Ho Hp Hw Hget. unfold JobForm.submit.
  apply truthy_spec in Hi, Ho, Hp. rewrite Hi, Ho, Hp, Hget. simpl.
  destruct (JobForm.form_wells (JobForm.f_entries form)) as [|x d] eqn:F; [|reflexivity].
  exfalso. destruct (JobForm.f_entries form) as [|e l]; [congruence|].
  assert (In (fst e) (keys (JobForm.form_wells (e :: l)))) as Hin.
  { rewrite form_wells_keys, unique_In by apply String.eqb_eq. now left. }
  rewrite F in Hin. destruct Hin.
Qed.

(** X9.  Deleting a job removes its document and no other; afterwards its
    job number is free again: a complete form with that number is saved, not
    rejected. *)
Theorem delete_frees_job_number
  (jobs : dict JobForm.Job) (form : JobForm.Form) (now : Z) :
  let id := JobForm.f_job_id form in
  let after := JobForm.delete_job jobs id in
  get after id = None
  /\ (forall id', id' <> id -> get after id' = get jobs id')
  /\ (id <> "" -> JobForm.f_operator form <> "" -> JobForm.f_pad form <> "" ->
      JobForm.f_entries form <> [] ->
      snd (JobForm.submit after form true now) = JobForm.Saved).
Proof.
  intros id after. unfold after, JobForm.delete_job. split; [|split].
  - apply get_del_same.
  - intros id' Hne. now apply get_del_other.
  - intros Hi Ho Hp Hw. apply submit_saved; try assumption. apply get_del_same.
Qed.

Lemma delete_frees_job_number_witness :
  snd (JobForm.submit
         (JobForm.delete_job (fst (JobForm.submit [] JobForm.pad_form true 7)) "25-052")
         JobForm.pad_form true 9)
  = JobForm.Saved.
Proof.
  apply (delete_frees_job_number (fst (JobForm.submit [] JobForm.pad_form true 7))
           JobForm.pad_form 9); discriminate.
Defined.

(** *** Storing uploaded stages *)

Section UploadRows.
Context {D : Type}.

Lemma write_rows_snoc (c : dict D) (rows : list (string * D)) (r : string * D) :
  Upload.write_rows c (rows ++ [r])%list
  = dict_set (Upload.write_rows c rows) (fst r) (snd r).
Proof. unfold Upload.write_rows. now rewrite fold_left_app. Qed.

Lemma write_rows_keys_In (c : dict D) (rows : list (string * D)) (k : string) :
  In k (keys (Upload.write_rows c rows)) <-> In k (keys c) \/ In k (map fst rows).
Proof.
  induction rows as [|r rows IH] using rev_ind; [simpl; tauto|].
  rewrite write_rows_snoc, keys_set_In, IH, map_app, in_app_iff. simpl.
  split; [intros [->|[H|H]]; auto | intros [H|[H|[<-|[]]]]; auto].
Qed.

Lemma write_rows_get_other (c : dict D) (rows : list (string * D)) (k : string) :
  ~ In k (map fst rows) -> get (Upload.write_rows c rows) k = get c k.
Proof.
  induction rows as [|r rows IH] using rev_ind; [reflexivity|].
  rewrite map_app, in_app_iff. simpl. intros Hn.
  rewrite write_rows_snoc, get_set_other; [apply IH; tauto|].
  intros E. apply Hn. right. left. congruence.
Qed.

Lemma write_rows_get_last (c : dict D) (rows : list (string * D)) (k : string) :
  In k (map fst rows) -> get (Upload.write_rows c rows) k = get (rev rows) k.
Proof.
  induction rows as [|[k0 d0] rows IH] using rev_ind; [intros []|].
  rewrite map_app, in_app_iff, write_rows_snoc, rev_app_distr. simpl. intros Hin.
  destruct (String.eqb_spec k0 k) as [->|Hne].
  - apply get_set_same.
  - rewrite get_set_other by congruence. apply IH. destruct Hin as [H|[H|[]]]; tauto.
Qed.

Lemma write_rows_NoDup (c : dict D) (rows : list (string * D)) :
  NoDup (keys c) -> NoDup (keys (Upload.write_rows c rows)).
Proof.
  intros Hnd. induction rows as [|r rows IH] using rev_ind; [exact Hnd|].
  rewrite write_rows_snoc. now apply keys_set_NoDup.
Qed.

Lemma new_rows_In (existing : list string) (rows : list (string * D)) (r : string * D) :
  In r (Upload.new_rows existing rows) <-> In r rows /\ ~ In (fst r) existing.
Proof.
  unfold Upload.new_rows. rewrite filter_In, negb_true_iff.
  pose proof (mem_In String.eqb String.eqb_eq (fst r) existing) as Hmem.
  destruct (mem String.eqb (fst r) existing); split; intros [H E];
    split; try assumption; try reflexivity.
  - discriminate.
  - exfalso. apply E, Hmem. reflexivity.
  - intros Hin. apply Hmem in Hin. discriminate.
Qed.

End UploadRows.

Lemma new_rows_of_stored {D : Type} (c : dict D) (rows : list (string * D)) :
  incl (map fst rows) (keys c) -> Upload.new_rows (keys c) rows = [].
Proof.
  intros Hincl. destruct (Upload.new_rows (keys c) rows) as [|r l] eqn:E; [reflexivity|].
  assert (In r (Upload.new_rows (keys c) rows)) as Hin by (rewrite E; now left).
  apply new_rows_In in Hin. destruct Hin as [Hr Hn]. exfalso. apply Hn, Hincl.
  now apply in_map.
Qed.

(** X10.  An upload never changes a stage document that is already stored,
    even when the sheet has a row with the same id; afterwards every row of
    the sheet has a document under its id, and a new id holds the data of the
    last row of the sheet with that id.  No other document appears. *)
Theorem upload_keeps_stored {D : Type} (stage_collection : dict D)
  (kpi_rows : list (string * D)) :
  let after := fst (Upload.upload stage_collection kpi_rows) in
  (forall id d, get stage_collection id = Some d -> get after id = Some d)
  /\ (forall r, In r kpi_rows -> In (fst r) (keys after))
  /\ (forall id, In id (map fst kpi_rows) -> ~ In id (keys stage_collection) ->
                 get after id = get (rev kpi_rows) id)
  /\ (forall id, In id (keys after) ->
                 In id (keys stage_collection) \/ In id (map fst kpi_rows)).
Proof.
  unfold Upload.upload. simpl.
  set (new_kpi := Upload.new_rows (keys stage_collection) kpi_rows).
  split; [|split; [|split]].
  - intros id d Hget. rewrite write_rows_get_other; [assumption|].
    intros Hin. apply in_map_iff in Hin. destruct Hin as (r & <- & Hr).
    apply new_rows_In in Hr. destruct Hr as [_ Hn]. apply Hn.
    destruct (in_dec string_dec (fst r) (keys stage_collection)) as [H|H]; [assumption|].
    apply get_None in H. congruence.
  - intros r Hr. apply write_rows_keys_In.
    destruct (in_dec string_dec (fst r) (keys stage_collection)) as [H|H]; [now left|].
    right. apply in_map. now apply new_rows_In.
  - intros id Hid Hnew. rewrite write_rows_get_last.
    + unfold new_kpi, Upload.new_rows. clear Hid.
      induction kpi_rows as [|[k d] rows IH] using rev_ind; [reflexivity|].
      rewrite filter_app, !rev_app_distr. simpl.
      destruct (String.eqb_spec k id) as [->|Hne].
      * assert (mem String.eqb id (keys stage_collection) = false) as Hm.
        { destruct (mem String.eqb id (keys stage_collection)) eqn:E; [|reflexivity].
          apply (mem_In String.eqb String.eqb_eq) in E. contradiction. }
        rewrite Hm. simpl. now rewrite String.eqb_refl.
      * destruct (mem String.eqb k (keys stage_collection)); simpl.
        -- destruct (String.eqb_spec k id); [contradiction | exact IH].
        -- destruct (String.eqb_spec k id); [contradiction | exact IH].
    + apply in_map_iff in Hid. destruct Hid as (r & <- & Hr).
      apply in_map. now apply new_rows_In.
  - intros id Hid. apply write_rows_keys_In in Hid. destruct Hid as [H|H]; [now left|].
    right. apply in_map_iff in H. destruct H as (r & <- & Hr).
    apply new_rows_In in Hr. apply in_map. tauto.
Qed.

Lemma upload_again {D : Type} (stage_collection : dict D)
  (kpi_rows : list (string * D)) :
  let after := fst (Upload.upload stage_collection kpi_rows) in
  Upload.upload after kpi_rows = (after, 0%nat).
Proof.
  intros after. unfold Upload.upload at 1.
  rewrite new_rows_of_stored; [reflexivity|].
  intros id Hid. apply in_map_iff in Hid. destruct Hid as (r & <- & Hr).
  unfold after, Upload.upload. simpl. apply write_rows_keys_In.
  destruct (in_dec string_dec (fst r) (keys stage_collection)) as [H|H]; [now left|].
  right. apply in_map. now apply new_rows_In.
Qed.

Section StoreNew.
Variable int_ : value -> result Z.
Variable str_ : value -> string.
Variable int_cells : list value -> result Z.
Variable str_cells : list value -> string.

(** With the two labels present once, the id of a row is [row_id] of its two
    cells. *)
Lemma id_of_row_cells (cols : list string) (r : nat * list value) (w s : nat) :
  column_position "Well Name" cols = Ok w ->
  column_position "Stage" cols = Ok s ->
  Upload.id_of_row int_ str_ int_cells str_cells cols r
  = Upload.row_id int_ str_ (cell w r) (cell s r).
Proof.
  unfold column_position, Upload.id_of_row, Upload.row_cells. intros Hw Hs.
  destruct (positions "Well Name" cols 0) as [|i [|]]; try discriminate.
  destruct (positions "Stage" cols 0) as [|j [|]]; try discriminate.
  inversion Hw. inversion Hs. subst. cbn [bind map].
  unfold Upload.row_id, Upload.int_of, Upload.text_of.
  destruct (cell s r); destruct (cell w r); reflexivity.
Qed.

Lemma row_ids_length (cols : list string) (kpi_rows : list (nat * list value))
  (ids : list string) :
  Upload.row_ids int_ str_ int_cells str_cells cols kpi_rows = Ok ids ->
  List.length ids = List.length kpi_rows.
Proof.
  revert ids. induction kpi_rows as [|r kpi_rows IH]; intros ids Hrun.
  - inversion Hrun. reflexivity.
  - cbn [Upload.row_ids] in Hrun.
    destruct (Upload.id_of_row int_ str_ int_cells str_cells cols r);
      cbn [bind] in Hrun; [|discriminate].
    destruct (Upload.row_ids int_ str_ int_cells str_cells cols kpi_rows);
      cbn [bind] in Hrun; [|discriminate].
    inversion Hrun. simpl. f_equal. now apply IH.
Qed.

Lemma assign_ids_rows (kpi_df : DataFrame) (ids : list string) :
  Upload.assign_ids int_ str_ int_cells str_cells kpi_df = Ok ids ->
  rows kpi_df <> [] /\ List.length ids = List.length (rows kpi_df).
Proof.
  unfold Upload.assign_ids. intros Hrun.
  destruct (rows kpi_df) as [|r kpi_rows] eqn:E; [discriminate|].
  split; [discriminate|]. now apply row_ids_length in Hrun.
Qed.

Lemma store_new_inv (stage_collection after : dict (dict value)) (kpi_df : DataFrame)
  (reported : nat) :
  Upload.store_new int_ str_ int_cells str_cells stage_collection kpi_df
  = Ok (after, reported) ->
  exists ids,
    Upload.assign_ids int_ str_ int_cells str_cells kpi_df = Ok ids
    /\ Upload.upload stage_collection
         (combine ids (map (Upload.row_data (columns kpi_df)) (rows kpi_df)))
       = (after, reported).
Proof.
  unfold Upload.store_new. intros Hrun.
  destruct (Upload.assign_ids int_ str_ int_cells str_cells kpi_df) as [ids|e];
    cbn [bind] in Hrun; [|discriminate].
  exists ids. split; [reflexivity | now inversion Hrun].
Qed.

End StoreNew.

Lemma combine_fst {A B : Type} (l : list A) (l' : list B) :
  List.length l = List.length l' -> map fst (combine l l') = l.
Proof.
  revert l'. induction l as [|a l IH]; intros [|b l'] H; simpl in *;
    try reflexivity; try discriminate.
  f_equal. apply IH. lia.
Qed.

Lemma filter_fst_length {A B : Type} (f : A -> bool) (l : list (A * B)) :
  List.length (filter (fun r => f (fst r)) l) = List.length (filter f (map fst l)).
Proof.
  induction l as [|r l IH]; simpl; [reflexivity|].
  destruct (f (fst r)); simpl; now rewrite IH.
Qed.

(** X11.  When an upload went through, uploading the same sheet a second
    time stores nothing and reports 0 new stages.  An upload goes through
    only for a sheet with at least one row: on a sheet without rows line 79
    raises [ValueError], nothing is stored and no message is shown. *)
Theorem upload_twice
  (int_ : value -> result Z) (str_ : value -> string)
  (int_cells : list value -> result Z) (str_cells : list value -> string)
  (stage_collection : dict (dict value)) (kpi_df : DataFrame) :
  (rows kpi_df = [] ->
   Upload.store_new int_ str_ int_cells str_cells stage_collection kpi_df
   = Raise ValueError)
  /\ forall after reported,
      Upload.store_new int_ str_ int_cells str_cells stage_collection kpi_df
      = Ok (after, reported) ->
      rows kpi_df <> []
      /\ Upload.store_new int_ str_ int_cells str_cells after kpi_df
         = Ok (after, 0%nat).
Proof.
  split.
  - intros Hrows. unfold Upload.store_new, Upload.assign_ids. now rewrite Hrows.
  - intros after reported Hrun.
    apply store_new_inv in Hrun. destruct Hrun as (ids & Hids & Hup).
    split; [now apply (assign_ids_rows int_ str_ int_cells str_cells kpi_df ids)|].
    unfold Upload.store_new. rewrite Hids. cbn [bind]. f_equal.
    pose proof (upload_again stage_collection
                  (combine ids (map (Upload.row_data (columns kpi_df)) (rows kpi_df))))
      as Hagain.
    cbv zeta in Hagain. rewrite Hup in Hagain. exact Hagain.
Qed.

Lemma upload_twice_witness :
  (rows Editor.empty_sheet = []
   /\ Upload.store_new Upload.int_unused Upload.text_unused
        Upload.int_unused Upload.text_unused Upload.stored_docs Editor.empty_sheet
      = Raise ValueError)
  /\ (Upload.store_new Upload.int_unused Upload.text_unused
        Upload.int_unused Upload.text_unused Upload.stored_docs Editor.pad_sheet
      = Ok (Editor.pad_docs, 2%nat)
      /\ Upload.store_new Upload.int_unused Upload.text_unused
           Upload.int_unused Upload.text_unused Editor.pad_docs Editor.pad_sheet
         = Ok (Editor.pad_docs, 0%nat)).
Proof.
  split.
  - split; [reflexivity|].
    apply (upload_twice Upload.int_unused Upload.text_unused
             Upload.int_unused Upload.text_unused Upload.stored_docs Editor.empty_sheet).
    reflexivity.
  - assert (Upload.store_new Upload.int_unused Upload.text_unused
              Upload.int_unused Upload.text_unused Upload.stored_docs Editor.pad_sheet
            = Ok (Editor.pad_docs, 2%nat)) as Hrun by reflexivity.
    split; [exact Hrun|].
    apply (proj2 (upload_twice Upload.int_unused Upload.text_unused
                    Upload.int_unused Upload.text_unused
                    Upload.stored_docs Editor.pad_sheet) _ _ Hrun).
Defined.

Lemma dict_set_length {V : Type} (d : dict V) (k : string) (v : V) :
  List.length (dict_set d k v)
  = if in_dec string_dec k (keys d) then List.length d else S (List.length d).
Proof.
  rewrite <- (length_map fst (dict_set d k v)), <- (length_map fst d).
  fold (keys (dict_set d k v)) (keys d).
  destruct (in_dec string_dec k (keys d)).
  - now rewrite keys_set_in.
  - rewrite keys_set_notin, length_app by assumption. simpl. lia.
Qed.

Lemma write_rows_length {D : Type} (c : dict D) (rows : list (string * D)) :
  (forall r, In r rows -> ~ In (fst r) (keys c)) ->
  (List.length c <= List.length (Upload.write_rows c rows)
   <= List.length c + List.length rows)%nat
  /\ (NoDup (map fst rows) ->
      List.length (Upload.write_rows c rows) = (List.length c + List.length rows)%nat).
Proof.
  induction rows as [|r rows IH] using rev_ind; intros Hnew.
  - simpl. split; [lia | intros _; lia].
  - rewrite write_rows_snoc, dict_set_length, length_app. simpl.
    destruct IH as [IHle IHeq].
    { intros r' Hr'. apply Hnew, in_or_app. now left. }
    destruct (in_dec string_dec (fst r) (keys (Upload.write_rows c rows))) as [Hin|Hn].
    + split; [lia|]. intros H. exfalso.
      rewrite map_app in H. simpl in H. apply NoDup_remove in H.
      rewrite app_nil_r in H. destruct H as [_ Hnotin].
      apply write_rows_keys_In in Hin. destruct Hin as [Hin|Hin]; [|contradiction].
      apply (Hnew r); [apply in_or_app; right; now left | assumption].
    + split; [lia|]. intros H. rewrite IHeq; [lia|].
      rewrite map_app in H. now apply NoDup_app_remove_r in H.
Qed.

Lemma upload_count_rows {D : Type} (stage_collection : dict D)
  (kpi_rows : list (string * D)) :
  let after := fst (Upload.upload stage_collection kpi_rows) in
  let reported := snd (Upload.upload stage_collection kpi_rows) in
  reported
  = List.length (filter (fun r => negb (mem String.eqb (fst r) (keys stage_collection)))
                   kpi_rows)
  /\ (List.length stage_collection <= List.length after
      <= List.length stage_collection + reported)%nat
  /\ (NoDup (map fst kpi_rows) ->
      List.length after = (List.length stage_collection + reported)%nat).
Proof.
  unfold Upload.upload. simpl.
  set (new_kpi := Upload.new_rows (keys stage_collection) kpi_rows).
  split; [reflexivity|].
  destruct (write_rows_length stage_collection new_kpi) as [Hle Heq].
  { intros r Hr. now apply new_rows_In in Hr. }
  split; [exact Hle|]. intros Hnd. apply Heq.
  unfold new_kpi, Upload.new_rows. clear -Hnd.
  induction kpi_rows as [|r rows IH]; simpl; [constructor|].
  inversion Hnd as [|? ? Hn Hnd']; subst.
  destruct (negb _); [|now apply IH]. simpl. constructor; [|now apply IH].
  intros Hin. apply Hn. apply in_map_iff in Hin. destruct Hin as (r' & E & Hr').
  apply filter_In in Hr'. rewrite <- E. apply in_map. tauto.
Qed.

(** X12.  When an upload goes through, the number of new stages it reports
    is the number of rows whose id was not stored before.  It is at least the
    number of documents the upload adds, and equal to it when the ids of the
    sheet's rows are distinct. *)
Theorem upload_count
  (int_ : value -> result Z) (str_ : value -> string)
  (int_cells : list value -> result Z) (str_cells : list value -> string)
  (stage_collection after : dict (dict value)) (kpi_df : DataFrame) (reported : nat) :
  Upload.store_new int_ str_ int_cells str_cells stage_collection kpi_df
  = Ok (after, reported) ->
  exists ids,
    Upload.assign_ids int_ str_ int_cells str_cells kpi_df = Ok ids
    /\ List.length ids = List.length (rows kpi_df)
    /\ reported
       = List.length (filter (fun id => negb (mem String.eqb id (keys stage_collection)))
                        ids)
    /\ (List.length stage_collection <= List.length after
        <= List.length stage_collection + reported)%nat
    /\ (NoDup ids ->
        List.length after = (List.length stage_collection + reported)%nat).
Proof.
  intros Hrun. apply store_new_inv in Hrun. destruct Hrun as (ids & Hids & Hup).
  exists ids. split; [exact Hids|].
  destruct (assign_ids_rows int_ str_ int_cells str_cells kpi_df ids Hids)
    as [_ Hlen].
  split; [exact Hlen|].
  set (kpi_rows := combine ids (map (Upload.row_data (columns kpi_df)) (rows kpi_df)))
    in *.
  assert (map fst kpi_rows = ids) as Hfst
      by (apply combine_fst; now rewrite length_map).
  destruct (upload_count_rows stage_collection kpi_rows) as (Hrep & Hle & Heq).
  rewrite Hup in Hrep, Hle, Heq. cbn [fst snd] in Hrep, Hle, Heq.
  split; [|split].
  - rewrite Hrep, <- Hfst.
    apply (filter_fst_length
             (fun id => negb (mem String.eqb id (keys stage_collection)))).
  - exact Hle.
  - intros Hnd. apply Heq. now rewrite Hfst.
Qed.

Lemma upload_keeps_stored_witness :
  get (fst (Upload.upload Upload.stored_stages Upload.sheet_rows)) "A_stage_1" = Some 10
  /\ get (fst (Upload.upload Upload.stored_stages Upload.sheet_rows)) "A_stage_2" = Some 21.
Proof.
  destruct (upload_keeps_stored Upload.stored_stages Upload.sheet_rows)
    as (Hkeep & _ & Hlast & _).
  split.
  - apply Hkeep. reflexivity.
  - rewrite Hlast; [reflexivity | simpl; auto |].
    simpl. intros [E|[]]. discriminate.
Defined.

Lemma upload_count_witness :
  Upload.store_new Upload.int_unused Upload.text_unused
    Upload.int_unused Upload.text_unused Upload.stored_docs Editor.pad_sheet
  = Ok (Editor.pad_docs, 2%nat)
  /\ exists ids,
      Upload.assign_ids Upload.int_unused Upload.text_unused
        Upload.int_unused Upload.text_unused Editor.pad_sheet = Ok ids
      /\ List.length ids = List.length (rows Editor.pad_sheet)
      /\ 2%nat
         = List.length
             (filter (fun id => negb (mem String.eqb id (keys Upload.stored_docs))) ids)
      /\ (List.length Upload.stored_docs <= List.length Editor.pad_docs
          <= List.length Upload.stored_docs + 2)%nat
      /\ (NoDup ids ->
          List.length Editor.pad_docs = (List.length Upload.stored_docs + 2)%nat).
Proof.
  assert (Upload.store_new Upload.int_unused Upload.text_unused
            Upload.int_unused Upload.text_unused Upload.stored_docs Editor.pad_sheet
          = Ok (Editor.pad_docs, 2%nat)) as Hrun by reflexivity.
  split; [exact Hrun|].
  exact (upload_count Upload.int_unused Upload.text_unused
           Upload.int_unused Upload.text_unused
           Upload.stored_docs Editor.pad_docs Editor.pad_sheet 2%nat Hrun).
Defined.

(** *** Normalization: missing columns and repetition *)

Lemma positions_none (label : string) (cols : list string) (k : nat) :
  ~ In label cols -> positions label cols k = [].
Proof.
  revert k. induction cols as [|c cols IH]; intros k Hn; simpl; [reflexivity|].
  destruct (String.eqb_spec c label) as [->|Hne]; [exfalso; apply Hn; now left|].
  apply IH. intros H. apply Hn. now right.
Qed.

Lemma column_position_missing (label : string) (cols : list string) :
  ~ In label cols -> column_position label cols = Raise (KeyError label).
Proof. intros Hn. unfold column_position. now rewrite positions_none. Qed.

(** X13.  Normalization of a frame without the column [Start time] raises
    [KeyError] for that label, and with it but without [End time] for that
    one, whatever the rows hold; the editor looks for the labels after
    stripping them, the viewer as they are stored. *)
Theorem normalize_missing_column
  (parse : list value -> value -> option Z) (df : DataFrame) :
  (~ In "Start time" (map strip (columns df)) ->
   KPI.normalize parse df = Raise (KeyError "Start time"))
  /\ (forall i, column_position "Start time" (map strip (columns df)) = Ok i ->
                ~ In "End time" (map strip (columns df)) ->
                KPI.normalize parse df = Raise (KeyError "End time"))
  /\ (~ In "Start time" (columns df) ->
      Viewer.normalize parse df = Raise (KeyError "Start time"))
  /\ (forall i, column_position "Start time" (columns df) = Ok i ->
                ~ In "End time" (columns df) ->
                Viewer.normalize parse df = Raise (KeyError "End time")).
Proof.
  unfold KPI.normalize, Viewer.normalize, coerce_times. simpl.
  split; [|split; [|split]].
  - intros Hn. now rewrite column_position_missing.
  - intros i Hi Hn. rewrite Hi. simpl. now rewrite column_position_missing.
  - intros Hn. now rewrite column_position_missing.
  - intros i Hi Hn. rewrite Hi. simpl. now rewrite column_position_missing.
Qed.

Lemma normalize_missing_column_witness :
  Viewer.normalize no_text upload_sheet = Raise (KeyError "Start time")
  /\ KPI.normalize no_text
       (mkFrame ["Well Name"; "Stage"; " Start time"] (rows upload_sheet))
     = Raise (KeyError "End time")
  /\ KPI.normalize no_text Editor.nbsp_sheet = Raise (KeyError "End time").
Proof.
  split; [|split].
  - apply (normalize_missing_column no_text upload_sheet).
    simpl. intuition discriminate.
  - apply (proj1 (proj2 (normalize_missing_column no_text
                           (mkFrame ["Well Name"; "Stage"; " Start time"]
                                    (rows upload_sheet)))) 2%nat).
    + reflexivity.
    + vm_compute. intuition discriminate.
  - apply (proj1 (proj2 (normalize_missing_column no_text Editor.nbsp_sheet)) 2%nat).
    + reflexivity.
    + vm_compute. intuition discriminate.
Defined.

Lemma coerce_times_inv (parse : list value -> value -> option Z) (df out : DataFrame) :
  coerce_times parse df = Ok out ->
  exists i j,
    column_position "Start time" (columns df) = Ok i
    /\ column_position "End time" (columns df) = Ok j
    /\ out = mkFrame (columns df) (surviving_rows parse df i j).
Proof.
  intros Hrun.
  destruct (column_position "Start time" (columns df)) as [i|e] eqn:Hi;
    [|unfold coerce_times in Hrun; rewrite Hi in Hrun; discriminate].
  destruct (column_position "End time" (columns df)) as [j|e] eqn:Hj.
  - exists i, j. rewrite (coerce_times_rows parse df i j Hi Hj) in Hrun.
    inversion Hrun. auto.
  - unfold coerce_times in Hrun. rewrite Hi in Hrun. simpl in Hrun.
    rewrite Hj in Hrun. discriminate.
Qed.

Lemma coerce_time_or_null (parse : list value -> value -> option Z)
  (series : list value) (v : value) :
  is_null (coerce parse series v) = false -> exists t, coerce parse series v = VTime t.
Proof.
  destruct v; simpl; try discriminate; eauto;
    destruct (parse series _); simpl; try discriminate; eauto.
Qed.

Lemma with_times_cells (parse : list value -> value -> option Z) (df : DataFrame)
  (i j : nat) (r : nat * list value) :
  i <> j ->
  cell i (with_times parse df i j r) = coerce parse (get_column df i) (cell i r)
  /\ cell j (with_times parse df i j r) = coerce parse (get_column df j) (cell j r).
Proof.
  intros Hij. unfold with_times, cell. simpl.
  rewrite nth_replace_nth_other by congruence.
  rewrite !nth_replace_nth_same, length_replace_nth. split.
  - destruct (cell_short i r) as [E|L].
    + unfold cell in E. rewrite E. simpl. now destruct (_ <? _)%nat.
    + apply Nat.ltb_lt in L. now rewrite L.
  - destruct (cell_short j r) as [E|L].
    + unfold cell in E. rewrite E. simpl. now destruct (_ <? _)%nat.
    + apply Nat.ltb_lt in L. now rewrite L.
Qed.

Lemma map_filter_fixed {A : Type} (f : A -> A) (p : A -> bool) (l : list A) :
  (forall x, In x l -> f x = x /\ p x = true) -> map f (filter p l) = l.
Proof.
  induction l as [|x l IH]; intros H; simpl; [reflexivity|].
  destruct (H x (or_introl eq_refl)) as [Hf Hp]. rewrite Hp. simpl.
  rewrite Hf, IH; [reflexivity|]. intros y Hy. apply H. now right.
Qed.

(** X14.  What normalization returns is stable: its two time columns hold
    datetimes only, and normalizing it again, with any text parser, returns
    the same frame.  So the viewer keeps every row the editor kept. *)
Theorem normalize_again
  (parse parse' : list value -> value -> option Z) (sheet out : DataFrame) :
  KPI.normalize parse sheet = Ok out ->
  Viewer.normalize parse' out = Ok out
  /\ exists i j,
      column_position "Start time" (columns out) = Ok i
      /\ column_position "End time" (columns out) = Ok j
      /\ forall r, In r (rows out) ->
                   exists a b, cell i r = VTime a /\ cell j r = VTime b.
Proof.
  unfold KPI.normalize, Viewer.normalize. intros Hrun.
  apply coerce_times_inv in Hrun. destruct Hrun as (i & j & Hi & Hj & ->).
  set (df := strip_columns sheet) in *.
  assert (i <> j) as Hij.
  { apply column_position_nth in Hi, Hj. intros ->. rewrite Hi in Hj. discriminate. }
  assert (forall r, In r (surviving_rows parse df i j) ->
                    exists a b, cell i r = VTime a /\ cell j r = VTime b) as Htimes.
  { intros r' Hr'. unfold surviving_rows in Hr'. apply in_map_iff in Hr'.
    destruct Hr' as (r & <- & Hr). apply filter_In in Hr. destruct Hr as [_ Hkeep].
    apply andb_true_iff in Hkeep. destruct Hkeep as [Hpi Hpj].
    unfold parses in Hpi, Hpj. apply negb_true_iff in Hpi, Hpj.
    apply coerce_time_or_null in Hpi, Hpj.
    destruct Hpi as (a & Ha), Hpj as (b & Hb).
    destruct (with_times_cells parse df i j r Hij) as [Ei Ej].
    exists a, b. now rewrite Ei, Ej. }
  split.
  - rewrite (coerce_times_rows parse'
               (mkFrame (columns df) (surviving_rows parse df i j)) i j Hi Hj).
    simpl. f_equal. f_equal.
    unfold surviving_rows at 1. simpl. apply map_filter_fixed.
    intros r Hr. destruct (Htimes r Hr) as (a & b & Ha & Hb).
    destruct (with_times_datetimes parse'
                (mkFrame (columns df) (surviving_rows parse df i j)) i j r a b Ha Hb)
      as (Hsame & Hpi & Hpj).
    split; [exact Hsame|]. apply andb_true_iff. split; [exact Hpi | exact Hpj].
  - exists i, j. simpl. auto.
Qed.

Lemma normalize_again_witness :
  Viewer.normalize no_text normalized_upload = Ok normalized_upload.
Proof.
  apply (normalize_again no_text no_text upload_sheet normalized_upload).
  vm_compute. reflexivity.
Defined.

(** *** Estimates and the last stage *)

Lemma Qsum_nonneg (l : list Q) : (forall x, In x l -> (0 <= x)%Q) -> (0 <= Qsum l)%Q.
Proof.
  induction l as [|x l IH]; intros H; simpl.
  - apply Qle_refl.
  - assert (0 <= x)%Q by (apply H; now left).
    assert (0 <= Qsum l)%Q by (apply IH; intros y Hy; apply H; now right).
    lra.
Qed.

Lemma average_nonneg (g : list StageRecord) :
  (forall r, In r g -> start_time r <= end_time r) ->
  (0 <= Spec.average_duration_hours g)%Q.
Proof.
  intros H. unfold Spec.average_duration_hours, Qdiv.
  apply Qmult_le_0_compat.
  - apply Qsum_nonneg. intros x Hx. apply in_map_iff in Hx. destruct Hx as (r & <- & Hr).
    change (Spec.duration_hours r) with (duration_hrs r). unfold duration_hrs.
    apply hours_of_nonneg. specialize (H r Hr). lia.
  - apply Qinv_le_0_compat. change 0%Q with (inject_Z 0). rewrite <- Zle_Qle. lia.
Qed.

Lemma last_end_unique (g : list StageRecord) (a b : Z) :
  Spec.is_last_end_time a g -> Spec.is_last_end_time b g -> a = b.
Proof.
  intros [Ha Hamax] [Hb Hbmax].
  apply in_map_iff in Ha, Hb. destruct Ha as (ra & <- & Hra), Hb as (rb & <- & Hrb).
  specialize (Hamax rb Hrb). specialize (Hbmax ra Hra). lia.
Qed.

Lemma estimate_sign (wells : dict Z) (w : string) (g : list StageRecord) (e : Q) (last : Z) :
  (forall r, In r g -> start_time r <= end_time r) ->
  (e == Spec.estimated_completion (KPI.total_stages wells w) last g)%Q ->
  (Z.of_nat (List.length g) <= KPI.total_stages wells w -> (inject_Z last <= e)%Q)
  /\ (KPI.total_stages wells w <= Z.of_nat (List.length g) -> (e <= inject_Z last)%Q).
Proof.
  intros Hdur He. pose proof (average_nonneg g Hdur) as Havg.
  unfold Spec.estimated_completion, Spec.stages_completed in He.
  set (avg := Spec.average_duration_hours g) in *.
  set (rem := KPI.total_stages wells w - Z.of_nat (List.length g)) in *.
  change (inject_Z Spec.ns_per_hour) with (3600000000000 # 1)%Q in He.
  split; intros Hcount.
  - assert (0 <= inject_Z rem)%Q as Hrem
        by (change 0%Q with (inject_Z 0); rewrite <- Zle_Qle; unfold rem; lia).
    rewrite He. pose proof (Qmult_le_0_compat _ _ Hrem Havg) as Hprod. lra.
  - assert (inject_Z rem <= 0)%Q as Hrem
        by (change 0%Q with (inject_Z 0); rewrite <- Zle_Qle; unfold rem; lia).
    rewrite He.
    assert (0 <= (- inject_Z rem) * avg)%Q as Hprod
        by (apply Qmult_le_0_compat; [lra | assumption]).
    lra.
Qed.

(** X15.  With stage times in order (no stage ends before it starts), the
    estimate of a well is not before the end of its last stage when the
    target is not yet exceeded, not after it when the target is reached or
    exceeded, and equal to it when the stages done match the target. *)
Theorem estimate_relative_to_last_end
  (wells : dict Z) (w : string) (g : list StageRecord) (e : Q) (last : Z) :
  (forall r, In r g -> start_time r <= end_time r) ->
  KPI.est_end wells w g = Ok (Some e) ->
  Spec.is_last_end_time last g ->
  let done := Z.of_nat (List.length g) in
  (done <= KPI.total_stages wells w -> (inject_Z last <= e)%Q)
  /\ (KPI.total_stages wells w <= done -> (e <= inject_Z last)%Q)
  /\ (KPI.total_stages wells w = done -> (e == inject_Z last)%Q).
Proof.
  intros Hdur Hrun Hlast done.
  assert (g <> []) as Hne.
  { intros ->. destruct Hlast as [[] _]. }
  destruct (est_end_nonempty wells w g Hne) as (last' & e' & Hrun' & Hlast' & He').
  assert (e' = e) by congruence. subst e'.
  assert (last' = last) by (eapply last_end_unique; eassumption). subst last'.
  destruct (estimate_sign wells w g e last Hdur He') as [Hge Hle].
  split; [exact Hge|]. split; [exact Hle|].
  intros E. apply Qle_antisym; [apply Hle | apply Hge]; unfold done in E; lia.
Qed.

Lemma estimate_relative_to_last_end_witness :
  exists e,
    KPI.est_end scenario_wells "A" scenario_records = Ok (Some e)
    /\ (inject_Z (Time.at_ 2024 1 1 4 0) <= e)%Q.
Proof.
  destruct (KPI.est_end scenario_wells "A" scenario_records) as [[e|]|x] eqn:E;
    try (vm_compute in E; discriminate).
  exists e. split; [reflexivity|].
  apply (estimate_relative_to_last_end scenario_wells "A" scenario_records e
           (Time.at_ 2024 1 1 4 0)).
  - intros r [<-|[<-|[]]]; vm_compute; discriminate.
  - exact E.
  - split; [right; left; reflexivity|].
    intros r [<-|[<-|[]]]; vm_compute; discriminate.
  - vm_compute. discriminate.
Defined.

(** *** The timeline header and the pad estimate *)

Lemma fold_min_spec (l : list Z) (x : Z) :
  let m := fold_left Z.min l x in
  In m (x :: l) /\ forall y, In y (x :: l) -> m <= y.
Proof.
  revert x. induction l as [|z l IH]; intros x; simpl.
  - split; [now left|]. intros y [E|[]]. lia.
  - specialize (IH (Z.min x z)). simpl in IH. destruct IH as [Hin Hle]. split.
    + destruct Hin as [E|Hin]; [|now right; right].
      rewrite <- E. destruct (Z.min_spec x z) as [[_ ->]|[_ ->]]; auto.
    + intros y [E|[E|Hy]].
      * specialize (Hle (Z.min x z) (or_introl eq_refl)). lia.
      * specialize (Hle (Z.min x z) (or_introl eq_refl)). lia.
      * apply Hle. now right.
Qed.

Lemma hours_of_le (a b : Z) : (Time.hours_of a <= Time.hours_of b)%Q <-> a <= b.
Proof.
  unfold Time.hours_of, Qdiv.
  change (/ inject_Z Time.ns_per_second)%Q with (1 # 1000000000)%Q.
  change (/ inject_Z Time.seconds_per_hour)%Q with (1 # 3600)%Q.
  unfold Qle, Qmult, inject_Z. simpl. lia.
Qed.

Lemma job_window_ok (records : list StageRecord) :
  records <> [] ->
  exists s e,
    Header.job_window (map start_time records) (map end_time records)
    = Ok (s, e, Time.hours_of (e - s))
    /\ In s (map start_time records) /\ In e (map end_time records)
    /\ forall r, In r records -> s <= start_time r /\ end_time r <= e.
Proof.
  intros Hne. destruct records as [|r0 records]; [congruence|]. clear Hne.
  unfold Header.job_window. simpl.
  destruct (fold_min_spec (map start_time records) (start_time r0)) as [Hs Hsmin].
  destruct (fold_max_spec (map end_time records) (end_time r0)) as [He Hemax].
  eexists. eexists. split; [reflexivity|]. split; [exact Hs|]. split; [exact He|].
  intros r Hr. split.
  - apply Hsmin. change (start_time r0 :: map start_time records)
      with (map start_time (r0 :: records)). now apply in_map.
  - apply Hemax. change (end_time r0 :: map end_time records)
      with (map end_time (r0 :: records)). now apply in_map.
Qed.

(** X16.  The header of the viewer shows the earliest start and the latest
    end among the rows, and the hours between them: no stage starts before
    that window or ends after it, and none lasts longer than it.  A stage
    that does not end before it starts lies in the window with both its
    times; one that does can start after the window has ended.  On no rows
    the header raises [ValueError]. *)
Theorem job_window_covers (records : list StageRecord) :
  (records = [] ->
   Header.job_window (map start_time records) (map end_time records) = Raise ValueError)
  /\ (records <> [] ->
      exists s e,
        Header.job_window (map start_time records) (map end_time records)
        = Ok (s, e, Time.hours_of (e - s))
        /\ In s (map start_time records) /\ In e (map end_time records)
        /\ forall r, In r records ->
                     s <= start_time r /\ end_time r <= e
                     /\ (duration_hrs r <= Time.hours_of (e - s))%Q
                     /\ (start_time r <= end_time r ->
                         s <= start_time r <= e /\ s <= end_time r <= e)).
Proof.
  split; [now intros ->|]. intros Hne.
  destruct (job_window_ok records Hne) as (s & e & Hrun & Hs & He & Hin).
  exists s, e. split; [exact Hrun|]. split; [exact Hs|]. split; [exact He|].
  intros r Hr. destruct (Hin r Hr) as [H1 H2].
  split; [exact H1|]. split; [exact H2|]. split.
  - unfold duration_hrs. apply hours_of_le. lia.
  - intros Hord. lia.
Qed.

Lemma job_window_covers_witness :
  Header.job_window (map start_time upload_records) (map end_time upload_records)
  = Ok (Time.at_ 2024 1 1 0 0, Time.at_ 2024 1 1 1 0,
        Time.hours_of (Time.at_ 2024 1 1 1 0 - Time.at_ 2024 1 1 0 0))
  /\ Time.at_ 2024 1 1 1 0 < start_time late_start
  /\ exists s e,
      Header.job_window (map start_time upload_records) (map end_time upload_records)
      = Ok (s, e, Time.hours_of (e - s))
      /\ (duration_hrs late_start <= Time.hours_of (e - s))%Q
      /\ forall r, In r upload_records -> start_time r <= end_time r ->
                   s <= start_time r <= e /\ s <= end_time r <= e.
Proof.
  split; [reflexivity|]. split; [reflexivity|].
  destruct (proj2 (job_window_covers upload_records)) as (s & e & Hrun & _ & _ & Hall).
  - discriminate.
  - exists s, e. split; [exact Hrun|]. split.
    + apply Hall. right. left. reflexivity.
    + intros r Hr. now apply Hall.
Defined.

Lemma pad_end_max (wells : dict Z) (records : list StageRecord) :
  records <> [] ->
  exists es m w,
    KPI.well_estimates wells (groupby records) = Ok es
    /\ KPI.pad_end wells records = Ok (Some m)
    /\ In (w, Some m) es
    /\ (forall w' e, In (w', Some e) es -> (e <= m)%Q).
Proof.
  intros Hne.
  destruct (groupby_estimates wells records) as (es & Hes & Hkeys & Hall & Hinv).
  assert (map snd es = map Some (somes (map snd es))) as Hsome.
  { apply all_some_map. intros x Hx. apply in_map_iff in Hx.
    destruct Hx as ([w y] & <- & Hin). now destruct (Hinv w y Hin) as (_ & _ & H). }
  destruct (py_max_somes (somes (map snd es))) as (m & Hm & Hin & Hle).
  { destruct records as [|r records]; [congruence|].
    destruct (Hall (well_name r)) as (e & He & _); [now left|].
    intros E. assert (In e (somes (map snd es))) as H.
    { apply somes_In. change (Some e) with (snd (well_name r, Some e)). now apply in_map. }
    rewrite E in H. destruct H. }
  apply somes_In, in_map_iff in Hin. destruct Hin as ([w x] & Hx & Hin).
  simpl in Hx. subst x.
  exists es, m, w. split; [assumption|]. split; [|split; [assumption|]].
  - unfold KPI.pad_end, KPI.pad_estimates. rewrite Hes. simpl.
    rewrite Hsome. exact Hm.
  - intros w' e Hin'. apply Hle, somes_In.
    change (Some e) with (snd (w', Some e)). now apply in_map.
Qed.

(** X17.  With stage times in order and no well past its target, the pad
    estimate of the editor is not before the latest stage end, which is the
    pad completion the viewer shows; when every well has exactly reached its
    target the two agree. *)
Theorem pad_end_not_before_last_stage (wells : dict Z) (records : list StageRecord) :
  records <> [] ->
  (forall r, In r records -> start_time r <= end_time r) ->
  (forall w, In w (map well_name records) ->
             Z.of_nat (List.length (Spec.records_of w records)) <= KPI.total_stages wells w) ->
  exists m s e h,
    KPI.pad_end wells records = Ok (Some m)
    /\ Header.job_window (map start_time records) (map end_time records) = Ok (s, e, h)
    /\ (inject_Z e <= m)%Q
    /\ ((forall w, In w (map well_name records) ->
                   KPI.total_stages wells w
                   = Z.of_nat (List.length (Spec.records_of w records))) ->
        (m == inject_Z e)%Q).
Proof.
  intros Hne Hdur Htarget.
  destruct (pad_end_max wells records Hne) as (es & m & wm & Hes & Hpad & Hm & Hmax).
  destruct (groupby_estimates wells records) as (es' & Hes' & _ & Hall & Hinv).
  assert (es' = es) by congruence. subst es'.
  destruct (job_window_ok records Hne) as (s & e & Hrun & _ & He & Hcover).
  exists m, s, e, (Time.hours_of (e - s)). split; [exact Hpad|]. split; [exact Hrun|].
  assert (forall w x, In (w, Some x) es ->
            exists last, Spec.is_last_end_time last (Spec.records_of w records)
                         /\ (Z.of_nat (List.length (Spec.records_of w records))
                             <= KPI.total_stages wells w -> (inject_Z last <= x)%Q)
                         /\ (KPI.total_stages wells w
                             <= Z.of_nat (List.length (Spec.records_of w records))
                             -> (x <= inject_Z last)%Q)
                         /\ last <= e) as Hwell.
  { intros w x Hx. destruct (Hinv w (Some x) Hx) as (Hw & Hrun_w & _).
    destruct (est_end_nonempty wells w (Spec.records_of w records))
      as (last & x' & Hrun' & Hlast & Hx'); [now apply records_of_nonempty|].
    assert (x' = x) by congruence. subst x'.
    assert (forall r, In r (Spec.records_of w records) -> In r records) as Hsub
        by (intros r Hr; apply filter_In in Hr; tauto).
    destruct (estimate_sign wells w (Spec.records_of w records) x last) as [Hge Hle];
      [intros r Hr; apply Hdur, Hsub, Hr | exact Hx' |].
    exists last. split; [exact Hlast|]. split; [exact Hge|]. split; [exact Hle|].
    destruct Hlast as [Hin _]. apply in_map_iff in Hin. destruct Hin as (r & <- & Hr).
    apply Hcover, Hsub, Hr. }
  split.
  - apply in_map_iff in He. destruct He as (r & <- & Hr).
    destruct (Hall (well_name r)) as (x & Hx & _); [now apply in_map|].
    destruct (Hwell _ _ Hx) as (last & [_ Hlast] & Hge & _ & _).
    apply Qle_trans with (inject_Z last).
    + rewrite <- Zle_Qle. apply Hlast. apply filter_In. split; [exact Hr | apply String.eqb_refl].
    + apply Qle_trans with x; [|now apply (Hmax (well_name r))].
      apply Hge, Htarget. now apply in_map.
  - intros Hexact. apply Qle_antisym.
    + destruct (Hwell _ _ Hm) as (last & _ & _ & Hle & Hlast_e).
      apply Qle_trans with (inject_Z last); [|now rewrite <- Zle_Qle].
      apply Hle. destruct (Hinv wm (Some m) Hm) as (Hw & _). rewrite (Hexact wm Hw). lia.
    + apply in_map_iff in He. destruct He as (r & <- & Hr).
      destruct (Hall (well_name r)) as (x & Hx & _); [now apply in_map|].
      destruct (Hwell _ _ Hx) as (last & [_ Hlast] & Hge & _ & _).
      apply Qle_trans with (inject_Z last).
      * rewrite <- Zle_Qle. apply Hlast. apply filter_In.
        split; [exact Hr | apply String.eqb_refl].
      * apply Qle_trans with x; [|now apply (Hmax (well_name r))].
        apply Hge, Htarget. now apply in_map.
Qed.

Lemma pad_end_not_before_last_stage_witness :
  exists m s e h,
    KPI.pad_end scenario_wells scenario_records = Ok (Some m)
    /\ Header.job_window (map start_time scenario_records) (map end_time scenario_records)
       = Ok (s, e, h)
    /\ (inject_Z e <= m)%Q.
Proof.
  destruct (pad_end_not_before_last_stage scenario_wells scenario_records)
    as (m & s & e & h & Hpad & Hrun & Hle & _).
  - discriminate.
  - intros r [<-|[<-|[]]]; vm_compute; discriminate.
  - intros w [<-|[<-|[]]]; vm_compute; discriminate.
  - exists m, s, e, h. auto.
Defined.

(** *** Groups *)

Lemma filter_length_count (w : string) (records : list StageRecord) :
  Z.of_nat (List.length (Spec.records_of w records))
  = Spec.occurrences w (map well_name records).
Proof.
  unfold Spec.records_of, Spec.occurrences. f_equal.
  induction records as [|r records IH]; simpl; [reflexivity|].
  destruct (String.eqb_spec (well_name r) w) as [E|Hne];
    destruct (string_dec (well_name r) w) as [E'|Hne']; simpl; congruence.
Qed.

(** X18.  Grouping by well splits the records: the wells come in strictly
    increasing order of name, every record is in the group of its well and in
    no other, a group holds records of its well only, and the numbers of
    completed stages of all wells add up to the number of records. *)
Theorem groups_partition (records : list StageRecord) :
  Sorted String_as_OT.lt (map fst (groupby records))
  /\ (forall r, In r records ->
                exists g, In (well_name r, g) (groupby records) /\ In r g)
  /\ (forall w g r, In (w, g) (groupby records) -> In r g ->
                    In r records /\ well_name r = w)
  /\ (forall w g, In (w, g) (groupby records) -> g <> [])
  /\ Zsum (map (fun wg => Z.of_nat (List.length (snd wg))) (groupby records))
     = Z.of_nat (List.length records).
Proof.
  split; [|split; [|split; [|split]]].
  - apply Sorted_NoDup_strict; [|apply groupby_keys_NoDup].
    rewrite groupby_keys. apply sorted_by_sorted, str_leb_total.
  - intros r Hr. exists (Spec.records_of (well_name r) records). split.
    + apply groupby_In. split; [now apply in_map | reflexivity].
    + apply filter_In. split; [exact Hr | apply String.eqb_refl].
  - intros w g r Hg Hr. apply groupby_In in Hg. destruct Hg as [_ ->].
    apply filter_In in Hr. destruct Hr as [Hr E]. split; [exact Hr|].
    now apply String.eqb_eq.
  - intros w g Hg. apply groupby_In in Hg. destruct Hg as [Hw ->].
    now apply records_of_nonempty.
  - unfold groupby. rewrite map_map. simpl.
    rewrite (map_ext _ (fun w => Spec.occurrences w (map well_name records)))
      by (intros w; apply filter_length_count).
    rewrite Zsum_occurrences, length_map; [reflexivity | |].
    + eapply Permutation_NoDup; [symmetry; apply sorted_by_perm|].
      apply unique_NoDup, String.eqb_eq.
    + intros x Hx. now rewrite sorted_by_In, unique_In by apply String.eqb_eq.
Qed.

Lemma groups_partition_witness :
  exists g, In ("A", g) (groupby upload_records) /\ In late_start g.
Proof.
  destruct (groups_partition upload_records) as (_ & Hin & _).
  apply (Hin late_start). right. left. reflexivity.
Defined.

(** *** The viewer's target *)

(** X19.  The viewer's target resolution never raises: the target is the
    declared count of the well when it is declared (the same the editor
    uses), and otherwise a declared count or 0.  When the job has a well with
    a blank name, which is a substring of every name, an undeclared well never
    gets the default 0: it gets the count of a declared well. *)
Theorem viewer_target_total (wells : dict Z) (well_name : string) :
  exists n,
    Viewer.total_stages wells well_name = Ok n
    /\ (n = 0 \/ exists k, In (k, n) wells)
    /\ (forall t, get wells well_name = Some t ->
                  n = t /\ KPI.total_stages wells well_name = t)
    /\ (get wells well_name = None -> In "" (keys wells) -> exists k, In (k, n) wells).
Proof.
  destruct (get wells well_name) as [t|] eqn:Hget.
  - exists t. unfold Viewer.total_stages. rewrite Hget. simpl.
    split; [reflexivity|]. split; [right; exists well_name; now apply get_Some_In|].
    split; [|discriminate]. intros t' E. inversion E; subst.
    split; [reflexivity|]. unfold KPI.total_stages, get_default. now rewrite Hget.
  - rewrite total_stages_unmatched by assumption.
    destruct (fuzzy_match_scan wells well_name wells [])
      as [[Hnone ->]|(l1 & k & v & l2 & Hw & Hm & _ & ->)];
      [reflexivity | intros k [] | |].
    + exists 0. simpl. split; [reflexivity|]. split; [now left|].
      split; [discriminate|]. intros _ Hblank. exfalso.
      apply (Hnone "" Hblank). left. exists "", well_name. reflexivity.
    + exists v. simpl. split; [reflexivity|].
      assert (In (k, v) wells) as Hin by (rewrite Hw; apply in_or_app; right; now left).
      split; [right; now exists k|]. split; [discriminate|]. intros _ _. now exists k.
Qed.

Lemma viewer_target_total_witness :
  exists n,
    Viewer.total_stages (("", 7) :: scenario_wells) "Z-9" = Ok n
    /\ exists k, In (k, n) (("", 7) :: scenario_wells).
Proof.
  destruct (viewer_target_total (("", 7) :: scenario_wells) "Z-9")
    as (n & Hrun & _ & _ & Hblank).
  exists n. split; [exact Hrun|]. apply Hblank; [reflexivity | simpl; auto].
Defined.

(** *** The order of the stored quality entries *)

Lemma somes_perm {A : Type} (l l' : list (option A)) :
  Permutation l l' -> Permutation (somes l) (somes l').
Proof.
  induction 1 as [|[a|] l l' _ IH|[a|] [b|] l|l l' l'' _ IH1 _ IH2]; simpl;
    try reflexivity; try assumption.
  - now constructor.
  - apply perm_swap.
  - now transitivity (somes l').
Qed.

Lemma observed_perm (field : QualityRecord -> option string)
  (data data' : list QualityRecord) :
  Permutation data data' ->
  Permutation (Spec.observed field data) (Spec.observed field data').
Proof. intros H. unfold Spec.observed. now apply somes_perm, Permutation_map. Qed.

Lemma occurrences_perm (c : string) (l l' : list string) :
  Permutation l l' -> Spec.occurrences c l = Spec.occurrences c l'.
Proof.
  intros H. unfold Spec.occurrences. f_equal.
  now apply (proj1 (Permutation_count_occ string_dec l l')).
Qed.

Lemma sorted_lt_unique (l l' : list string) :
  Sorted String_as_OT.lt l -> Sorted String_as_OT.lt l' ->
  (forall x, In x l <-> In x l') -> l = l'.
Proof.
  intros Hs Hs'.
  apply Sorted_StronglySorted in Hs, Hs'; try (intros x y z; apply String_as_OT.lt_strorder).
  revert l' Hs'. induction Hs as [|x l Hl IH Hx]; intros l' Hs' Hsame.
  - destruct l' as [|y l']; [reflexivity|]. exfalso. apply (Hsame y). now left.
  - destruct Hs' as [|y l' Hl' Hy]; [exfalso; apply (Hsame x); now left|].
    rewrite Forall_forall in Hx, Hy.
    assert (x = y) as ->.
    { destruct (proj1 (Hsame x) (or_introl eq_refl)) as [E|Hin]; [now symmetry|].
      destruct (proj2 (Hsame y) (or_introl eq_refl)) as [E|Hin']; [assumption|].
      exfalso. apply (StrictOrder_Irreflexive x).
      transitivity y; [now apply Hx | now apply Hy]. }
    f_equal. apply IH; [assumption|]. intros z. split; intros Hz.
    + destruct (proj1 (Hsame z) (or_intror Hz)) as [E|H]; [|assumption].
      exfalso. subst z. apply (StrictOrder_Irreflexive y). now apply Hx.
    + destruct (proj2 (Hsame z) (or_intror Hz)) as [E|H]; [|assumption].
      exfalso. subst z. apply (StrictOrder_Irreflexive y). now apply Hy.
Qed.

Lemma rate_table_perm (data data' : list QualityRecord) :
  Permutation data data' -> rate_table data = rate_table data'.
Proof.
  intros H.
  pose proof (observed_perm pre_sand data data' H) as Hpre.
  pose proof (observed_perm post_sand data data' H) as Hpost.
  rewrite (rate_table_as_map data), (rate_table_as_map data').
  assert (map Condition (rate_table data) = map Condition (rate_table data')) as ->.
  { apply sorted_lt_unique; try apply rate_conditions_sorted.
    intros c. rewrite !rate_conditions_In. split; intros [Hc|Hc].
    - left. eapply Permutation_in; eassumption.
    - right. eapply Permutation_in; eassumption.
    - left. eapply Permutation_in; [symmetry|]; eassumption.
    - right. eapply Permutation_in; [symmetry|]; eassumption. }
  apply map_ext. intros c.
  now rewrite (occurrences_perm c _ _ Hpre), (occurrences_perm c _ _ Hpost).
Qed.

Lemma value_counts_perm (series series' : list (option string)) :
  Permutation series series' ->
  Permutation (value_counts series) (value_counts series').
Proof.
  intros H. apply NoDup_Permutation.
  - apply (NoDup_map_inv fst). apply value_counts_NoDup.
  - apply (NoDup_map_inv fst). apply value_counts_NoDup.
  - intros [k v]. rewrite !value_counts_In.
    pose proof (somes_perm _ _ H) as Hobs. split; intros [Hk ->]; split.
    + eapply Permutation_in; eassumption.
    + f_equal. now apply (proj1 (Permutation_count_occ string_dec _ _)).
    + eapply Permutation_in; [symmetry|]; eassumption.
    + f_equal. symmetry. now apply (proj1 (Permutation_count_occ string_dec _ _)).
Qed.

(** X20.  The quality summary does not depend on the order in which the
    entries are stored: for any reordering of the entries the rate table is
    the same table, and the SPP table has the same rows, possibly in another
    order. *)
Theorem summary_order_independent (data data' : list QualityRecord) :
  Permutation data data' ->
  rate_df data = rate_df data'
  /\ exists rows rows',
      spp_table data = Ok rows /\ spp_table data' = Ok rows'
      /\ Permutation rows rows'.
Proof.
  intros H. split.
  - unfold rate_df. now rewrite (rate_table_perm data data' H).
  - eexists. eexists. split; [apply spp_table_rows|]. split; [apply spp_table_rows|].
    rewrite (Permutation_length (observed_perm Quality.spp data data' H)).
    apply Permutation_map, value_counts_perm. now apply Permutation_map.
Qed.

Lemma summary_order_independent_witness :
  rate_df (rev quality_scenario) = rate_df quality_scenario.
Proof.
  apply (summary_order_independent (rev quality_scenario) quality_scenario).
  symmetry. apply Permutation_rev.
Defined.

(** *** Idle times add up *)

Lemma diff_from_nonneg (l : list Z) (prev : Z) :
  Sorted Z.le (prev :: l) -> forall d, In (Some d) (KPI.diff_from prev l) -> 0 <= d.
Proof.
  revert prev. induction l as [|x l IH]; intros prev Hs d; simpl; [intros []|].
  inversion Hs as [|? ? Hs' Hhd]; subst. inversion Hhd; subst.
  intros [E|Hin]; [inversion E; lia | now apply (IH x)].
Qed.

Lemma last_default {A : Type} (l : list A) (y d d' : A) :
  last (y :: l) d = last (y :: l) d'.
Proof.
  revert y. induction l as [|x l IH]; intros y; [reflexivity|].
  change (last (x :: l) d = last (x :: l) d'). apply IH.
Qed.

Lemma last_cons {A : Type} (l : list A) (y d : A) : last (y :: l) d = last l y.
Proof.
  destruct l as [|x l]; [reflexivity|].
  change (last (x :: l) d = last (x :: l) y). apply last_default.
Qed.

Lemma last_map_default {A B : Type} (f : A -> B) (l : list A) (d : A) :
  last (map f l) (f d) = f (last l d).
Proof.
  induction l as [|x l IH]; [reflexivity|].
  simpl. destruct l as [|y l]; [reflexivity | exact IH].
Qed.

Lemma diff_from_sum (l : list Z) (prev : Z) :
  Zsum (somes (KPI.diff_from prev l)) = last l prev - prev.
Proof.
  revert prev. induction l as [|x l IH]; intros prev; simpl; [lia|].
  rewrite IH. destruct l as [|y l]; [simpl; lia|].
  rewrite (last_default l y x prev). lia.
Qed.

Lemma Sorted_map_starts (l : list StageRecord) :
  Sorted (fun a b => (start_time a <=? start_time b) = true) l ->
  Sorted Z.le (map start_time l).
Proof.
  induction 1 as [|r l _ IH Hhd]; simpl; constructor; [exact IH|].
  destruct Hhd; simpl; constructor. now apply Z.leb_le.
Qed.

Lemma somes_option_map {A B : Type} (f : A -> B) (l : list (option A)) :
  somes (map (option_map f) l) = map f (somes l).
Proof.
  induction l as [|[a|] l IH]; simpl; [reflexivity | now rewrite IH | exact IH].
Qed.

Lemma Qsum_hours (ds : list Z) : (Qsum (map Time.hours_of ds) == Time.hours_of (Zsum ds))%Q.
Proof.
  induction ds as [|d ds IH]; simpl.
  - reflexivity.
  - rewrite IH. unfold Time.hours_of. rewrite inject_Z_plus. unfold Qdiv. ring.
Qed.

(** X21.  No idle value is negative, every row but the first of a well has
    one, and the idle values of a well add up to the hours from its earliest
    stage start to its latest. *)
Theorem idle_hours_add_up (group : list StageRecord) (r0 : StageRecord) :
  let sorted := KPI.sort_values group in
  let idle := somes (KPI.idle_hrs group) in
  (forall h, In h idle -> (0 <= h)%Q)
  /\ List.length idle = (List.length group - 1)%nat
  /\ (Qsum idle
      == Time.hours_of (start_time (last sorted r0) - start_time (hd r0 sorted)))%Q.
Proof.
  intros sorted idle. unfold idle, KPI.idle_hrs. fold sorted.
  rewrite somes_option_map.
  assert (Sorted Z.le (map start_time sorted)) as Hs.
  { apply Sorted_map_starts. apply sorted_by_sorted. intros a b.
    destruct (Z.leb_spec (start_time a) (start_time b)); [now left|].
    right. apply Z.leb_le. lia. }
  assert (List.length sorted = List.length group) as Hlen
      by apply Permutation_length, sorted_by_perm.
  destruct sorted as [|r l]; simpl in *.
  - split; [intros h []|]. split; [lia|]. rewrite Z.sub_diag. reflexivity.
  - split; [|split].
    + intros h Hh. apply in_map_iff in Hh. destruct Hh as (d & <- & Hd).
      apply hours_of_nonneg. apply somes_In in Hd.
      now apply (diff_from_nonneg _ _ Hs).
    + rewrite length_map. rewrite <- Hlen.
      rewrite <- (length_map start_time l). generalize (start_time r) (map start_time l).
      intros p l'. revert p. induction l' as [|x l' IH]; intros p; simpl; [reflexivity|].
      rewrite IH. simpl. lia.
    + rewrite Qsum_hours, diff_from_sum.
      rewrite last_map_default, <- (last_cons l r r0). reflexivity.
Qed.

Lemma idle_hours_add_up_witness :
  (Qsum (somes (KPI.idle_hrs (rev scenario_records))) == 3)%Q.
Proof.
  destruct (idle_hours_add_up (rev scenario_records) late_start) as (_ & _ & Hsum).
  rewrite Hsum. vm_compute. reflexivity.
Defined.
